(** * Address-to-source introspection of the JIT runtime (src/debuginfo.cpp)

    A shallow embedding of the registry of JIT-emitted code, of the
    symbolication engine, of the unwind-table builder and of the lookup
    of native libraries, together with the properties stated about them
    in the design document and further properties read off the code.

    Conventions.  Machine integers are [Z] with the wrap-around written
    out ([wrap64], [wrap32]); raw memory is a function from addresses to
    bytes read in little-endian order (the unwind-table builder is only
    compiled for Linux and FreeBSD on little-endian 64-bit targets);
    C strings are lists of characters without the terminating NUL;
    pointers to runtime objects are [Z] with [0] standing for NULL. *)

From Stdlib Require Import ZArith Lia List String Ascii Bool Sorted.
From stdpp Require Import base option list gmap strings.

Local Open Scope Z_scope.

(** ** Machine integers *)

Definition wrap64 (z : Z) : Z := z mod 2 ^ 64.
Definition wrap32 (z : Z) : Z := z mod 2 ^ 32.

(** Reinterpretation of a [w]-bit pattern as a two's complement number. *)
Definition to_signed (w : Z) (z : Z) : Z :=
  let u := z mod 2 ^ w in
  if u <? 2 ^ (w - 1) then u else u - 2 ^ w.

Definition NULL : Z := 0.

(** * Demangling ([jl_demangle]) *)

Module Demangle.

Local Open Scope nat_scope.

(** A C string: the characters before the terminating NUL. *)
Definition cstring := list ascii.

(** [name[i]]; reading at [strlen name] yields the terminator. *)
Definition char_at (name : cstring) (i : nat) : ascii := nth i name "000"%char.

(** [c < '0' || c > '9'] is the negation of this test. *)
Definition is_digit (c : ascii) : bool :=
  Nat.leb 48 (nat_of_ascii c) && Nat.leb (nat_of_ascii c) 57.

Definition ascii_eqb (a b : ascii) : bool := Ascii.eqb a b.

(** [strncmp(name, p, 6) == 0] for a six character literal [p], used
    only once [strlen name > 6] is known. *)
Definition strncmp6_eq (name p : cstring) : bool :=
  bool_decide (firstn 6 name = p).

Definition prefixes : list cstring :=
  map list_ascii_of_string
      ["japi1_"; "japi3_"; "julia_"; "jsys1_"; "jlsys_"]%string.

(** The loop [while ( *(--end) != '_') { if (not a digit) goto done; }].
    [scan_suffix name e] is entered with [end = e]; it yields the final
    value of [end], or [None] for the jump to [done].  The case [e = 0]
    would step in front of the buffer; it is never reached after the
    prefix test, because every prefix has an underscore at index 5. *)
Fixpoint scan_suffix (name : cstring) (e : nat) : option nat :=
  match e with
  | O => None
  | S e' =>
      if ascii_eqb (char_at name e') "_"%char then Some e'
      else if is_digit (char_at name e') then scan_suffix name e'
      else None
  end.

(** [jl_demangle]: the returned pair is the (freshly allocated) name and
    the flag telling whether the name was recognised. *)
Definition jl_demangle (name : cstring) : cstring * bool :=
  let start := 6 in
  let end_ := length name in
  if Nat.leb end_ start then (name, false)
  else if negb (existsb (strncmp6_eq name) prefixes) then (name, false)
  else if ascii_eqb (char_at name start) "000"%char then (name, false)
  else match scan_suffix name end_ with
       | None => (name, false)
       | Some e =>
           if Nat.leb e start then (name, false)
           else (firstn (e - start) (skipn start name), true)
       end.

Definition valid_cstring (s : cstring) : Prop := Forall (fun c => c <> "000"%char) s.

Definition all_digits (s : cstring) : Prop := Forall (fun c => is_digit c = true) s.

(** The shape recognised by the demangler: prefix, non-empty body,
    underscore, decimal digits (possibly none). *)
Definition mangled_shape (name body : cstring) : Prop :=
  exists pre digits,
    In pre prefixes /\ body <> [] /\ all_digits digits /\
    name = pre ++ body ++ "_"%char :: digits.

(** The shape with at least one digit after the underscore. *)
Definition mangled_shape_strict (name body : cstring) : Prop :=
  exists pre digits,
    In pre prefixes /\ body <> [] /\ digits <> [] /\ all_digits digits /\
    name = pre ++ body ++ "_"%char :: digits.

End Demangle.

(** * Call-frame information: record walk, LEB128, CIE and FDE decoding *)

Module CFI.

(** Outcome of a computation of the source: [AssertFail] stands for a
    failed [assert], [OutOfFuel] for a model that ran out of fuel. *)
Inductive result (A : Type) : Type :=
| Ok (a : A)
| AssertFail
| OutOfFuel.
Arguments Ok {A} a.
Arguments AssertFail {A}.
Arguments OutOfFuel {A}.

Definition bind {A B} (r : result A) (k : A -> result B) : result B :=
  match r with
  | Ok a => k a
  | AssertFail => AssertFail
  | OutOfFuel => OutOfFuel
  end.

Notation "'do' x <- r ; k" := (bind r (fun x => k))
  (at level 10, x name, r at level 100, k at level 200).
Notation "'assert!' b ; k" := (if b then k else AssertFail)
  (at level 10, b at level 100, k at level 200).

(** Raw memory: the byte stored at each address. *)
Definition memory := Z -> Z.

Definition load8 (m : memory) (a : Z) : Z := m a mod 256.

(** Little-endian load of [n] bytes. *)
Fixpoint load_le (m : memory) (a : Z) (n : nat) : Z :=
  match n with
  | O => 0
  | S n' => load8 m a + 256 * load_le m (a + 1) n'
  end.

Definition load16 (m : memory) (a : Z) : Z := load_le m a 2.
Definition load32 (m : memory) (a : Z) : Z := load_le m a 4.
Definition load64 (m : memory) (a : Z) : Z := load_le m a 8.

(** A buffer of bytes placed at address [base]. *)
Definition mem_of (base : Z) (bytes : list Z) : memory :=
  fun a =>
    if (base <=? a) && (a <? base + Z.of_nat (length bytes))
    then nth (Z.to_nat (a - base)) bytes 0
    else 0.

(** [holds m a bs]: memory [m] contains the bytes [bs] from address [a] on. *)
Definition holds (m : memory) (a : Z) (bs : list Z) : Prop :=
  forall i : nat, (i < length bs)%nat -> load8 m (a + Z.of_nat i) = nth i bs 0.

(** ** [processFDEs] *)

(** One turn of the [do ... while (P != End)] loop per unit of fuel.  Each
    turn that does not stop moves [P] forward by at least five bytes and
    the assertions keep it below [End], so [Size] turns always suffice
    (lemma [processFDEs_total]). *)
Fixpoint processFDEs_loop {S : Type} (m : memory) (End : Z)
    (f : Z -> S -> result S) (fuel : nat) (P : Z) (s : S) : result S :=
  match fuel with
  | O => OutOfFuel
  | Datatypes.S fuel' =>
      let Entry := P in
      let P := P + 4 in
      assert! (P <=? End);
      let Length := load32 m Entry in
      if Length =? 0 then Ok s
      else
        assert! (P + Length <=? End);
        let Offset := load32 m P in
        do s' <- (if negb (Offset =? 0) then f Entry s else Ok s);
        let P := P + Length in
        if negb (P =? End) then processFDEs_loop m End f fuel' P s' else Ok s'
  end.

Definition processFDEs {S : Type} (m : memory) (EHFrameAddr EHFrameSize : Z)
    (f : Z -> S -> result S) (s : S) : result S :=
  processFDEs_loop m (EHFrameAddr + EHFrameSize) f
                   (Datatypes.S (Z.to_nat EHFrameSize)) EHFrameAddr s.

(** ** LEB128 *)

(** [consume_leb128]: the loop [while (( *P >> 7) != 0 && P < End) ++P].
    The fuel [End - Addr] is exactly the largest number of turns the loop
    can take. *)
Fixpoint consume_leb128_loop (m : memory) (End : Z) (fuel : nat) (P : Z) : Z :=
  match fuel with
  | O => P
  | Datatypes.S fuel' =>
      if negb (Z.shiftr (load8 m P) 7 =? 0) && (P <? End)
      then consume_leb128_loop m End fuel' (P + 1)
      else P
  end.

Definition consume_leb128 (m : memory) (Addr End : Z) : Z :=
  consume_leb128_loop m End (Z.to_nat (End - Addr)) Addr + 1.

(** Width of [uintptr_t] and [intptr_t], the two types at which the
    template [parse_leb128] is instantiated. *)
Definition ptr_bits : Z := 64.
Definition sizeof_ptr : Z := 8.

(** Number of turns of the [for] loop: [(sizeof(T) * 8 - 1) / 7 + 1]. *)
Definition leb_max_groups : nat := Z.to_nat ((sizeof_ptr * 8 - 1) / 7 + 1).

(** The body of [parse_leb128]; [v] is the accumulator of type [uT], [i]
    the loop counter.  The result is the bit pattern [v] and the updated
    [Addr]. *)
Fixpoint parse_leb128_loop (is_signed : bool) (m : memory) (End : Z)
    (fuel : nat) (i : Z) (Addr : Z) (v : Z) : Z * Z :=
  match fuel with
  | O => (v, consume_leb128 m Addr End)
  | Datatypes.S fuel' =>
      let a := load8 m Addr in
      let Addr := Addr + 1 in
      let v := Z.lor v (wrap64 (Z.shiftl (Z.land a 0x7f) (i * 7))) in
      if (Z.land a 0x80 =? 0) || (End <=? Addr) then
        let v :=
          if negb (Z.land a 0x40 =? 0) && is_signed then
            let valid_bits := (i + 1) * 7 in
            if valid_bits <? 64
            then Z.lor v (wrap64 (- Z.shiftl 1 valid_bits))
            else v
          else v in
        (v, Addr)
      else parse_leb128_loop is_signed m End fuel' (i + 1) Addr v
  end.

(** [T(v)]: the pattern read back at the target type. *)
Definition as_T (is_signed : bool) (v : Z) : Z :=
  if is_signed then to_signed ptr_bits v else v.

(** [parse_leb128<T>(Addr, End)]: the decoded value and the new [Addr]. *)
Definition parse_leb128 (is_signed : bool) (m : memory) (Addr End : Z) : Z * Z :=
  let '(v, Addr') := parse_leb128_loop is_signed m End leb_max_groups 0 Addr 0 in
  (as_T is_signed v, Addr').

(** The bytes folded into the accumulator by [parse_leb128], and whether
    the loop stopped at a final byte (no continuation bit, or the end of
    the buffer) rather than at the cap. *)
Fixpoint leb_groups (m : memory) (End : Z) (n : nat) (Addr : Z) : list Z * bool :=
  match n with
  | O => ([], false)
  | Datatypes.S n' =>
      let a := load8 m Addr in
      if (Z.land a 0x80 =? 0) || (End <=? Addr + 1) then ([a], true)
      else let '(l, t) := leb_groups m End n' (Addr + 1) in (a :: l, t)
  end.

(** The number denoted by a sequence of 7-bit groups, least significant
    group first. *)
Fixpoint leb_payload (bs : list Z) : Z :=
  match bs with
  | [] => 0
  | b :: bs' => Z.land b 0x7f + 128 * leb_payload bs'
  end.

(** Whether [parse_leb128<intptr_t>] fills the bits from [vb] upwards
    with ones: the loop stopped at a final byte whose bit [0x40] is set,
    and [vb], the number of bits read, is below 64. *)
Definition sign_fill (is_signed stopped : bool) (gs : list Z) (vb : Z) : bool :=
  stopped && negb (Z.land (List.last gs 0) 0x40 =? 0) && is_signed && (vb <? 64).

(** ** [parseCIE] *)

Definition DW_EH_PE_absptr : Z := 0x00.
Definition DW_EH_PE_omit : Z := 0xff.
Definition DW_EH_PE_uleb128 : Z := 0x01.
Definition DW_EH_PE_udata2 : Z := 0x02.
Definition DW_EH_PE_udata4 : Z := 0x03.
Definition DW_EH_PE_udata8 : Z := 0x04.
Definition DW_EH_PE_signed : Z := 0x08.
Definition DW_EH_PE_sleb128 : Z := 0x09.
Definition DW_EH_PE_sdata2 : Z := 0x0a.
Definition DW_EH_PE_sdata4 : Z := 0x0b.
Definition DW_EH_PE_sdata8 : Z := 0x0c.
Definition DW_EH_PE_pcrel : Z := 0x10.

(** [strlen]: scans for the terminating NUL, one byte per unit of fuel. *)
Fixpoint strlen_loop (m : memory) (fuel : nat) (p : Z) (n : Z) : result Z :=
  match fuel with
  | O => OutOfFuel
  | Datatypes.S fuel' =>
      if load8 m (p + n) =? 0 then Ok n else strlen_loop m fuel' p (n + 1)
  end.

Definition strlen (m : memory) (fuel : nat) (p : Z) : result Z :=
  strlen_loop m fuel p 0.

(** Size of the personality pointer that follows the encoding byte of a
    ['P'] augmentation. *)
Definition skip_personality (m : memory) (cie_end : Z) (encoding p : Z) : result Z :=
  let low := Z.land encoding 0xf in
  if (low =? DW_EH_PE_uleb128) || (low =? DW_EH_PE_sleb128)
  then Ok (consume_leb128 m p cie_end)
  else if (low =? DW_EH_PE_udata2) || (low =? DW_EH_PE_sdata2) then Ok (p + 2)
  else if (low =? DW_EH_PE_udata4) || (low =? DW_EH_PE_sdata4) then Ok (p + 4)
  else if (low =? DW_EH_PE_udata8) || (low =? DW_EH_PE_sdata8) then Ok (p + 8)
  else if low =? DW_EH_PE_signed then Ok (p + sizeof_ptr)
  else if (encoding =? DW_EH_PE_absptr) || (encoding =? DW_EH_PE_omit)
       then Ok (p + sizeof_ptr)
       else AssertFail.

(** The loop [for (augp = augmentation;; augp++) switch ( *augp)] over the
    augmentation string.  The loop has no exit but the ['R'] case and the
    assertions: a character that is none of [z], [L], [R], [P], the
    terminating NUL included, takes the [default: continue] branch. *)
Fixpoint parse_augmentation (m : memory) (cie_end : Z) (fuel : nat)
    (augp p : Z) : result Z :=
  match fuel with
  | O => OutOfFuel
  | Datatypes.S fuel' =>
      let c := load8 m augp in
      if c =? 122 (* 'z' *) then
        let p := consume_leb128 m p cie_end in
        assert! (p <=? cie_end);
        parse_augmentation m cie_end fuel' (augp + 1) p
      else if c =? 76 (* 'L' *) then
        let p := p + 1 in
        assert! (p <=? cie_end);
        parse_augmentation m cie_end fuel' (augp + 1) p
      else if c =? 82 (* 'R' *) then
        Ok (load8 m p)
      else if c =? 80 (* 'P' *) then
        let encoding := load8 m p in
        let p := p + 1 in
        do p <- skip_personality m cie_end encoding p;
        assert! (p <=? cie_end);
        parse_augmentation m cie_end fuel' (augp + 1) p
      else
        parse_augmentation m cie_end fuel' (augp + 1) p
  end.

(** [parseCIE(Addr, End)]: the encoding byte announced by the ['R']
    augmentation of the CIE at [Addr]. *)
Definition parseCIE (fuel : nat) (m : memory) (Addr End : Z) : result Z :=
  let cie_size := load32 m Addr in
  let cie_addr := Addr + 4 in
  let p := cie_addr in
  let cie_end := cie_addr + cie_size in
  assert! (cie_end <=? End);
  assert! (load32 m cie_addr =? 0);
  let p := p + 4 in
  let cie_version := load8 m p in
  assert! ((cie_version =? 1) || (cie_version =? 3));
  let p := p + 1 in
  let augmentation := p in
  do augmentation_len <- strlen m fuel augmentation;
  let p := p + (augmentation_len + 1) in
  let p := p + 1 in
  assert! (p <=? cie_end);
  let p := consume_leb128 m p cie_end in
  let p := if cie_version =? 1 then p + 1 else consume_leb128 m p cie_end in
  parse_augmentation m cie_end fuel augmentation p.

(** ** [register_eh_frames] *)

Record unw_table_entry := {
  start_ip_offset : Z;
  fde_offset : Z
}.

(** [safe_trunc<int32_t>]. *)
Definition safe_trunc_int32 (t : Z) : result Z :=
  assert! ((- 2 ^ 31 <=? t) && (t <=? 2 ^ 31 - 1));
  Ok t.

(** Lines 1548--1617 of the visitor: the encoding in force and the
    [(start, size)] pair of the FDE at [Entry].  [cur_cie] and
    [encoding] are the captured variables of the same name. *)
Definition fde_range (fuel : nat) (m : memory) (Addr Size : Z)
    (cur_cie encoding : Z) (Entry : Z) : result (Z * Z * Z) :=
  let fde_size := load32 m Entry in
  let cie_id := load32 m (Entry + 4) in
  let cie_addr := Entry + 4 - cie_id in
  do encoding <- (if negb (cie_addr =? cur_cie)
                  then parseCIE fuel m cie_addr (Addr + Size)
                  else Ok encoding);
  let fde_end := Entry + 4 + fde_size in
  let EntryPtr := Entry + 8 in
  if (encoding =? DW_EH_PE_absptr) || (encoding =? DW_EH_PE_omit) then
    assert! (2 * sizeof_ptr + 4 <=? fde_size);
    Ok (encoding, load64 m EntryPtr, load64 m (EntryPtr + sizeof_ptr))
  else
    let baseptr := EntryPtr in
    assert! (Z.land encoding 0xf0 =? 0x10);
    let low := Z.land encoding 0xf in
    if low =? DW_EH_PE_uleb128 then
      let '(v1, EntryPtr) := parse_leb128 false m EntryPtr fde_end in
      let '(v2, EntryPtr) := parse_leb128 false m EntryPtr fde_end in
      Ok (encoding, wrap64 (baseptr + v1), v2)
    else if low =? DW_EH_PE_udata2 then
      assert! (2 * 2 + 4 <=? fde_size);
      Ok (encoding, wrap64 (baseptr + load16 m EntryPtr), load16 m (EntryPtr + 2))
    else if low =? DW_EH_PE_udata4 then
      assert! (2 * 4 + 4 <=? fde_size);
      Ok (encoding, wrap64 (baseptr + load32 m EntryPtr), load32 m (EntryPtr + 4))
    else if low =? DW_EH_PE_udata8 then
      assert! (2 * 8 + 4 <=? fde_size);
      Ok (encoding, wrap64 (baseptr + load64 m EntryPtr), load64 m (EntryPtr + 8))
    else if low =? DW_EH_PE_signed then
      assert! (2 * sizeof_ptr + 4 <=? fde_size);
      Ok (encoding,
          wrap64 (baseptr + to_signed 64 (load64 m EntryPtr)),
          wrap64 (to_signed 64 (load64 m (EntryPtr + sizeof_ptr))))
    else if low =? DW_EH_PE_sleb128 then
      let '(v1, EntryPtr) := parse_leb128 true m EntryPtr fde_end in
      let '(v2, EntryPtr) := parse_leb128 true m EntryPtr fde_end in
      Ok (encoding, wrap64 (baseptr + v1), wrap64 v2)
    else if low =? DW_EH_PE_sdata2 then
      assert! (2 * 2 + 4 <=? fde_size);
      Ok (encoding,
          wrap64 (baseptr + to_signed 16 (load16 m EntryPtr)),
          wrap64 (to_signed 16 (load16 m (EntryPtr + 2))))
    else if low =? DW_EH_PE_sdata4 then
      assert! (2 * 4 + 4 <=? fde_size);
      Ok (encoding,
          wrap64 (baseptr + to_signed 32 (load32 m EntryPtr)),
          wrap64 (to_signed 32 (load32 m (EntryPtr + 4))))
    else if low =? DW_EH_PE_sdata8 then
      assert! (2 * 8 + 4 <=? fde_size);
      Ok (encoding,
          wrap64 (baseptr + to_signed 64 (load64 m EntryPtr)),
          wrap64 (to_signed 64 (load64 m (EntryPtr + 8))))
    else AssertFail.

(** The variables captured by reference by the visitor. *)
Record builder := {
  b_start_ip : Z;
  b_end_ip : Z;
  b_table : list unw_table_entry;
  b_start_ips : list Z;
  b_cur_entry : nat;
  b_cur_cie : Z;
  b_encoding : Z
}.

(** The visitor passed to the second [processFDEs] walk.  The source
    never assigns [cur_cie], so it keeps its initial value [nullptr]. *)
Definition fde_visitor (fuel : nat) (m : memory) (Addr Size : Z)
    (Entry : Z) (b : builder) : result builder :=
  do r <- fde_range fuel m Addr Size (b_cur_cie b) (b_encoding b) Entry;
  let '(encoding, start, size) := r in
  let start_ip := if start <? b_start_ip b then start else b_start_ip b in
  let end_ip := if b_end_ip b <? wrap64 (start + size)
                then wrap64 (start + size) else b_end_ip b in
  do off <- safe_trunc_int32 (to_signed 64 Entry - to_signed 64 Addr);
  Ok {| b_start_ip := start_ip;
        b_end_ip := end_ip;
        b_table := alter (fun e => {| start_ip_offset := start_ip_offset e;
                                      fde_offset := off |})
                         (b_cur_entry b) (b_table b);
        b_start_ips := <[b_cur_entry b := start]> (b_start_ips b);
        b_cur_entry := Datatypes.S (b_cur_entry b);
        b_cur_cie := b_cur_cie b;
        b_encoding := encoding |}.

Record unw_dyn_info := {
  di_gp : Z;
  di_segbase : Z;
  di_table_len : Z;
  di_table_data : list unw_table_entry;
  di_start_ip : Z;
  di_end_ip : Z
}.

(** What [register_eh_frames] hands to the two unwinders. *)
Inductive unwind_event :=
| SystemRegisterFrame (addr : Z)          (* [__register_frame(Addr)] *)
| DynRegister (di : unw_dyn_info).        (* [_U_dyn_register(di)] *)

(** The final loop over the table:
    [table[i].start_ip_offset = safe_trunc<int32_t>(start_ips[i] - start_ip)]. *)
Fixpoint fill_start_offsets (start_ip : Z) (table : list unw_table_entry)
    (start_ips : list Z) : result (list unw_table_entry) :=
  match table, start_ips with
  | e :: table', s :: start_ips' =>
      do off <- safe_trunc_int32 (to_signed 64 s - to_signed 64 start_ip);
      do rest <- fill_start_offsets start_ip table' start_ips';
      Ok ({| start_ip_offset := off; fde_offset := fde_offset e |} :: rest)
  | _, _ => Ok []
  end.

Definition register_eh_frames (fuel : nat) (m : memory) (Addr Size : Z)
    : result (list unwind_event) :=
  do nentries <- processFDEs m Addr Size (fun _ n => Ok (Datatypes.S n)) O;
  if Nat.eqb nentries 0 then Ok [SystemRegisterFrame Addr]
  else
    let b0 := {| b_start_ip := 2 ^ 64 - 1;
                 b_end_ip := 0;
                 b_table := replicate nentries
                              {| start_ip_offset := 0; fde_offset := 0 |};
                 b_start_ips := replicate nentries 0;
                 b_cur_entry := O;
                 b_cur_cie := NULL;
                 b_encoding := DW_EH_PE_omit |} in
    do b <- processFDEs m Addr Size (fde_visitor fuel m Addr Size) b0;
    do table <- fill_start_offsets (b_start_ip b) (b_table b) (b_start_ips b);
    assert! (negb (b_end_ip b =? 0));
    Ok [SystemRegisterFrame Addr;
        DynRegister {| di_gp := 0;
                       di_segbase := Addr;
                       di_table_len := Z.of_nat nentries * 8 / 8;
                       di_table_data := table;
                       di_start_ip := b_start_ip b;
                       di_end_ip := b_end_ip b |}].

(** ** Reference encodings (DWARF), used to state the decoding results *)

(** [n] bytes of [v], least significant first. *)
Fixpoint le_bytes (n : nat) (v : Z) : list Z :=
  match n with
  | O => []
  | Datatypes.S n' => v mod 256 :: le_bytes n' (v / 256)
  end.

(** Unsigned LEB128 of [v >= 0]. *)
Fixpoint uleb128_fuel (fuel : nat) (v : Z) : list Z :=
  match fuel with
  | O => []
  | Datatypes.S fuel' =>
      if v <? 128 then [v] else (v mod 128 + 128) :: uleb128_fuel fuel' (v / 128)
  end.
Definition uleb128 (v : Z) : list Z := uleb128_fuel 10 v.

(** Signed LEB128. *)
Fixpoint sleb128_fuel (fuel : nat) (v : Z) : list Z :=
  match fuel with
  | O => []
  | Datatypes.S fuel' =>
      let b := v mod 128 in
      let v' := v / 128 in
      if ((v' =? 0) && (b <? 64)) || ((v' =? -1) && (64 <=? b)) then [b]
      else (b + 128) :: sleb128_fuel fuel' v'
  end.
Definition sleb128 (v : Z) : list Z := sleb128_fuel 10 v.

(** Shape of a LEB128 byte sequence: continuation bytes, then a final
    byte below 128. *)
Fixpoint leb_shape (bs : list Z) : Prop :=
  match bs with
  | [] => False
  | b :: bs' =>
      match bs' with
      | [] => 0 <= b < 128
      | _ :: _ => 128 <= b < 256 /\ leb_shape bs'
      end
  end.

(** The value formats of an FDE address field (low nibble of the
    encoding byte). *)
Inductive value_format :=
| Fuleb128 | Fudata2 | Fudata4 | Fudata8
| Fsigned | Fsleb128 | Fsdata2 | Fsdata4 | Fsdata8.

Definition format_code (f : value_format) : Z :=
  match f with
  | Fuleb128 => DW_EH_PE_uleb128
  | Fudata2 => DW_EH_PE_udata2
  | Fudata4 => DW_EH_PE_udata4
  | Fudata8 => DW_EH_PE_udata8
  | Fsigned => DW_EH_PE_signed
  | Fsleb128 => DW_EH_PE_sleb128
  | Fsdata2 => DW_EH_PE_sdata2
  | Fsdata4 => DW_EH_PE_sdata4
  | Fsdata8 => DW_EH_PE_sdata8
  end.

(** The values a format can hold. *)
Definition format_range (f : value_format) (v : Z) : Prop :=
  match f with
  | Fuleb128 | Fudata8 => 0 <= v < 2 ^ 64
  | Fudata2 => 0 <= v < 2 ^ 16
  | Fudata4 => 0 <= v < 2 ^ 32
  | Fsigned | Fsleb128 | Fsdata8 => - 2 ^ 63 <= v < 2 ^ 63
  | Fsdata2 => - 2 ^ 15 <= v < 2 ^ 15
  | Fsdata4 => - 2 ^ 31 <= v < 2 ^ 31
  end.

Definition encode_value (f : value_format) (v : Z) : list Z :=
  match f with
  | Fuleb128 => uleb128 v
  | Fudata2 | Fsdata2 => le_bytes 2 v
  | Fudata4 | Fsdata4 => le_bytes 4 v
  | Fudata8 | Fsdata8 | Fsigned => le_bytes 8 v
  | Fsleb128 => sleb128 v
  end.

(** The address encodings handled by the table builder: an absolute
    pointer, or a pc-relative value in one of the formats above. *)
Inductive fde_encoding :=
| Absptr
| Pcrel (f : value_format).

Definition encoding_byte (e : fde_encoding) : Z :=
  match e with
  | Absptr => DW_EH_PE_absptr
  | Pcrel f => Z.lor DW_EH_PE_pcrel (format_code f)
  end.

Definition field_bytes (e : fde_encoding) (v : Z) : list Z :=
  match e with
  | Absptr => le_bytes 8 v
  | Pcrel f => encode_value f v
  end.

Definition field_range (e : fde_encoding) (v : Z) : Prop :=
  match e with
  | Absptr => 0 <= v < 2 ^ 64
  | Pcrel f => format_range f v
  end.

(** The start address denoted by the value [v] stored in a field that
    lies at address [field_addr]. *)
Definition resolved_start (e : fde_encoding) (field_addr v : Z) : Z :=
  match e with
  | Absptr => v
  | Pcrel _ => wrap64 (field_addr + v)
  end.

(** The description of a CIE: version, the augmentation characters in
    front of ['R'] with their data, the characters after ['R'], the
    alignment factors, the return address register, the FDE pointer
    encoding announced by ['R'], and the bytes after it. *)
Inductive aug_item :=
| AugZ (len : list Z)              (* ['z']: the augmentation length, a LEB128 *)
| AugL (lsda : Z)                  (* ['L']: the LSDA encoding byte *)
| AugP (enc : Z) (ptr : list Z)    (* ['P']: encoding byte and personality pointer *)
| AugS.                            (* ['S']: signal frame, no data *)

Definition aug_char (a : aug_item) : Z :=
  match a with
  | AugZ _ => 122
  | AugL _ => 76
  | AugP _ _ => 80
  | AugS => 83
  end.

Definition aug_data (a : aug_item) : list Z :=
  match a with
  | AugZ len => len
  | AugL lsda => [lsda]
  | AugP enc ptr => enc :: ptr
  | AugS => []
  end.

(** The personality pointer has the size its encoding byte announces. *)
Definition wf_personality (enc : Z) (ptr : list Z) : Prop :=
  let low := Z.land enc 0xf in
  if (low =? DW_EH_PE_uleb128) || (low =? DW_EH_PE_sleb128) then leb_shape ptr
  else if (low =? DW_EH_PE_udata2) || (low =? DW_EH_PE_sdata2) then length ptr = 2%nat
  else if (low =? DW_EH_PE_udata4) || (low =? DW_EH_PE_sdata4) then length ptr = 4%nat
  else if (low =? DW_EH_PE_udata8) || (low =? DW_EH_PE_sdata8) then length ptr = 8%nat
  else if low =? DW_EH_PE_signed then length ptr = 8%nat
  else (enc = DW_EH_PE_absptr \/ enc = DW_EH_PE_omit) /\ length ptr = 8%nat.

Definition wf_aug_item (a : aug_item) : Prop :=
  match a with
  | AugZ len => leb_shape len
  | AugL _ => True
  | AugP enc ptr => wf_personality enc ptr
  | AugS => True
  end.

Record cie_desc := {
  cie_version : Z;
  cie_augs : list aug_item;
  cie_aug_rest : list Z;       (* augmentation characters after ['R'] *)
  cie_code_align : Z;          (* one byte *)
  cie_data_align : list Z;     (* a LEB128 *)
  cie_ra : list Z;             (* one byte (version 1) or a LEB128 (version 3) *)
  cie_enc : Z;                 (* the FDE pointer encoding *)
  cie_insns : list Z           (* further augmentation data and instructions *)
}.

Definition cie_body (c : cie_desc) : list Z :=
  [cie_version c] ++
  (map aug_char (cie_augs c) ++ [82] ++ cie_aug_rest c ++ [0]) ++
  [cie_code_align c] ++ cie_data_align c ++ cie_ra c ++
  (concat (map aug_data (cie_augs c)) ++ [cie_enc c]) ++ cie_insns c.

Definition cie_bytes (c : cie_desc) : list Z :=
  le_bytes 4 (4 + Z.of_nat (length (cie_body c))) ++ le_bytes 4 0 ++ cie_body c.

Definition wf_cie (c : cie_desc) : Prop :=
  (cie_version c = 1 \/ cie_version c = 3) /\
  Forall wf_aug_item (cie_augs c) /\
  Forall (fun ch => ch <> 0) (cie_aug_rest c) /\
  leb_shape (cie_data_align c) /\
  (if cie_version c =? 1 then length (cie_ra c) = 1%nat else leb_shape (cie_ra c)) /\
  4 + Z.of_nat (length (cie_body c)) < 2 ^ 32.

(** The fuel that [strlen] and the loop over the augmentation string
    need for a CIE. *)
Definition cie_fuel (c : cie_desc) : nat :=
  S (S (length (cie_augs c) + length (cie_aug_rest c))).

(** A CIE with augmentation string ["zR"]: version, code alignment,
    one-byte data alignment and return address register, augmentation
    length 1, the FDE pointer encoding, and initial instructions. *)
Definition zR_cie (version code_align data_align ra enc : Z) (insns : list Z)
    : cie_desc :=
  {| cie_version := version; cie_augs := [AugZ [1]]; cie_aug_rest := [];
     cie_code_align := code_align; cie_data_align := [data_align];
     cie_ra := [ra]; cie_enc := enc; cie_insns := insns |}.

Definition cie_zR (version code_align data_align ra enc : Z) (insns : list Z)
    : list Z :=
  cie_bytes (zR_cie version code_align data_align ra enc insns).

(** An FDE: length, offset back to its CIE, the two address fields and
    the rest of the record. *)
Definition fde_bytes (cie_id : Z) (fields rest : list Z) : list Z :=
  le_bytes 4 (4 + Z.of_nat (length fields + length rest)) ++
  le_bytes 4 cie_id ++ fields ++ rest.

(** A small frame section: one ["zR"] CIE announcing pc-relative
    [sdata4] fields, followed by one FDE for the 64 bytes of code that
    start 100 bytes before the FDE's start-address field. *)
Definition sample_cie : list Z :=
  cie_zR 1 1 0x78 16 (encoding_byte (Pcrel Fsdata4)) [12; 7; 8].

Definition sample_fde : list Z :=
  fde_bytes 24 (field_bytes (Pcrel Fsdata4) (-100) ++ field_bytes (Pcrel Fsdata4) 64)
            [0; 0; 0; 0].

Definition sample_eh_frame : list Z := sample_cie ++ sample_fde.

(** ** Layout of a frame section, used to state the record walk *)

Record cfi_record := {
  rec_id : Z;            (* the 4-byte field after the length *)
  rec_body : list Z      (* the bytes after that field *)
}.

Definition rec_length (r : cfi_record) : Z := 4 + Z.of_nat (length (rec_body r)).

Definition encode_record (r : cfi_record) : list Z :=
  le_bytes 4 (rec_length r) ++ le_bytes 4 (rec_id r) ++ rec_body r.

Definition encode_records (rs : list cfi_record) : list Z :=
  concat (map encode_record rs).

Definition wf_record (r : cfi_record) : Prop :=
  0 <= rec_id r < 2 ^ 32 /\ rec_length r < 2 ^ 32.

(** How a well-formed section ends: at the end of its last record, or
    with a zero length word (followed by anything). *)
Definition section_end_ok (rs : list cfi_record) (tail : list Z) : Prop :=
  (tail = [] /\ rs <> []) \/ exists rest, tail = le_bytes 4 0 ++ rest.

(** Addresses of the FDE records (non-zero id) of a section laid out
    from address [a] on, in order. *)
Fixpoint fde_entries (a : Z) (rs : list cfi_record) : list Z :=
  match rs with
  | [] => []
  | r :: rs' =>
      (if rec_id r =? 0 then [] else [a]) ++ fde_entries (a + 4 + rec_length r) rs'
  end.

(** Calling a visitor on a list of entries, in order. *)
Fixpoint visit_all {S : Type} (f : Z -> S -> result S) (es : list Z) (s : S)
    : result S :=
  match es with
  | [] => Ok s
  | e :: es' => do s' <- f e s; visit_all f es' s'
  end.

End CFI.

(** * The registry of JIT-emitted code ([JITDebugInfoRegistry]) *)

Module Registry.

(** ** Object images, as the object-file library presents them *)

Inductive SymbolType :=
| ST_Unknown | ST_Other | ST_Data | ST_Debug | ST_File | ST_Function.

Definition is_function (t : SymbolType) : bool :=
  match t with ST_Function => true | _ => false end.

Record SectionRef := {
  sec_isText : bool;
  sec_address : Z;          (* [getAddress()], the address in the file *)
  sec_name : string;
  sec_size : Z;
  sec_index : Z
}.

Record SymbolRef := {
  sym_type : SymbolType;
  sym_address : Z;
  sym_section : option SectionRef;   (* [None]: [section_end()] *)
  sym_name : string
}.

(** An object file: its raw bytes and its symbols, each paired with the
    size that [computeSymbolSizes] infers for it. *)
Record ObjectFile := {
  obj_data : list Z;
  obj_symbols : list (SymbolRef * Z)
}.

(** ** What the registry stores *)

(** A debug-info context of the DWARF library: the inlining chain and the
    line information it reports for a section index and an address. *)
Record DILineInfo := {
  FileName : list ascii;
  FunctionName : list ascii;
  Line : Z
}.

(** [getNumberOfFrames] is read into an [int]: the type keeps to the
    contexts whose inlining chains have fewer than [2 ^ 31] frames. *)
Record DIContext := {
  getInliningInfoForAddress : Z -> Z -> list DILineInfo;
  getLineInfoForAddress : Z -> Z -> DILineInfo;
  frames_fit_int :
    forall sec a, Z.of_nat (length (getInliningInfoForAddress sec a)) < 2 ^ 31
}.

(** [LazyObjectInfo]: the bytes of an image, compressed when
    [uncompressedsize] is not zero, and the memoized parse results. *)
Record LazyObjectInfo := {
  data : list Z;
  uncompressedsize : Z;
  object : option ObjectFile;
  context : option DIContext
}.

(** [SectionInfo]; [si_object] is the pointer to the shared
    [LazyObjectInfo], an index into the store of images. *)
Record SectionInfo := {
  si_object : nat;
  SectionSize : Z;
  si_slide : Z;
  SectionIndex : Z
}.

(** [image_info_t] with the fields of [jl_image_fptrs_t] that this file
    reads. *)
Record image_info_t := {
  img_base : Z;
  img_ptrs : list Z;
  img_clone_ptrs : list Z;
  img_clone_idxs : list Z;
  img_fvars_cinst : list Z;
  img_fvars_n : Z
}.

Inductive Format := Zstd | Zlib.

(** The compression library and the platform-specific unwind
    registration, which are outside this file. *)
Record Platform := {
  zstd_isAvailable : bool;
  zlib_isAvailable : bool;
  compress : Format -> list Z -> list Z;
  decompress : Format -> list Z -> Z -> option (list Z);
  (* the ARM [.ARM.exidx] block and the Windows symbol scan that follow
     the early return of [registerJITObject] *)
  arch_register_object : ObjectFile -> (string -> Z) -> list Z;
  (* [create_PRUNTIME_FUNCTION], called for each function on Windows *)
  arch_register_function : Z -> Z -> string -> Z -> Z -> list Z
}.

(** The registry.  Modelled from the spec: the ordering of [cimap] and
    [objectmap] is fixed by their declarations in [debug-registry.h],
    which is not part of the sources at hand; following the design
    document, [lower_bound] on them finds the greatest key that is less
    than or equal to the address. *)
Record JITDebugInfoRegistry := {
  codeinst_in_flight : gmap string Z;
  cimap : gmap Z (Z * Z);                 (* start -> (size, code instance) *)
  objectmap : gmap Z SectionInfo;         (* load address -> section record *)
  images : gmap nat LazyObjectInfo;       (* the store of [LazyObjectInfo] *)
  next_image : nat;
  image_info : gmap Z image_info_t;
  jit_bytes : Z;                          (* total passed to [jl_jit_add_bytes] *)
  unwind_log : list Z                     (* platform registrations, in order *)
}.

Definition empty_registry : JITDebugInfoRegistry :=
  {| codeinst_in_flight := ∅; cimap := ∅; objectmap := ∅; images := ∅;
     next_image := O; image_info := ∅; jit_bytes := 0; unwind_log := [] |}.

(** [lower_bound] of a map ordered by decreasing keys. *)
Definition better_bound {V} (p : Z) (kv : Z * V) (acc : option (Z * V)) : option (Z * V) :=
  if kv.1 <=? p then
    match acc with
    | Some kv' => if kv'.1 <? kv.1 then Some kv else acc
    | None => Some kv
    end
  else acc.

Definition lower_bound {V} (m : gmap Z V) (p : Z) : option (Z * V) :=
  foldr (better_bound p) None (map_to_list m).

(** [add_code_in_flight]; [name] is the mangled name. *)
Definition add_code_in_flight (name : string) (codeinst : Z)
    (r : JITDebugInfoRegistry) : JITDebugInfoRegistry :=
  {| codeinst_in_flight := <[name := codeinst]> (codeinst_in_flight r);
     cimap := cimap r; objectmap := objectmap r; images := images r;
     next_image := next_image r; image_info := image_info r;
     jit_bytes := jit_bytes r; unwind_log := unwind_log r |}.

(** [lookupCodeInstance]. *)
Definition lookupCodeInstance (r : JITDebugInfoRegistry) (pointer : Z) : Z :=
  match lower_bound (cimap r) pointer with
  | Some (first, (size, ci)) =>
      if pointer <? wrap64 (first + size) then ci else NULL
  | None => NULL
  end.

(** [add_image_info] and [get_image_info]. *)
Definition add_image_info (info : image_info_t) (r : JITDebugInfoRegistry)
    : JITDebugInfoRegistry :=
  {| codeinst_in_flight := codeinst_in_flight r;
     cimap := cimap r; objectmap := objectmap r; images := images r;
     next_image := next_image r;
     image_info := <[img_base info := info]> (image_info r);
     jit_bytes := jit_bytes r; unwind_log := unwind_log r |}.

Definition get_image_info (r : JITDebugInfoRegistry) (base : Z) : option image_info_t :=
  image_info r !! base.

(** The symbols the main loop of [registerJITObject] does not skip. *)
Definition text_function (s : SymbolRef) : option SectionRef :=
  if is_function (sym_type s) then
    match sym_section s with
    | Some sec => if sec_isText sec then Some sec else None
    | None => None
    end
  else None.

(** The final address of a symbol:
    [Addr += SectionLoadAddr - SectionAddr] in [uint64_t]. *)
Definition final_address (getLoadAddress : string -> Z) (s : SymbolRef)
    (sec : SectionRef) : Z :=
  wrap64 (sym_address s + (getLoadAddress (sec_name sec) - sec_address sec)).

(** The part of the state the loop over the symbols updates. *)
Record loop_state := {
  ls_in_flight : gmap string Z;
  ls_cimap : gmap Z (Z * Z);
  ls_objectmap : gmap Z SectionInfo;
  ls_hassection : bool;
  ls_log : list Z
}.

(** [std::map::insert]: an existing key keeps its value. *)
Definition map_insert_new {V} (k : Z) (v : V) (m : gmap Z V) : gmap Z V :=
  match m !! k with
  | Some _ => m
  | None => <[k := v]> m
  end.

(** One turn of the loop over [computeSymbolSizes(Object)]. *)
Definition register_symbol (P : Platform) (getLoadAddress : string -> Z)
    (ObjectCopy : nat) (st : loop_state) (sym_size : SymbolRef * Z) : loop_state :=
  let sym_iter := sym_size.1 in
  match text_function sym_iter with
  | None => st
  | Some Section =>
      let SectionAddr := sec_address Section in
      let SectionLoadAddr := getLoadAddress (sec_name Section) in
      let Addr := final_address getLoadAddress sym_iter Section in
      let sName := sym_name sym_iter in
      let SectionSize := sec_size Section in
      let Size := sym_size.2 in
      let log := arch_register_function P Addr Size sName SectionLoadAddr SectionSize in
      let codeinst := default NULL (ls_in_flight st !! sName) in
      let in_flight := delete sName (ls_in_flight st) in
      {| ls_in_flight := in_flight;
         ls_cimap := if negb (codeinst =? NULL)
                     then <[Addr := (Size, codeinst)]> (ls_cimap st)
                     else ls_cimap st;
         ls_objectmap :=
           map_insert_new SectionLoadAddr
             {| si_object := ObjectCopy;
                SectionSize := SectionSize;
                si_slide := to_signed 64 (SectionAddr - SectionLoadAddr);
                SectionIndex := sec_index Section |}
             (ls_objectmap st);
         ls_hassection := true;
         ls_log := ls_log st ++ log |}
  end.

(** [registerJITObject]. *)
Definition registerJITObject (P : Platform) (Object : ObjectFile)
    (getLoadAddress : string -> Z) (r : JITDebugInfoRegistry)
    : JITDebugInfoRegistry :=
  let anyfunctions :=
    existsb (fun s => is_function (sym_type s)) (map fst (obj_symbols Object)) in
  if negb anyfunctions then r
  else
    let log0 := arch_register_object P Object getLoadAddress in
    let unpacked := obj_data Object in
    let F := if zstd_isAvailable P then Some Zstd
             else if zlib_isAvailable P then Some Zlib else None in
    let ObjectCopy :=
      match F with
      | Some f => {| data := compress P f unpacked;
                     uncompressedsize := Z.of_nat (length unpacked);
                     object := None; context := None |}
      | None => {| data := unpacked; uncompressedsize := 0;
                   object := None; context := None |}
      end in
    let ptr := next_image r in
    let st := foldl (register_symbol P getLoadAddress ptr)
                {| ls_in_flight := codeinst_in_flight r;
                   ls_cimap := cimap r;
                   ls_objectmap := objectmap r;
                   ls_hassection := false;
                   ls_log := unwind_log r ++ log0 |}
                (obj_symbols Object) in
    {| codeinst_in_flight := ls_in_flight st;
       cimap := ls_cimap st;
       objectmap := ls_objectmap st;
       images := if ls_hassection st
                 then <[ptr := ObjectCopy]> (images r)
                 else images r;             (* [delete ObjectCopy] *)
       next_image := S ptr;
       image_info := image_info r;
       jit_bytes := jit_bytes r + Z.of_nat (length (data ObjectCopy));
       unwind_log := ls_log st |}.

(** [jl_gdblookupci]. *)
Definition jl_gdblookupci (r : JITDebugInfoRegistry) (p : Z) : Z :=
  lookupCodeInstance r p.

(** [jl_getUnwindInfo_impl]: the load address of the registered section
    that contains [dwAddr], or zero. *)
Definition jl_getUnwindInfo_impl (r : JITDebugInfoRegistry) (dwAddr : Z) : Z :=
  match lower_bound (objectmap r) dwAddr with
  | Some (first, si) =>
      if dwAddr <? wrap64 (first + SectionSize si) then first else 0
  | None => 0
  end.

(** [jl_register_fptrs_impl]: the image record built from the base
    address, the function pointers of the image, and the code instances
    of its first [n] functions. *)
Definition jl_register_fptrs_impl (image_base : Z)
    (ptrs clone_ptrs clone_idxs : list Z) (cinfos : list Z) (n : Z)
    (r : JITDebugInfoRegistry) : JITDebugInfoRegistry :=
  add_image_info {| img_base := wrap64 image_base;
                    img_ptrs := ptrs;
                    img_clone_ptrs := clone_ptrs;
                    img_clone_idxs := clone_idxs;
                    img_fvars_cinst := cinfos;
                    img_fvars_n := n |} r.

(** The section record that [registerJITObject] builds for a section. *)
Definition section_record (getLoadAddress : string -> Z) (ObjectCopy : nat)
    (Section : SectionRef) : SectionInfo :=
  {| si_object := ObjectCopy;
     SectionSize := sec_size Section;
     si_slide := to_signed 64 (sec_address Section - getLoadAddress (sec_name Section));
     SectionIndex := sec_index Section |}.

(** An address lies in the range of a [cimap] entry; the end of the range
    is computed in [size_t], as the lookup does. *)
Definition in_range (first size p : Z) : Prop := first <= p < wrap64 (first + size).

(** ** Sample inputs *)

(** A platform without compression codec and without platform-specific
    unwind registration. *)
Definition plain_platform : Platform :=
  {| zstd_isAvailable := false; zlib_isAvailable := false;
     compress := fun _ d => d; decompress := fun _ _ _ => None;
     arch_register_object := fun _ _ => [];
     arch_register_function := fun _ _ _ _ _ => [] |}.

Definition text_section : SectionRef :=
  {| sec_isText := true; sec_address := 0; sec_name := ".text";
     sec_size := 0x40; sec_index := 1 |}.

Definition data_section : SectionRef :=
  {| sec_isText := false; sec_address := 0; sec_name := ".data";
     sec_size := 0x40; sec_index := 2 |}.

Definition sym_X : SymbolRef :=
  {| sym_type := ST_Function; sym_address := 0;
     sym_section := Some text_section; sym_name := "X" |}.

Definition sym_Y : SymbolRef :=
  {| sym_type := ST_Function; sym_address := 0x10;
     sym_section := Some text_section; sym_name := "Y" |}.

Definition sym_table : SymbolRef :=
  {| sym_type := ST_Data; sym_address := 0;
     sym_section := Some data_section; sym_name := "table" |}.

(** Two adjacent functions of 16 bytes each. *)
Definition two_functions : ObjectFile :=
  {| obj_data := [127; 69; 76; 70];
     obj_symbols := [(sym_X, 0x10); (sym_Y, 0x10)] |}.



(** An image with data only. *)
Definition data_only : ObjectFile :=
  {| obj_data := [127; 69; 76; 70];
     obj_symbols := [(sym_table, 0x40)] |}.

(** Every section is loaded at [0x1000]. *)
Definition load_at_0x1000 : string -> Z := fun _ => 0x1000.

End Registry.

(** * The symbolication engine *)

Module Symbolication.
Import Registry.

(** [jl_frame_t]. *)
Record jl_frame_t := {
  func_name : option (list ascii);
  file_name : option (list ascii);
  line : Z;
  ci : Z;
  fromC : bool;
  inlined : bool
}.

(** A frame as [calloc] returns it. *)
Definition zero_frame : jl_frame_t :=
  {| func_name := None; file_name := None; line := 0; ci := NULL;
     fromC := false; inlined := false |}.

Definition set_func_name (n : option (list ascii)) (f : jl_frame_t) : jl_frame_t :=
  {| func_name := n; file_name := file_name f; line := line f; ci := ci f;
     fromC := fromC f; inlined := inlined f |}.
Definition set_file_name (n : option (list ascii)) (f : jl_frame_t) : jl_frame_t :=
  {| func_name := func_name f; file_name := n; line := line f; ci := ci f;
     fromC := fromC f; inlined := inlined f |}.
Definition set_line (l : Z) (f : jl_frame_t) : jl_frame_t :=
  {| func_name := func_name f; file_name := file_name f; line := l; ci := ci f;
     fromC := fromC f; inlined := inlined f |}.
Definition set_ci (c : Z) (f : jl_frame_t) : jl_frame_t :=
  {| func_name := func_name f; file_name := file_name f; line := line f; ci := c;
     fromC := fromC f; inlined := inlined f |}.
Definition set_fromC (b : bool) (f : jl_frame_t) : jl_frame_t :=
  {| func_name := func_name f; file_name := file_name f; line := line f; ci := ci f;
     fromC := b; inlined := inlined f |}.
Definition set_inlined (b : bool) (f : jl_frame_t) : jl_frame_t :=
  {| func_name := func_name f; file_name := file_name f; line := line f; ci := ci f;
     fromC := fromC f; inlined := b |}.

(** What [jl_dylib_DI_for_fptr] reports for an address of a shared
    library: section, slide and context of the library's object file, and
    the names the dynamic loader knows. *)
Record dylib_info := {
  dl_Section : option Z;
  dl_slide : Z;
  dl_context : option DIContext;
  dl_isImage : bool;
  dl_fbase : Z;
  dl_saddr : Z;
  dl_func_name : option (list ascii);
  dl_file_name : option (list ascii)
}.

(** The collaborators of the engine.  The two lock fields tell whether
    [jl_lock_profile_wr] succeeds in [jl_DI_for_fptr] and at the head of
    [lookup_pointer].  [jl_dylib_DI_for_fptr] queries the dynamic loader,
    the object-file cache and the platform symbol tables; the engine only
    depends on what it reports, so its outcome is a field as well. *)
Record Env := {
  platform : Platform;
  createObjectFile : list Z -> option ObjectFile;
  DWARFContext_create : ObjectFile -> DIContext;
  lock_registry : bool;
  lock_context : bool;
  jl_dylib_DI_for_fptr : Z -> bool -> option dylib_info;
  jl_sysimg_val_mask : Z
}.

Definition invalid : list ascii := list_ascii_of_string "<invalid>".

Definition name_eqb (a b : list ascii) : bool := bool_decide (a = b).

(** [func_name.find(';')]. *)
Fixpoint find_semicolon (s : list ascii) : option nat :=
  match s with
  | [] => None
  | c :: s' =>
      if Ascii.eqb c ";"%char then Some O
      else option_map S (find_semicolon s')
  end.

(** [int n = (uint32_t) size]. *)
Definition int_of_uint32 (z : Z) : Z := to_signed 32 (wrap32 z).

(** The branch of [lookup_pointer] taken without context or section, and
    re-entered when the lock is busy or the context has no frame. *)
Definition lookup_pointer_nocontext (frame0 : jl_frame_t) (demangle : bool)
    : Z * list jl_frame_t :=
  if demangle then
    match func_name frame0 with
    | Some oldname =>
        let demangled := Demangle.jl_demangle oldname in
        (1, [set_fromC (negb demangled.2) (set_func_name (Some demangled.1) frame0)])
    | None => (1, [set_fromC true frame0])
    end
  else (1, [frame0]).

(** A default-constructed [DILineInfo]. *)
Definition no_line_info : DILineInfo :=
  {| FileName := invalid; FunctionName := invalid; Line := 0 |}.

(** The body of the loop over the frames: [frame] is [( *frames)[i]]. *)
Definition fill_frame (noInline : bool) (context : DIContext) (Section : Z)
    (addr : Z) (inlineInfo : list DILineInfo) (fromC0 : bool) (n_frames : Z)
    (i : nat) (frame : jl_frame_t) : jl_frame_t :=
  let inlined_frame := negb (Z.of_nat i =? n_frames - 1) in
  let info :=
    if negb noInline
    then nth i inlineInfo no_line_info
    else getLineInfoForAddress context Section addr in
  let name := FunctionName info in
  let frame := if inlined_frame
               then set_fromC fromC0 (set_inlined true frame) else frame in
  let '(name, frame) :=
    if inlined_frame && negb fromC0 then
      match find_semicolon name with
      | Some semi_pos => (firstn semi_pos name, set_ci NULL frame)
      | None => (name, frame)
      end
    else (name, frame) in
  let frame := if name_eqb name invalid
               then set_func_name None frame
               else set_func_name (Some name) frame in
  let frame := match func_name frame with
               | None => set_fromC true frame
               | Some _ => frame
               end in
  let frame := set_line (to_signed 32 (Line info)) frame in
  if name_eqb (FileName info) invalid
  then set_file_name None frame
  else set_file_name (Some (FileName info)) frame.

(** [lookup_pointer]; [frame0] is the one-element array [*frames] the
    function is entered with.  The result is the returned count and the
    array [*frames] on return. *)
Definition lookup_pointer (E : Env) (Section : option Z) (context : option DIContext)
    (frame0 : jl_frame_t) (pointer slide : Z) (demangle noInline : bool)
    : Z * list jl_frame_t :=
  match context, Section with
  | Some ctx, Some sec =>
      if negb (lock_context E) then lookup_pointer_nocontext frame0 demangle
      else
        let addr := wrap64 (pointer + slide) in
        let inlineInfo := getInliningInfoForAddress ctx sec addr in
        let fromC0 := fromC frame0 in
        let n_frames := int_of_uint32 (Z.of_nat (length inlineInfo)) in
        if n_frames =? 0 then lookup_pointer_nocontext frame0 demangle
        else
          let n_frames := if noInline then 1 else n_frames in
          let frames :=
            if 1 <? n_frames
            then replicate (Z.to_nat (n_frames - 1)) zero_frame ++ [frame0]
            else [frame0] in
          (n_frames,
           imap (fun i f =>
                   if Z.of_nat i <? n_frames
                   then fill_frame noInline ctx sec addr inlineInfo fromC0 n_frames i f
                   else f)
                frames)
  | _, _ => lookup_pointer_nocontext frame0 demangle
  end.

Definition set_image (ptr : nat) (l : LazyObjectInfo) (bytes : Z)
    (r : JITDebugInfoRegistry) : JITDebugInfoRegistry :=
  {| codeinst_in_flight := codeinst_in_flight r; cimap := cimap r;
     objectmap := objectmap r; images := <[ptr := l]> (images r);
     next_image := next_image r; image_info := image_info r;
     jit_bytes := jit_bytes r + bytes; unwind_log := unwind_log r |}.

Definition is_nil {A} (l : list A) : bool :=
  match l with [] => true | _ => false end.

(** The lazy decompression of [jl_DI_for_fptr]: the image after the
    [if (lazyobject->uncompressedsize)] block, and the argument of
    [jl_jit_add_bytes]. *)
Definition decompress_image (E : Env) (l : LazyObjectInfo) : LazyObjectInfo * Z :=
  if negb (uncompressedsize l =? 0) then
    let F := if zstd_isAvailable (platform E) then Zstd else Zlib in
    let data' :=
      match decompress (platform E) F (data l) (uncompressedsize l) with
      | None => []                       (* [E]: [data.clear()] *)
      | Some unpacked => unpacked
      end in
    ({| data := data'; uncompressedsize := 0;
        object := object l; context := context l |},
     Z.of_nat (length data') - uncompressedsize l)
  else (l, 0).

(** The parse that follows: [createObjectFile] on the plain bytes. *)
Definition parse_image (E : Env) (l : LazyObjectInfo) : LazyObjectInfo :=
  if negb (is_nil (data l)) then
    match createObjectFile E (data l) with
    | Some obj => {| data := data l; uncompressedsize := uncompressedsize l;
                     object := Some obj; context := context l |}
    | None => {| data := []; uncompressedsize := uncompressedsize l;
                 object := object l; context := context l |}
    end
  else l.

(** The outputs of [jl_DI_for_fptr]; [di_Section] and [di_context] keep
    the caller's initial values (no section, no context) unless an object
    is available. *)
Record DI_result := {
  di_found : bool;
  di_slide : Z;
  di_Section : option Z;
  di_context : option DIContext
}.

(** [jl_DI_for_fptr], called with a non-null [context] pointer when
    [want_context] holds. *)
Definition jl_DI_for_fptr (E : Env) (r : JITDebugInfoRegistry) (fptr : Z)
    (want_context : bool) : DI_result * JITDebugInfoRegistry :=
  let not_found := {| di_found := false; di_slide := 0;
                      di_Section := None; di_context := None |} in
  if negb (lock_registry E) then (not_found, r)
  else
    match lower_bound (objectmap r) fptr with
    | Some (first, si) =>
        if fptr <? wrap64 (first + SectionSize si) then
          match images r !! si_object si with
          | Some lazyobject =>
              let '(l1, bytes) :=
                if is_nil (data lazyobject) || bool_decide (is_Some (object lazyobject))
                then (lazyobject, 0)
                else
                  let '(l, bytes) := decompress_image E lazyobject in
                  (parse_image E l, bytes) in
              match object l1 with
              | Some obj =>
                  let ctx := if want_context
                             then Some (default (DWARFContext_create E obj) (context l1))
                             else None in
                  let l2 := {| data := data l1; uncompressedsize := uncompressedsize l1;
                               object := object l1;
                               context := if want_context then ctx else context l1 |} in
                  ({| di_found := true; di_slide := si_slide si;
                      di_Section := Some (SectionIndex si); di_context := ctx |},
                   set_image (si_object si) l2 bytes r)
              | None =>
                  ({| di_found := true; di_slide := si_slide si;
                      di_Section := None; di_context := None |},
                   set_image (si_object si) l1 bytes r)
              end
          | None =>
              (* a section record whose image was freed: never built by
                 [registerJITObject] *)
              ({| di_found := true; di_slide := si_slide si;
                  di_Section := None; di_context := None |}, r)
          end
        else (not_found, r)
    | None => (not_found, r)
    end.

(** Position of the first element equal to [x]. *)
Fixpoint index_of (x : Z) (l : list Z) : option nat :=
  match l with
  | [] => None
  | y :: l' => if x =? y then Some O else option_map S (index_of x l')
  end.

(** The two loops of [jl_getDylibFunctionInfo] over the function
    pointers of a system image. *)
Definition image_code_instance (E : Env) (image : image_info_t) (saddr : Z)
    (frame0 : jl_frame_t) : jl_frame_t :=
  let frame0 :=
    match index_of saddr (img_clone_ptrs image) with
    | Some i =>
        let idx := Z.land (nth i (img_clone_idxs image) 0) (jl_sysimg_val_mask E) in
        if idx <? img_fvars_n image
        then set_ci (nth (Z.to_nat idx) (img_fvars_cinst image) NULL) frame0
        else frame0
    | None => frame0
    end in
  match index_of saddr (firstn (Z.to_nat (img_fvars_n image)) (img_ptrs image)) with
  | Some i => set_ci (nth i (img_fvars_cinst image) NULL) frame0
  | None => frame0
  end.

(** [jl_getDylibFunctionInfo] (the part shared by all platforms). *)
Definition jl_getDylibFunctionInfo (E : Env) (r : JITDebugInfoRegistry)
    (frame0 : jl_frame_t) (pointer : Z) (skipC noInline : bool)
    : Z * list jl_frame_t :=
  match jl_dylib_DI_for_fptr E pointer skipC with
  | None => (1, [set_fromC true frame0])
  | Some d =>
      let frame0 := set_file_name (dl_file_name d)
                      (set_func_name (dl_func_name d) frame0) in
      let frame0 := set_fromC (negb (dl_isImage d)) frame0 in
      let frame0 :=
        match get_image_info r (dl_fbase d) with
        | Some image =>
            if dl_isImage d && negb (dl_saddr d =? NULL)
            then image_code_instance E image (dl_saddr d) frame0
            else frame0
        | None => frame0
        end in
      lookup_pointer E (dl_Section d) (dl_context d) frame0 pointer (dl_slide d)
                     (dl_isImage d) noInline
  end.

(** [jl_getFunctionInfo_impl]: the count, the array [*frames_out] and the
    registry after the call. *)
Definition jl_getFunctionInfo_impl (E : Env) (r : JITDebugInfoRegistry)
    (pointer : Z) (skipC noInline : bool)
    : Z * list jl_frame_t * JITDebugInfoRegistry :=
  let frame0 := set_line (-1) zero_frame in
  let '(di, r') := jl_DI_for_fptr E r pointer true in
  if di_found di then
    let frame0 := set_ci (lookupCodeInstance r' pointer) frame0 in
    (lookup_pointer E (di_Section di) (di_context di) frame0 pointer (di_slide di)
                    true noInline, r')
  else (jl_getDylibFunctionInfo E r' frame0 pointer skipC noInline, r').

(** The operations on the registry, and what a sequence of them leaves. *)
Inductive operation :=
| OpLookup (E : Env) (fptr : Z) (want_context : bool)
| OpResolve (E : Env) (pointer : Z) (skipC noInline : bool)
| OpRegister (P : Platform) (Object : ObjectFile) (getLoadAddress : string -> Z)
| OpPending (name : string) (codeinst : Z)
| OpImage (info : image_info_t).

Definition step (r : JITDebugInfoRegistry) (o : operation) : JITDebugInfoRegistry :=
  match o with
  | OpLookup E fptr w => (jl_DI_for_fptr E r fptr w).2
  | OpResolve E pointer skipC noInline =>
      (jl_getFunctionInfo_impl E r pointer skipC noInline).2
  | OpRegister P Object getLoadAddress => registerJITObject P Object getLoadAddress r
  | OpPending name codeinst => add_code_in_flight name codeinst r
  | OpImage info => add_image_info info r
  end.

Definition run (ops : list operation) (r : JITDebugInfoRegistry)
    : JITDebugInfoRegistry :=
  foldl step r ops.

(** The invariant of the registry: every section record points to a
    stored image, the stored images lie below the allocation mark, and
    no code-instance range holds a null handle. *)
Definition registry_ok (r : JITDebugInfoRegistry) : Prop :=
  (forall a si, objectmap r !! a = Some si -> is_Some (images r !! si_object si)) /\
  (forall i, is_Some (images r !! i) -> (i < next_image r)%nat) /\
  (forall k sz ci, cimap r !! k = Some (sz, ci) -> ci <> NULL).

(** The name [lookup_pointer] stores for a frame whose debug information
    gives [name]. *)
Definition shown_name (truncate : bool) (name : list ascii) : option (list ascii) :=
  let name := if truncate
              then match find_semicolon name with
                   | Some semi_pos => firstn semi_pos name
                   | None => name
                   end
              else name in
  if name_eqb name invalid then None else Some name.

Definition shown_file (name : list ascii) : option (list ascii) :=
  if name_eqb name invalid then None else Some name.

(** An image whose bytes were discarded and which has no parsed object. *)
Definition unusable (l : LazyObjectInfo) : Prop :=
  data l = [] /\ object l = None.

(** An image that no later lookup changes: unusable, or parsed with its
    context memoized. *)
Definition settled (l : LazyObjectInfo) : Prop :=
  unusable l \/ (is_Some (object l) /\ is_Some (context l)).

(** [hits r fptr si]: the section record [si] is the one the lookup of
    [fptr] in the section map selects. *)
Definition hits (r : JITDebugInfoRegistry) (fptr : Z) (si : SectionInfo) : Prop :=
  exists first,
    lower_bound (objectmap r) fptr = Some (first, si) /\
    fptr < wrap64 (first + SectionSize si).

(** ** Sample inputs *)

Definition line_info (file func : string) (l : Z) : DILineInfo :=
  {| FileName := list_ascii_of_string file;
     FunctionName := list_ascii_of_string func;
     Line := l |}.

(** A context that reports a chain of three frames at every address. *)
Definition three_frames : DIContext :=
  {| getInliningInfoForAddress := fun _ _ =>
       [line_info "/src/a.jl" "inner;3" 10;
        line_info "/src/a.jl" "middle" 20;
        line_info "/src/b.jl" "outer" 30];
     getLineInfoForAddress := fun _ _ => line_info "/src/a.jl" "inner;3" 10;
     frames_fit_int := fun _ _ => eq_refl |}.

(** A context without line information. *)
Definition no_frames : DIContext :=
  {| getInliningInfoForAddress := fun _ _ => [];
     getLineInfoForAddress := fun _ _ => line_info "<invalid>" "<invalid>" 0;
     frames_fit_int := fun _ _ => eq_refl |}.

(** A platform whose codec compresses by prefixing a byte and fails to
    decompress. *)
Definition broken_codec : Platform :=
  {| zstd_isAvailable := true; zlib_isAvailable := false;
     compress := fun _ d => 40 :: d; decompress := fun _ _ _ => None;
     arch_register_object := fun _ _ => [];
     arch_register_function := fun _ _ _ _ _ => [] |}.

(** A platform whose codec prefixes a byte and removes it again. *)
Definition prefix_codec : Platform :=
  {| zstd_isAvailable := true; zlib_isAvailable := false;
     compress := fun _ d => 40 :: d;
     decompress := fun _ d _ => match d with [] => None | _ :: d' => Some d' end;
     arch_register_object := fun _ _ => [];
     arch_register_function := fun _ _ _ _ _ => [] |}.

Definition sample_env (P : Platform) : Env :=
  {| platform := P;
     createObjectFile := fun d => Some {| obj_data := d; obj_symbols := [] |};
     DWARFContext_create := fun _ => three_frames;
     lock_registry := true; lock_context := true;
     jl_dylib_DI_for_fptr := fun _ _ => None;
     jl_sysimg_val_mask := 0x7fffffff |}.

(** An environment in which the dynamic loader attributes every address
    to a system image based at [0x7000], to the function that starts at
    [0x7100], without debug information. *)
Definition sysimage_env : Env :=
  {| platform := plain_platform;
     createObjectFile := fun _ => None;
     DWARFContext_create := fun _ => no_frames;
     lock_registry := true; lock_context := true;
     jl_dylib_DI_for_fptr := fun _ _ =>
       Some {| dl_Section := None; dl_slide := 0; dl_context := None;
               dl_isImage := true; dl_fbase := 0x7000; dl_saddr := 0x7100;
               dl_func_name := Some (list_ascii_of_string "julia_f_1");
               dl_file_name := Some (list_ascii_of_string "sys.so") |};
     jl_sysimg_val_mask := 0x7fffffff |}.

End Symbolication.

(** * Split debug information: the debug-link checksum and the search *)

Module DebugLink.
Import Registry.

(** The table [g_crc32_tab] of [calc_gnu_debuglink_crc32]. *)
Definition g_crc32_tab : list Z :=
  [
    0x00000000; 0x77073096; 0xee0e612c; 0x990951ba; 0x076dc419; 0x706af48f;
    0xe963a535; 0x9e6495a3; 0x0edb8832; 0x79dcb8a4; 0xe0d5e91e; 0x97d2d988;
    0x09b64c2b; 0x7eb17cbd; 0xe7b82d07; 0x90bf1d91; 0x1db71064; 0x6ab020f2;
    0xf3b97148; 0x84be41de; 0x1adad47d; 0x6ddde4eb; 0xf4d4b551; 0x83d385c7;
    0x136c9856; 0x646ba8c0; 0xfd62f97a; 0x8a65c9ec; 0x14015c4f; 0x63066cd9;
    0xfa0f3d63; 0x8d080df5; 0x3b6e20c8; 0x4c69105e; 0xd56041e4; 0xa2677172;
    0x3c03e4d1; 0x4b04d447; 0xd20d85fd; 0xa50ab56b; 0x35b5a8fa; 0x42b2986c;
    0xdbbbc9d6; 0xacbcf940; 0x32d86ce3; 0x45df5c75; 0xdcd60dcf; 0xabd13d59;
    0x26d930ac; 0x51de003a; 0xc8d75180; 0xbfd06116; 0x21b4f4b5; 0x56b3c423;
    0xcfba9599; 0xb8bda50f; 0x2802b89e; 0x5f058808; 0xc60cd9b2; 0xb10be924;
    0x2f6f7c87; 0x58684c11; 0xc1611dab; 0xb6662d3d; 0x76dc4190; 0x01db7106;
    0x98d220bc; 0xefd5102a; 0x71b18589; 0x06b6b51f; 0x9fbfe4a5; 0xe8b8d433;
    0x7807c9a2; 0x0f00f934; 0x9609a88e; 0xe10e9818; 0x7f6a0dbb; 0x086d3d2d;
    0x91646c97; 0xe6635c01; 0x6b6b51f4; 0x1c6c6162; 0x856530d8; 0xf262004e;
    0x6c0695ed; 0x1b01a57b; 0x8208f4c1; 0xf50fc457; 0x65b0d9c6; 0x12b7e950;
    0x8bbeb8ea; 0xfcb9887c; 0x62dd1ddf; 0x15da2d49; 0x8cd37cf3; 0xfbd44c65;
    0x4db26158; 0x3ab551ce; 0xa3bc0074; 0xd4bb30e2; 0x4adfa541; 0x3dd895d7;
    0xa4d1c46d; 0xd3d6f4fb; 0x4369e96a; 0x346ed9fc; 0xad678846; 0xda60b8d0;
    0x44042d73; 0x33031de5; 0xaa0a4c5f; 0xdd0d7cc9; 0x5005713c; 0x270241aa;
    0xbe0b1010; 0xc90c2086; 0x5768b525; 0x206f85b3; 0xb966d409; 0xce61e49f;
    0x5edef90e; 0x29d9c998; 0xb0d09822; 0xc7d7a8b4; 0x59b33d17; 0x2eb40d81;
    0xb7bd5c3b; 0xc0ba6cad; 0xedb88320; 0x9abfb3b6; 0x03b6e20c; 0x74b1d29a;
    0xead54739; 0x9dd277af; 0x04db2615; 0x73dc1683; 0xe3630b12; 0x94643b84;
    0x0d6d6a3e; 0x7a6a5aa8; 0xe40ecf0b; 0x9309ff9d; 0x0a00ae27; 0x7d079eb1;
    0xf00f9344; 0x8708a3d2; 0x1e01f268; 0x6906c2fe; 0xf762575d; 0x806567cb;
    0x196c3671; 0x6e6b06e7; 0xfed41b76; 0x89d32be0; 0x10da7a5a; 0x67dd4acc;
    0xf9b9df6f; 0x8ebeeff9; 0x17b7be43; 0x60b08ed5; 0xd6d6a3e8; 0xa1d1937e;
    0x38d8c2c4; 0x4fdff252; 0xd1bb67f1; 0xa6bc5767; 0x3fb506dd; 0x48b2364b;
    0xd80d2bda; 0xaf0a1b4c; 0x36034af6; 0x41047a60; 0xdf60efc3; 0xa867df55;
    0x316e8eef; 0x4669be79; 0xcb61b38c; 0xbc66831a; 0x256fd2a0; 0x5268e236;
    0xcc0c7795; 0xbb0b4703; 0x220216b9; 0x5505262f; 0xc5ba3bbe; 0xb2bd0b28;
    0x2bb45a92; 0x5cb36a04; 0xc2d7ffa7; 0xb5d0cf31; 0x2cd99e8b; 0x5bdeae1d;
    0x9b64c2b0; 0xec63f226; 0x756aa39c; 0x026d930a; 0x9c0906a9; 0xeb0e363f;
    0x72076785; 0x05005713; 0x95bf4a82; 0xe2b87a14; 0x7bb12bae; 0x0cb61b38;
    0x92d28e9b; 0xe5d5be0d; 0x7cdcefb7; 0x0bdbdf21; 0x86d3d2d4; 0xf1d4e242;
    0x68ddb3f8; 0x1fda836e; 0x81be16cd; 0xf6b9265b; 0x6fb077e1; 0x18b74777;
    0x88085ae6; 0xff0f6a70; 0x66063bca; 0x11010b5c; 0x8f659eff; 0xf862ae69;
    0x616bffd3; 0x166ccf45; 0xa00ae278; 0xd70dd2ee; 0x4e048354; 0x3903b3c2;
    0xa7672661; 0xd06016f7; 0x4969474d; 0x3e6e77db; 0xaed16a4a; 0xd9d65adc;
    0x40df0b66; 0x37d83bf0; 0xa9bcae53; 0xdebb9ec5; 0x47b2cf7f; 0x30b5ffe9;
    0xbdbdf21c; 0xcabac28a; 0x53b39330; 0x24b4a3a6; 0xbad03605; 0xcdd70693;
    0x54de5729; 0x23d967bf; 0xb3667a2e; 0xc4614ab8; 0x5d681b02; 0x2a6f2b94;
    0xb40bbe37; 0xc30c8ea1; 0x5a05df1b; 0x2d02ef8d
  ].

(** [calc_gnu_debuglink_crc32(buf, size)], on the bytes of the buffer. *)
Definition crc32_step (crc : Z) (p : Z) : Z :=
  Z.lxor (nth (Z.to_nat (Z.land (Z.lxor crc p) 0xFF)) g_crc32_tab 0)
         (Z.shiftr crc 8).

Definition calc_gnu_debuglink_crc32 (buf : list Z) : Z :=
  Z.lxor (foldl crc32_step 0xFFFFFFFF buf) 0xFFFFFFFF.

(** The entry of index [n] of the table of the reflected CRC-32
    polynomial [0xEDB88320] (the table attributed to Gary S. Brown):
    eight times, shift right and subtract the polynomial when a one
    falls out. *)
Definition crc32_bit (c : Z) : Z :=
  if Z.odd c then Z.lxor (Z.shiftr c 1) 0xEDB88320 else Z.shiftr c 1.

Definition crc32_table_entry (n : nat) : Z :=
  Nat.iter 8 crc32_bit (Z.of_nat n).

(** The bit-serial CRC-32 of a buffer: the register starts with all
    ones, each byte is added to its low end and followed by eight
    shift-and-subtract steps, and the result is complemented. *)
Definition crc32_byte (crc b : Z) : Z := Nat.iter 8 crc32_bit (Z.lxor crc b).

Definition crc32_bitwise (buf : list Z) : Z :=
  Z.lxor (foldl crc32_byte 0xFFFFFFFF buf) 0xFFFFFFFF.

(** [debug_link_info]. *)
Record debug_link_info := {
  dl_filename : string;
  dl_crc32 : Z
}.

(** The file system and the object parser, both outside this file. *)
Record Files := {
  getFile : string -> option (list Z);
  createObjectFile : list Z -> option ObjectFile
}.

(** Why [openDebugInfo] fails. *)
Inductive open_error :=
| FileError         (* [MemoryBuffer::getFile] failed *)
| ChecksumMismatch  (* [object_error::arch_not_found] *)
| NotAnObject.      (* [createObjectFile] failed *)

(** [openDebugInfo(debuginfopath, info)]. *)
Definition openDebugInfo (F : Files) (debuginfopath : string)
    (info : debug_link_info) : ObjectFile + open_error :=
  match getFile F debuginfopath with
  | None => inr FileError
  | Some SplitFile =>
      let crc32 := calc_gnu_debuglink_crc32 SplitFile in
      if negb (crc32 =? dl_crc32 info) then inr ChecksumMismatch
      else
        match createObjectFile F SplitFile with
        | None => inr NotAnObject
        | Some splitobj => inl splitobj
        end
  end.

(** [fname.rfind('/')]; [None] stands for [npos]. *)
Fixpoint rfind_slash (s : string) : option nat :=
  match s with
  | EmptyString => None
  | String c s' =>
      match rfind_slash s' with
      | Some i => Some (S i)
      | None => if Ascii.eqb c "/"%char then Some O else None
      end
  end.

(** [fname.substr(0, sep + 1)] and [fname.substr(sep + 1)]; with
    [sep = npos], [sep + 1] wraps around to zero. *)
Definition dir_of (fname : string) : string :=
  match rfind_slash fname with
  | Some sep => String.substring 0 (S sep) fname
  | None => EmptyString
  end.

Definition base_of (fname : string) : string :=
  match rfind_slash fname with
  | Some sep => String.substring (S sep) (String.length fname - S sep) fname
  | None => fname
  end.

Definition is_ok {A B} (x : A + B) : bool :=
  match x with inl _ => true | inr _ => false end.

(** The search of [find_object_file] for the companion file of a library
    [fname] whose debug-link section names [info] (the block entered when
    [info.filename] is not empty).  The result is the accepted path with
    its object, or [None] when the library's own object is kept. *)
Definition find_debuglink_file (F : Files) (fname : string)
    (info : debug_link_info) : option (string * ObjectFile) :=
  let DebugInfo : string * (ObjectFile + open_error) := (EmptyString, inr FileError) in
  let DebugInfo :=
    if negb (String.eqb (base_of fname) (dl_filename info)) then
      let debuginfopath := (dir_of fname ++ dl_filename info)%string in
      (debuginfopath, openDebugInfo F debuginfopath info)
    else DebugInfo in
  let DebugInfo :=
    if negb (is_ok DebugInfo.2) then
      let debuginfopath := (dir_of fname ++ ".debug/" ++ dl_filename info)%string in
      (debuginfopath, openDebugInfo F debuginfopath info)
    else DebugInfo in
  let DebugInfo :=
    if negb (is_ok DebugInfo.2) then
      let debuginfopath := ("/usr/lib/debug/" ++ dir_of fname ++ dl_filename info)%string in
      (debuginfopath, openDebugInfo F debuginfopath info)
    else DebugInfo in
  match DebugInfo.2 with
  | inl obj => Some (DebugInfo.1, obj)
  | inr _ => None
  end.

(** The candidate paths, in the order of the search; the first one is
    left out when the debug-link names the library file itself. *)
Definition candidates (fname : string) (info : debug_link_info) : list string :=
  (if String.eqb (base_of fname) (dl_filename info) then []
   else [(dir_of fname ++ dl_filename info)%string]) ++
  [(dir_of fname ++ ".debug/" ++ dl_filename info)%string;
   ("/usr/lib/debug/" ++ dir_of fname ++ dl_filename info)%string].

(** The first path of a list that [openDebugInfo] accepts. *)
Fixpoint first_accepted (F : Files) (info : debug_link_info) (paths : list string)
    : option (string * ObjectFile) :=
  match paths with
  | [] => None
  | p :: paths' =>
      match openDebugInfo F p info with
      | inl obj => Some (p, obj)
      | inr _ => first_accepted F info paths'
      end
  end.

(** ** Sample inputs *)

(** A parser in the manner of [createObjectFile]: it rejects whatever
    does not start with the ELF magic number. *)
Definition elf_magic_parser (bytes : list Z) : option ObjectFile :=
  match bytes with
  | 127 :: 69 :: 76 :: 70 :: _ => Some {| obj_data := bytes; obj_symbols := [] |}
  | _ => None
  end.

Definition bytes_of (s : string) : list Z :=
  map (fun c => Z.of_nat (nat_of_ascii c)) (list_ascii_of_string s).

(** A file system with one text file where the companion file is
    expected. *)
Definition text_file_only : Files :=
  {| getFile := fun p => if String.eqb p "/lib/libfoo.debug"
                         then Some (bytes_of "hello") else None;
     createObjectFile := elf_magic_parser |}.

End DebugLink.


(** * Native libraries: object files, sections and function names *)

(** The functions below are compiled differently per platform; they are
    modelled as compiled for Linux with glibc ([islinux = 1],
    [untrusted_dladdr = false], empty global symbol prefix). *)

Module Dylib.
Import Registry DebugLink.

(** ** [getDebuglink] *)

(** A section as [getDebuglink] sees it: its name and its contents,
    either of which the object-file library may fail to give. *)
Record named_section := {
  ns_name : option string;
  ns_contents : option (list Z)
}.

(** [Contents.find('\0')]; [None] stands for [npos]. *)
Fixpoint find_nul (s : list Z) : option nat :=
  match s with
  | [] => None
  | b :: s' => if b =? 0 then Some O else option_map S (find_nul s')
  end.

Definition string_of_bytes (bs : list Z) : string :=
  string_of_list_ascii (map (fun b => ascii_of_nat (Z.to_nat b)) bs).

(** The number held by a sequence of bytes, least significant first. *)
Fixpoint le_value (bs : list Z) : Z :=
  match bs with
  | [] => 0
  | b :: bs' => b + 256 * le_value bs'
  end.

(** [*(const uint32_t* )Contents.substr(start, 4).data()]: [substr]
    clamps [start] to the size of the contents, and the four bytes are
    read from there whatever is left; the result is [None] when they do
    not all lie inside the contents (the read is then out of bounds). *)
Definition read_uint32 (Contents : list Z) (start : Z) : option Z :=
  let start := Z.to_nat (Z.min start (Z.of_nat (length Contents))) in
  if (start + 4 <=? length Contents)%nat
  then Some (le_value (firstn 4 (skipn start Contents)))
  else None.

(** The statements executed on the contents of the section named
    [.gnu_debuglink].  [LLT_ALIGN] is a macro of the support headers,
    which are not part of the sources at hand: it is a parameter. *)
Definition parse_debuglink (LLT_ALIGN : Z -> Z -> Z) (Contents : list Z)
    : option debug_link_info :=
  let len := match find_nul Contents with
             | Some i => Z.of_nat i
             | None => 2 ^ 64 - 1     (* [npos] *)
             end in
  let filename := match find_nul Contents with
                  | Some i => firstn i Contents
                  | None => Contents   (* [substr(0, npos)] *)
                  end in
  match read_uint32 Contents (LLT_ALIGN (wrap64 (len + 1)) 4) with
  | Some crc => Some {| dl_filename := string_of_bytes filename; dl_crc32 := crc |}
  | None => None
  end.

(** [getDebuglink]: the loop over the sections stops at the first one
    named [.gnu_debuglink] whose contents can be read. *)
Fixpoint getDebuglink (LLT_ALIGN : Z -> Z -> Z) (sections : list named_section)
    : option debug_link_info :=
  match sections with
  | [] => Some {| dl_filename := EmptyString; dl_crc32 := 0 |}
  | Section :: rest =>
      match ns_name Section, ns_contents Section with
      | Some sName, Some Contents =>
          if String.eqb sName ".gnu_debuglink"
          then parse_debuglink LLT_ALIGN Contents
          else getDebuglink LLT_ALIGN rest
      | _, _ => getDebuglink LLT_ALIGN rest
      end
  end.

(** The contents of a debug-link section: the file name, its
    terminator, zero padding up to a multiple of four, and the checksum. *)
Definition debuglink_contents (name : string) (crc : Z) : list Z :=
  bytes_of name ++ [0] ++
  replicate (Z.to_nat ((- (Z.of_nat (String.length name) + 1)) mod 4)) 0 ++
  CFI.le_bytes 4 crc.

(** ** [find_object_file] *)

(** [jl_object_file_entry_t]; [oe_symbolmap] is the pointer to the map
    allocated for the entry, an index into the store of symbol maps. *)
Record jl_object_file_entry_t := {
  oe_obj : option ObjectFile;
  oe_ctx : option DIContext;
  oe_slide : Z;
  oe_symbolmap : option nat
}.

Definition null_entry : jl_object_file_entry_t :=
  {| oe_obj := None; oe_ctx := None; oe_slide := 0; oe_symbolmap := None |}.

(** The cache of object files of the registry ([objfilemap]), with the
    symbol maps its entries point to. *)
Record ObjFileCache := {
  objfilemap : gmap Z jl_object_file_entry_t;
  symbolmaps : gmap nat (gmap Z string);
  next_symbolmap : nat
}.

Definition empty_cache : ObjFileCache :=
  {| objfilemap := ∅; symbolmaps := ∅; next_symbolmap := O |}.

(** A symbol of an object file, as [get_function_name_and_base] reads
    it for a section: whether the section contains it, its address and
    its name (either may fail). *)
Record section_symbol := {
  ss_contained : bool;
  ss_address : option Z;
  ss_name : option string
}.

(** What [dladdr1] reports: [dli_fname], [dli_sname], [dli_saddr] and
    the [l_addr] of the link map. *)
Record Dl_info := {
  dli_fname : option string;
  dli_sname : option string;
  dli_saddr : Z;
  l_addr : Z
}.

(** The collaborators: the file system and the object parser, the
    accessors of a parsed object, the DWARF library, the dynamic loader
    and libunwind.  A section of a module comes with its [isVirtual]
    flag. *)
Record LibEnv := {
  lib_files : Files;
  lib_sections : ObjectFile -> list named_section;
  lib_module_sections : ObjectFile -> list (SectionRef * bool);
  lib_symbols : ObjectFile -> SectionRef -> list section_symbol;
  lib_isCOFF : ObjectFile -> bool;
  lib_DWARFContext_create : ObjectFile -> DIContext;
  lib_LLT_ALIGN : Z -> Z -> Z;
  lib_dladdr1 : Z -> option Dl_info;
  (* [unw_get_proc_info_by_ip]: the [start_ip] found, when it returns 0;
     never an answer when the runtime is built without libunwind *)
  lib_unw_start_ip : Z -> option Z
}.

(** [ObjectFile::createObjectFile(path)]: the file is read and parsed. *)
Definition open_object_file (F : Files) (path : string) : option ObjectFile :=
  match getFile F path with
  | Some bytes => createObjectFile F bytes
  | None => None
  end.

Definition set_objfile (fbase : Z) (entry : jl_object_file_entry_t)
    (c : ObjFileCache) : ObjFileCache :=
  {| objfilemap := <[fbase := entry]> (objfilemap c);
     symbolmaps := symbolmaps c;
     next_symbolmap := next_symbolmap c |}.

(** [find_object_file(fbase, fname)]: the entry returned and the cache
    after the call.  The result is [None] when [getDebuglink] reads out
    of bounds. *)
Definition find_object_file (E : LibEnv) (c : ObjFileCache) (fbase : Z)
    (fname : string) : option (jl_object_file_entry_t * ObjFileCache) :=
  match objfilemap c !! fbase with
  | Some cached => Some (cached, c)                (* [!success.second] *)
  | None =>
      let c := set_objfile fbase null_entry c in   (* [emplace(fbase, entry)] *)
      match open_object_file (lib_files E) fname with
      | None => Some (null_entry, c)
      | Some libobj =>
          match getDebuglink (lib_LLT_ALIGN E) (lib_sections E libobj) with
          | None => None
          | Some info =>
              let debugobj :=
                if negb (String.eqb (dl_filename info) EmptyString) then
                  match find_debuglink_file (lib_files E) fname info with
                  | Some (_, splitobj) => splitobj
                  | None => libobj
                  end
                else libobj in
              if lib_isCOFF E debugobj then Some (null_entry, c)
              else
                let slide := to_signed 64 (- to_signed 64 fbase) in
                let context := lib_DWARFContext_create E debugobj in
                let entry := {| oe_obj := Some debugobj;
                                oe_ctx := Some context;
                                oe_slide := slide;
                                oe_symbolmap := Some (next_symbolmap c) |} in
                Some (entry,
                      {| objfilemap := <[fbase := entry]> (objfilemap c);
                         symbolmaps := <[next_symbolmap c := ∅]> (symbolmaps c);
                         next_symbolmap := S (next_symbolmap c) |})
          end
      end
  end.

(** ** [getModuleSectionForAddress] *)

Fixpoint getModuleSectionForAddress (sections : list (SectionRef * bool))
    (Address : Z) : option SectionRef :=
  match sections with
  | [] => None                          (* [object::SectionRef()] *)
  | (Sec, isVirtual) :: rest =>
      if negb (sec_isText Sec) || isVirtual
      then getModuleSectionForAddress rest Address
      else if (sec_address Sec <=? Address) &&
              (Address <? wrap64 (sec_address Sec + sec_size Sec))
           then Some Sec
           else getModuleSectionForAddress rest Address
  end.

(** ** [get_function_name_and_base] *)

(** The loop that fills an empty symbol map: [emplace] keeps the first
    name seen for an address. *)
Definition fill_symbolmap (syms : list section_symbol) (m : gmap Z string)
    : gmap Z string :=
  foldl (fun m sym =>
           if negb (ss_contained sym) then m
           else match ss_address sym with
                | None => m
                | Some addr => map_insert_new addr (default EmptyString (ss_name sym)) m
                end)
        m syms.

Definition is_empty_map {V} (m : gmap Z V) : bool :=
  match map_to_list m with [] => true | _ => false end.

(** [get_function_name_and_base].  [saddr] and [name] are [None] for a
    null pointer argument and hold the pointed-to value otherwise; the
    symbol map is the one [symbolmap] points to.  The result gives the
    values pointed to on return and the symbol map. *)
Definition get_function_name_and_base (E : LibEnv)
    (Section : option (ObjectFile * SectionRef)) (symbolmap : gmap Z string)
    (pointer slide : Z) (inimage : bool)
    (saddr : option Z) (name : option (option string)) (untrusted_dladdr : bool)
    : option Z * option (option string) * gmap Z string :=
  let needs_saddr :=
    match saddr with
    | Some v => (v =? NULL) || untrusted_dladdr
    | None => false
    end in
  let needs_name :=
    match name with
    | Some n => negb (bool_decide (is_Some n)) || untrusted_dladdr
    | None => false
    end in
  let '(saddr, needs_saddr) :=
    if needs_saddr then
      match lib_unw_start_ip E pointer with
      | Some start_ip =>
          if negb (start_ip =? 0) then (Some start_ip, false) else (saddr, needs_saddr)
      | None => (saddr, needs_saddr)
      end
    else (saddr, needs_saddr) in
  match Section with
  | Some (obj, Sec) =>
      if needs_saddr || needs_name then
        let symbolmap :=
          if is_empty_map symbolmap
          then fill_symbolmap (lib_symbols E obj Sec) symbolmap
          else symbolmap in
        let '(addr, nameref) :=
          match lower_bound symbolmap (wrap64 (pointer + slide)) with
          | Some fit => fit
          | None => (0, EmptyString)
          end in
        let saddr :=
          if needs_saddr && negb (addr =? 0)
          then Some (wrap64 (addr - slide)) else saddr in
        let name :=
          if needs_name && negb (String.eqb nameref EmptyString)
          then Some (Some nameref) else name in
        (saddr, name, symbolmap)
      else (saddr, name, symbolmap)
  | None => (saddr, name, symbolmap)
  end.

(** ** [jl_dylib_DI_for_fptr] *)

(** [jl_dylib_DI_for_fptr], as [jl_getDylibFunctionInfo] calls it: every
    output pointer is given.  The inner result is [None] when the
    function returns [false]; otherwise it holds the values written
    through the output pointers.  [jl_copy_str], which is not part of
    the sources at hand, is taken to store a copy of its argument (or
    NULL for a null argument).  The outer result is [None] when
    [getDebuglink] reads out of bounds. *)
Definition jl_dylib_DI_for_fptr (E : LibEnv) (r : JITDebugInfoRegistry)
    (c : ObjFileCache) (pointer : Z) (onlyImage : bool)
    : option (option Symbolication.dylib_info * ObjFileCache) :=
  let untrusted_dladdr := false in
  match lib_dladdr1 E pointer with
  | None => Some (None, c)
  | Some dlinfo =>
      match dli_fname dlinfo with
      | None => Some (None, c)
      | Some fname =>
          let fbase := wrap64 (l_addr dlinfo) in
          let image_info := get_image_info r fbase in
          let inimage := bool_decide (is_Some image_info) in
          let saddr := dli_saddr dlinfo in
          if onlyImage && negb inimage then Some (None, c)
          else
            let name := dli_sname dlinfo in
            match find_object_file E c fbase fname with
            | None => None
            | Some (entry, c) =>
                let slide := oe_slide entry in
                let Section :=
                  match oe_obj entry with
                  | Some obj =>
                      option_map (pair obj)
                        (getModuleSectionForAddress (lib_module_sections E obj)
                           (wrap64 (pointer + slide)))
                  | None => None
                  end in
                let nptrs := match image_info with
                             | Some image => Z.of_nat (length (img_ptrs image))
                             | None => 0
                             end in
                let saddr_arg :=
                  if negb inimage || (nptrs =? 0) then None else Some saddr in
                let symbolmap :=
                  match oe_symbolmap entry with
                  | Some i => default ∅ (symbolmaps c !! i)
                  | None => ∅
                  end in
                let '(saddr', name', symbolmap') :=
                  get_function_name_and_base E Section symbolmap pointer slide
                    inimage saddr_arg (Some name) untrusted_dladdr in
                let c := match oe_symbolmap entry with
                         | Some i => {| objfilemap := objfilemap c;
                                        symbolmaps := <[i := symbolmap']> (symbolmaps c);
                                        next_symbolmap := next_symbolmap c |}
                         | None => c
                         end in
                Some (Some {| Symbolication.dl_Section :=
                                option_map (fun s => sec_index s.2) Section;
                              Symbolication.dl_slide := slide;
                              Symbolication.dl_context := oe_ctx entry;
                              Symbolication.dl_isImage := inimage;
                              Symbolication.dl_fbase := fbase;
                              Symbolication.dl_saddr := default saddr saddr';
                              Symbolication.dl_func_name :=
                                option_map list_ascii_of_string (default name name');
                              Symbolication.dl_file_name :=
                                Some (list_ascii_of_string fname) |},
                      c)
            end
      end
  end.

(** ** Sample inputs *)

(** The usual definition of the alignment macro:
    [(x + (sz - 1)) & ~(sz - 1)] in [size_t]. *)
Definition align_up (x sz : Z) : Z :=
  Z.land (wrap64 (x + (sz - 1))) (wrap64 (Z.lnot (sz - 1))).

(** A system with one library, [/lib/libfoo.so], loaded at [0x5000]:
    an ELF file without debug-link section, with a text section of 64
    bytes and the two functions [foo] (at [0x10]) and [bar] (at [0x30]);
    the dynamic loader attributes every address to [foo]. *)
Definition sample_lib_env : LibEnv :=
  {| lib_files :=
       {| getFile := fun p => if String.eqb p "/lib/libfoo.so"
                              then Some [127; 69; 76; 70; 1] else None;
          createObjectFile := elf_magic_parser |};
     lib_sections := fun _ => [{| ns_name := Some ".text"%string;
                                  ns_contents := Some [1; 2; 3] |}];
     lib_module_sections := fun _ => [(data_section, false); (text_section, false)];
     lib_symbols := fun _ _ =>
       [{| ss_contained := true; ss_address := Some 0x10; ss_name := Some "foo"%string |};
        {| ss_contained := false; ss_address := Some 0x20; ss_name := Some "data"%string |};
        {| ss_contained := true; ss_address := Some 0x30; ss_name := Some "bar"%string |}];
     lib_isCOFF := fun _ => false;
     lib_DWARFContext_create := fun _ => Symbolication.no_frames;
     lib_LLT_ALIGN := align_up;
     lib_dladdr1 := fun _ => Some {| dli_fname := Some "/lib/libfoo.so"%string;
                                     dli_sname := Some "foo"%string;
                                     dli_saddr := 0x5010; l_addr := 0x5000 |};
     lib_unw_start_ip := fun _ => None |}.

(** The same system after the file of the library was removed. *)
Definition removed_lib_env : LibEnv :=
  {| lib_files := {| getFile := fun _ => None; createObjectFile := elf_magic_parser |};
     lib_sections := lib_sections sample_lib_env;
     lib_module_sections := lib_module_sections sample_lib_env;
     lib_symbols := lib_symbols sample_lib_env;
     lib_isCOFF := lib_isCOFF sample_lib_env;
     lib_DWARFContext_create := lib_DWARFContext_create sample_lib_env;
     lib_LLT_ALIGN := lib_LLT_ALIGN sample_lib_env;
     lib_dladdr1 := lib_dladdr1 sample_lib_env;
     lib_unw_start_ip := lib_unw_start_ip sample_lib_env |}.

End Dylib.
(** * Tactics *)

(** Decides the tests of the goal that are closed terms. *)
Ltac eval_tests :=
  repeat match goal with
    | |- context [if ?c then _ else _] =>
        let v := eval vm_compute in c in
        match v with
        | true => change c with true
        | false => change c with false
        end; cbv iota
    end.

(** Case analysis on every test of the goal. *)
Ltac fill_cases :=
  repeat match goal with
         | |- context [if ?c then _ else _] => destruct c eqn:?
         | |- context [match ?c with Some _ => _ | None => _ end] => destruct c eqn:?
         end;
  try reflexivity; try discriminate; try congruence.

(** Case analysis on the tests, options and pairs of the goal, without
    closing it. *)
Ltac split_lookup :=
  repeat match goal with
         | |- context [if ?c then _ else _] => destruct c
         | |- context [match ?c with Some _ => _ | None => _ end] => destruct c
         | |- context [let '(_, _) := ?c in _] => destruct c
         end.

(* ================================================================== *)
(** * Properties *)
(* ================================================================== *)

(** ** Demangling *)

Section DemangleFacts.
Import Demangle.
Local Open Scope nat_scope.

Lemma is_digit_not_underscore c : is_digit c = true -> ascii_eqb c "_"%char = false.
Proof.
  unfold is_digit, ascii_eqb. intros H.
  destruct (Ascii.eqb_spec c "_"%char) as [->|]; [discriminate H | reflexivity].
Qed.

Lemma scan_suffix_sound name n e :
  scan_suffix name n = Some e ->
  e < n /\ char_at name e = "_"%char /\
  forall i, e < i < n -> is_digit (char_at name i) = true.
Proof.
  induction n as [|n IH]; simpl; [discriminate|].
  destruct (ascii_eqb (char_at name n) "_"%char) eqn:Hu.
  - intros [= <-]. split; [lia|]. split; [|intros; lia].
    unfold ascii_eqb in Hu. now apply Ascii.eqb_eq in Hu.
  - destruct (is_digit (char_at name n)) eqn:Hd; [|discriminate].
    intros H. destruct (IH H) as (Hlt & Hc & Hdig).
    split; [lia|]. split; [exact Hc|].
    intros i Hi. destruct (Nat.eq_dec i n) as [->|]; [exact Hd|apply Hdig; lia].
Qed.

Lemma scan_suffix_app name extra n :
  n <= length name -> scan_suffix (name ++ extra) n = scan_suffix name n.
Proof.
  induction n as [|n IH]; simpl; [reflexivity|]. intros Hn.
  unfold char_at. rewrite app_nth1 by lia. rewrite IH by lia. reflexivity.
Qed.

Lemma scan_suffix_complete x digits :
  all_digits digits ->
  scan_suffix (x ++ "_"%char :: digits) (length x + 1 + length digits) = Some (length x).
Proof.
  induction digits as [|c d IH] using rev_ind; intros Hd.
  - simpl. replace (length x + 1 + 0) with (S (length x)) by lia. simpl.
    unfold char_at. rewrite app_nth2 by lia. rewrite Nat.sub_diag. reflexivity.
  - apply Forall_app in Hd as [Hd Hc]. inversion Hc as [|? ? Hc' _]; subst.
    rewrite length_app. simpl.
    replace (length x + 1 + (length d + 1)) with (S (length x + 1 + length d)) by lia.
    simpl. unfold char_at at 1 2.
    replace (x ++ "_"%char :: d ++ [c]) with ((x ++ "_"%char :: d) ++ [c])
      by (rewrite <- app_assoc; reflexivity).
    rewrite app_nth2 by (rewrite length_app; simpl; lia).
    replace (length x + 1 + length d - length (x ++ "_"%char :: d)) with 0
      by (rewrite length_app; simpl; lia).
    simpl. rewrite (is_digit_not_underscore _ Hc'), Hc'.
    rewrite scan_suffix_app by (rewrite length_app; simpl; lia).
    apply IH, Hd.
Qed.

Lemma prefix_length pre : In pre prefixes -> length pre = 6.
Proof.
  unfold prefixes. simpl. intros H.
  repeat (destruct H as [<-|H]; [reflexivity|]). destruct H.
Qed.

Lemma strncmp6_prefix name :
  existsb (strncmp6_eq name) prefixes = true <-> In (firstn 6 name) prefixes.
Proof.
  rewrite existsb_exists. unfold strncmp6_eq. split.
  - intros (p & Hin & Heq). apply bool_decide_eq_true in Heq. now rewrite Heq.
  - intros Hin. exists (firstn 6 name). split; [exact Hin|].
    now apply bool_decide_eq_true.
Qed.

Lemma demangle_shape_managed name body :
  valid_cstring name -> mangled_shape name body -> jl_demangle name = (body, true).
Proof.
  intros Hv (pre & digits & Hpre & Hbody & Hdig & ->).
  pose proof (prefix_length pre Hpre) as Hlen.
  destruct body as [|b body]; [congruence|].
  unfold jl_demangle.
  assert (Hl : length (pre ++ (b :: body) ++ "_"%char :: digits) =
               6 + S (length body) + 1 + length digits).
  { rewrite !length_app. simpl. lia. }
  rewrite Hl.
  replace (Nat.leb (6 + S (length body) + 1 + length digits) 6) with false
    by (symmetry; apply Nat.leb_gt; lia).
  assert (Hf : firstn 6 (pre ++ (b :: body) ++ "_"%char :: digits) = pre).
  { rewrite <- Hlen. rewrite firstn_app, Nat.sub_diag, firstn_all. simpl.
    apply app_nil_r. }
  assert (He : existsb (strncmp6_eq (pre ++ (b :: body) ++ "_"%char :: digits)) prefixes = true).
  { apply strncmp6_prefix. now rewrite Hf. }
  rewrite He. simpl negb. cbv iota.
  assert (Hb : char_at (pre ++ (b :: body) ++ "_"%char :: digits) 6 = b).
  { unfold char_at. rewrite app_nth2 by lia. rewrite Hlen, Nat.sub_diag. reflexivity. }
  rewrite Hb.
  assert (Hnz : ascii_eqb b "000"%char = false).
  { unfold ascii_eqb. apply Ascii.eqb_neq.
    apply Forall_app in Hv as [_ Hv]. inversion Hv; subst; assumption. }
  rewrite Hnz.
  replace (pre ++ (b :: body) ++ "_"%char :: digits)
    with ((pre ++ b :: body) ++ "_"%char :: digits) at 1
    by (rewrite <- app_assoc; reflexivity).
  replace (6 + S (length body) + 1 + length digits)
    with (length (pre ++ b :: body) + 1 + length digits)
    by (rewrite length_app; simpl; lia).
  rewrite (scan_suffix_complete _ _ Hdig).
  rewrite length_app. simpl length. rewrite Hlen.
  replace (Nat.leb (6 + S (length body)) 6) with false
    by (symmetry; apply Nat.leb_gt; lia).
  f_equal.
  assert (Hd : skipn 6 (pre ++ (b :: body) ++ "_"%char :: digits) =
               (b :: body) ++ "_"%char :: digits).
  { rewrite <- Hlen. apply drop_app_length. }
  rewrite Hd.
  replace (6 + S (length body) - 6) with (length (b :: body)) by (simpl; lia).
  apply take_app_length.
Qed.

Lemma forall_nth_digits (name : cstring) e :
  (forall i, e < i < length name -> is_digit (char_at name i) = true) ->
  all_digits (skipn (S e) name).
Proof.
  intros H. unfold all_digits. apply List.Forall_forall. intros c Hin.
  apply (In_nth _ _ "000"%char) in Hin as (k & Hk & <-).
  rewrite length_skipn in Hk. rewrite nth_skipn.
  apply H. lia.
Qed.

Lemma demangle_unmanaged_or_shape name :
  (exists body, mangled_shape name body) \/ jl_demangle name = (name, false).
Proof.
  unfold jl_demangle.
  destruct (Nat.leb (length name) 6) eqn:Hlen; [now right|].
  apply Nat.leb_gt in Hlen.
  destruct (existsb (strncmp6_eq name) prefixes) eqn:Hp; [|now right]. simpl negb. cbv iota.
  apply strncmp6_prefix in Hp.
  destruct (ascii_eqb (char_at name 6) "000"%char); [now right|].
  destruct (scan_suffix name (length name)) as [e|] eqn:Hs; [|now right].
  destruct (Nat.leb e 6) eqn:He; [now right|]. apply Nat.leb_gt in He.
  left. apply scan_suffix_sound in Hs as (Hlt & Hc & Hdig).
  exists (firstn (e - 6) (skipn 6 name)), (firstn 6 name), (skipn (S e) name).
  split; [exact Hp|]. split.
  { intros Habs. apply (f_equal (@length ascii)) in Habs.
    rewrite length_firstn, length_skipn in Habs. simpl in Habs. lia. }
  split; [now apply forall_nth_digits|].
  rewrite <- (firstn_skipn 6 name) at 1. f_equal.
  rewrite <- (firstn_skipn (e - 6) (skipn 6 name)) at 1. f_equal.
  rewrite skipn_skipn. replace (e - 6 + 6) with e by lia.
  rewrite <- Hc. unfold char_at.
  clear - Hlt. revert name Hlt. induction e as [|e IH]; intros [|c name] Hl; simpl in *; try lia.
  - reflexivity.
  - apply IH. lia.
Qed.

(** C3 (as amended).  For every C string, the demangler returns the body
    marked managed when the name is one of the five prefixes, a non-empty
    body, an underscore and a run of zero or more decimal digits; for
    every name of another shape it returns the name unchanged, marked
    not managed. *)
Theorem demangle_exactly (name : cstring) :
  valid_cstring name ->
  (forall body, mangled_shape name body -> jl_demangle name = (body, true)) /\
  ((forall body, ~ mangled_shape name body) -> jl_demangle name = (name, false)).
Proof.
  intros Hv. split.
  - intros body Hs. now apply demangle_shape_managed.
  - intros Hn. destruct (demangle_unmanaged_or_shape name) as [[body Hs]|H]; [|exact H].
    now destruct (Hn body).
Qed.

End DemangleFacts.

(** ** LEB128 decoding *)

Section Leb128Facts.
Import CFI.
Local Open Scope Z_scope.

Lemma load8_range m a : 0 <= load8 m a < 256.
Proof. unfold load8. apply Z.mod_pos_bound. lia. Qed.

Lemma land_7f a : Z.land a 0x7f = a mod 128.
Proof. change 0x7f with (Z.ones 7). rewrite Z.land_ones by lia. reflexivity. Qed.

Lemma land_7f_range a : 0 <= Z.land a 0x7f < 128.
Proof. rewrite land_7f. apply Z.mod_pos_bound. lia. Qed.

Lemma land_low_high v y k : 0 <= k -> 0 <= v < 2 ^ k -> Z.land v (y * 2 ^ k) = 0.
Proof.
  intros Hk Hv. apply Z.bits_inj'. intros n Hn. rewrite Z.land_spec, Z.bits_0.
  destruct (Z.lt_ge_cases n k).
  - rewrite Z.mul_pow2_bits_low by lia. apply andb_false_r.
  - rewrite <- (Z.mod_small v (2 ^ k)) by lia.
    rewrite Z.mod_pow2_bits_high by lia. reflexivity.
Qed.

Lemma lor_low_high v y k :
  0 <= k -> 0 <= v < 2 ^ k -> Z.lor v (y * 2 ^ k) = v + y * 2 ^ k.
Proof.
  intros Hk Hv. pose proof (Z.add_lor_land v (y * 2 ^ k)) as H.
  rewrite land_low_high in H by lia. lia.
Qed.

(** One turn of the accumulation [v |= uT(a & 0x7f) << (i * 7)]. *)
Lemma leb_accumulate v x i :
  0 <= i <= 9 -> 0 <= v < 2 ^ (7 * i) -> 0 <= x < 128 ->
  Z.lor v (wrap64 (Z.shiftl x (i * 7))) = (v + 2 ^ (7 * i) * x) mod 2 ^ 64 /\
  (i <= 8 -> (v + 2 ^ (7 * i) * x) mod 2 ^ 64 = v + 2 ^ (7 * i) * x /\
             v + 2 ^ (7 * i) * x < 2 ^ (7 * (i + 1))).
Proof.
  intros Hi Hv Hx. unfold wrap64. rewrite Z.shiftl_mul_pow2 by lia.
  replace (i * 7) with (7 * i) by lia.
  set (k := 7 * i) in *.
  assert (Hk : 0 <= k <= 63) by (subst k; lia).
  assert (Hp : 2 ^ 64 = 2 ^ (64 - k) * 2 ^ k).
  { rewrite <- Z.pow_add_r by lia. f_equal. lia. }
  assert (Hpk : 0 < 2 ^ k) by (apply Z.pow_pos_nonneg; lia).
  assert (Hpk' : 0 < 2 ^ (64 - k)) by (apply Z.pow_pos_nonneg; lia).
  rewrite Hp at 1. rewrite Z.mul_mod_distr_r by lia.
  rewrite lor_low_high by lia.
  pose proof (Z.mod_pos_bound x (2 ^ (64 - k)) Hpk') as Hr.
  pose proof (Z.div_mod x (2 ^ (64 - k)) ltac:(lia)) as Hdm.
  split.
  - apply Z.mod_unique_pos with (q := x / 2 ^ (64 - k)).
    + split; [nia|]. rewrite Hp. nia.
    + rewrite Hp. nia.
  - intros Hi8.
    assert (Hk' : 2 ^ (7 * (i + 1)) = 128 * 2 ^ k).
    { replace (7 * (i + 1)) with (7 + k) by (subst k; lia).
      rewrite Z.pow_add_r by lia. reflexivity. }
    assert (Hle : 2 ^ (7 * (i + 1)) <= 2 ^ 64).
    { apply Z.pow_le_mono_r; lia. }
    split; [apply Z.mod_small|]; nia.
Qed.

Lemma leb_groups_stopped m End n Addr gs :
  leb_groups m End n Addr = (gs, true) -> gs <> [].
Proof.
  destruct n as [|n]; simpl; [discriminate|].
  destruct (_ || _); [intros [= <-]; discriminate|].
  destruct (leb_groups m End n (Addr + 1)). intros [= <- _]. discriminate.
Qed.

Lemma wrap64_neg_pow2 vb :
  0 <= vb < 64 -> wrap64 (- Z.shiftl 1 vb) = (2 ^ (64 - vb) - 1) * 2 ^ vb.
Proof.
  intros Hvb. unfold wrap64. rewrite Z.shiftl_1_l.
  assert (Hp : 2 ^ 64 = 2 ^ (64 - vb) * 2 ^ vb).
  { rewrite <- Z.pow_add_r by lia. f_equal. lia. }
  assert (0 < 2 ^ vb) by (apply Z.pow_pos_nonneg; lia).
  assert (0 < 2 ^ (64 - vb)) by (apply Z.pow_pos_nonneg; lia).
  symmetry. apply Z.mod_unique_pos with (q := -1).
  - rewrite Hp. nia.
  - rewrite Hp. nia.
Qed.

Lemma parse_leb128_loop_spec is_signed m End fuel :
  forall i Addr v,
    0 <= i -> i + Z.of_nat fuel = 10 -> 0 <= v < 2 ^ (7 * i) -> v < 2 ^ 64 ->
    parse_leb128_loop is_signed m End fuel i Addr v =
    let '(gs, stopped) := leb_groups m End fuel Addr in
    let p := (v + 2 ^ (7 * i) * leb_payload gs) mod 2 ^ 64 in
    let vb := 7 * (i + Z.of_nat (length gs)) in
    (if sign_fill is_signed stopped gs vb then p + (2 ^ 64 - 2 ^ vb) else p,
     if stopped then Addr + Z.of_nat (length gs)
     else consume_leb128 m (Addr + Z.of_nat (length gs)) End).
Proof.
  induction fuel as [|fuel IH]; intros i Addr v Hi Hfuel Hv Hv64.
  - simpl. rewrite Z.mul_0_r, Z.add_0_r, Z.mod_small by lia.
    rewrite Z.add_0_r. reflexivity.
  - assert (Hi9 : 0 <= i <= 9) by lia.
    pose proof (land_7f_range (load8 m Addr)) as Hx.
    destruct (leb_accumulate v _ i Hi9 Hv Hx) as [Hacc Hsmall].
    cbn [parse_leb128_loop leb_groups]. cbv zeta.
    rewrite Hacc.
    destruct ((Z.land (load8 m Addr) 128 =? 0) || (End <=? Addr + 1)) eqn:Hstop.
    + cbn [leb_payload length List.last]. unfold sign_fill. cbn [andb List.last].
      replace (Z.land (load8 m Addr) 127 + 128 * 0) with (Z.land (load8 m Addr) 127) by lia.
      replace (7 * (i + Z.of_nat 1)) with ((i + 1) * 7) by lia.
      replace (Addr + Z.of_nat 1) with (Addr + 1) by lia.
      f_equal.
      destruct (negb (Z.land (load8 m Addr) 64 =? 0)); [|reflexivity].
      destruct is_signed; [|reflexivity]. cbn [andb].
      destruct ((i + 1) * 7 <? 64) eqn:Hvb; [|reflexivity].
      apply Z.ltb_lt in Hvb.
      destruct (Hsmall ltac:(lia)) as [Heq Hlt]. rewrite Heq.
      rewrite wrap64_neg_pow2 by lia.
      replace (7 * (i + 1)) with ((i + 1) * 7) in Hlt by lia.
      rewrite lor_low_high by lia.
      assert (Hp : 2 ^ 64 = 2 ^ (64 - (i + 1) * 7) * 2 ^ ((i + 1) * 7)).
      { rewrite <- Z.pow_add_r by lia. f_equal. lia. }
      rewrite Hp. lia.
    + assert (Hmod : 0 <= (v + 2 ^ (7 * i) * Z.land (load8 m Addr) 127) mod 2 ^ 64 < 2 ^ 64)
        by (apply Z.mod_pos_bound; lia).
      rewrite IH; try lia.
      2:{ destruct (Z.eq_dec i 9) as [->|Hne].
          - split; [lia|]. eapply Z.lt_le_trans; [apply Hmod|].
            apply Z.pow_le_mono_r; lia.
          - destruct (Hsmall ltac:(lia)) as [Heq Hlt]. rewrite Heq. lia. }
      destruct (leb_groups m End fuel (Addr + 1)) as [gs' st'] eqn:Hg.
      cbn [leb_payload length].
      replace (7 * (i + 1 + Z.of_nat (length gs'))) with (7 * (i + Z.of_nat (S (length gs')))) by lia.
      replace (Addr + 1 + Z.of_nat (length gs')) with (Addr + Z.of_nat (S (length gs'))) by lia.
      assert (Hpay : ((v + 2 ^ (7 * i) * Z.land (load8 m Addr) 127) mod 2 ^ 64 +
                      2 ^ (7 * (i + 1)) * leb_payload gs') mod 2 ^ 64 =
                     (v + 2 ^ (7 * i) * (Z.land (load8 m Addr) 127 + 128 * leb_payload gs')) mod 2 ^ 64).
      { rewrite Zplus_mod_idemp_l. f_equal.
        replace (7 * (i + 1)) with (7 * i + 7) by lia.
        rewrite Z.pow_add_r by lia. change (2 ^ 7) with 128. ring. }
      rewrite Hpay.
      assert (Hsf : sign_fill is_signed st' gs' (7 * (i + Z.of_nat (S (length gs')))) =
                    sign_fill is_signed st' (load8 m Addr :: gs') (7 * (i + Z.of_nat (S (length gs'))))).
      { unfold sign_fill. destruct st'; [|reflexivity].
        apply leb_groups_stopped in Hg. destruct gs'; [congruence|]. reflexivity. }
      rewrite Hsf. reflexivity.
Qed.

End Leb128Facts.

(** ** LEB128: cap and sign extension *)

Section Leb128Theorem.
Import CFI.
Local Open Scope Z_scope.

Lemma leb_payload_range gs : 0 <= leb_payload gs < 2 ^ (7 * Z.of_nat (length gs)).
Proof.
  induction gs as [|g gs IH].
  - simpl. lia.
  - cbn [leb_payload length]. pose proof (land_7f_range g).
    replace (7 * Z.of_nat (S (length gs))) with (7 + 7 * Z.of_nat (length gs)) by lia.
    rewrite Z.pow_add_r by lia. change (2 ^ 7) with 128. nia.
Qed.

Lemma leb_groups_length m End n : forall Addr gs st,
  leb_groups m End n Addr = (gs, st) ->
  (1 <= n -> 1 <= length gs)%nat /\ (length gs <= n)%nat /\
  (st = false -> length gs = n).
Proof.
  induction n as [|n IH]; intros Addr gs st; simpl.
  - intros [= <- <-]. simpl. lia.
  - destruct (_ || _).
    + intros [= <- <-]. simpl. split; [lia|]. split; [lia|discriminate].
    + destruct (leb_groups m End n (Addr + 1)) as [gs' st'] eqn:Hg.
      intros [= <- <-]. destruct (IH _ _ _ Hg) as (_ & Hle & Hst).
      simpl. split; [lia|]. split; [lia|]. intros H. rewrite (Hst H). reflexivity.
Qed.

Lemma to_signed_range w z : 0 < w -> - 2 ^ (w - 1) <= to_signed w z < 2 ^ (w - 1).
Proof.
  intros Hw. unfold to_signed.
  assert (Hp : 2 ^ w = 2 * 2 ^ (w - 1)).
  { replace w with (1 + (w - 1)) at 1 by lia. rewrite Z.pow_add_r by lia. reflexivity. }
  pose proof (Z.mod_pos_bound z (2 ^ w) ltac:(apply Z.pow_pos_nonneg; lia)).
  destruct (Z.ltb_spec (z mod 2 ^ w) (2 ^ (w - 1))); lia.
Qed.

Lemma to_signed_testbit w z j :
  0 <= j < w -> Z.testbit (to_signed w z) j = Z.testbit z j.
Proof.
  intros Hj. unfold to_signed.
  assert (H : forall y, y mod 2 ^ w = z mod 2 ^ w -> Z.testbit y j = Z.testbit z j).
  { intros y Hy. rewrite <- (Z.mod_pow2_bits_low y w j), <- (Z.mod_pow2_bits_low z w j) by lia.
    now rewrite Hy. }
  destruct (_ <? _); apply H.
  - apply Z.mod_mod. apply Z.pow_nonzero; lia.
  - rewrite <- (Z.mod_add _ 1) by (apply Z.pow_nonzero; lia).
    replace (z mod 2 ^ w - 2 ^ w + 1 * 2 ^ w) with (z mod 2 ^ w) by lia.
    apply Z.mod_mod. apply Z.pow_nonzero; lia.
Qed.

Lemma to_signed_wrap w z : 0 < w -> (to_signed w z) mod 2 ^ w = z mod 2 ^ w.
Proof.
  intros Hw. unfold to_signed.
  assert (Hnz : 2 ^ w <> 0) by (apply Z.pow_nonzero; lia).
  destruct (_ <? _).
  - now apply Z.mod_mod.
  - rewrite <- (Z.mod_add _ 1) by assumption.
    replace (z mod 2 ^ w - 2 ^ w + 1 * 2 ^ w) with (z mod 2 ^ w) by lia.
    now apply Z.mod_mod.
Qed.

(** The pattern computed by [parse_leb128] in terms of the folded groups. *)
Lemma parse_leb128_pattern is_signed m Addr End :
  parse_leb128 is_signed m Addr End =
  let '(gs, stopped) := leb_groups m End leb_max_groups Addr in
  let p := leb_payload gs mod 2 ^ 64 in
  let vb := 7 * Z.of_nat (length gs) in
  (as_T is_signed (if sign_fill is_signed stopped gs vb then p + (2 ^ 64 - 2 ^ vb) else p),
   if stopped then Addr + Z.of_nat (length gs)
   else consume_leb128 m (Addr + Z.of_nat (length gs)) End).
Proof.
  unfold parse_leb128.
  rewrite parse_leb128_loop_spec by (try (change (Z.of_nat leb_max_groups) with 10); simpl; lia).
  destruct (leb_groups m End leb_max_groups Addr) as [gs st].
  cbv zeta. rewrite Z.mul_0_r, Z.pow_0_r, Z.mul_1_l, !Z.add_0_l. reflexivity.
Qed.

(** C6.  For every memory content, both instances of [parse_leb128]
    fold at most [leb_max_groups] seven-bit groups (the number of groups
    that start below the width of the 64-bit target type).  The unsigned
    decoder returns the payload of these groups truncated to 64 bits.
    The signed decoder returns a value of the signed 64-bit range whose
    low bits are those of the payload and whose remaining bits, up to bit
    63, all equal the bit [0x40] of the last folded byte. *)
Theorem leb128_cap_and_sign_extension (m : memory) (Addr End : Z) :
  let gs := fst (leb_groups m End leb_max_groups Addr) in
  let u := fst (parse_leb128 false m Addr End) in
  let s := fst (parse_leb128 true m Addr End) in
  (1 <= length gs <= leb_max_groups)%nat /\
  7 * (Z.of_nat leb_max_groups - 1) < ptr_bits /\
  u = leb_payload gs mod 2 ^ ptr_bits /\
  - 2 ^ 63 <= s < 2 ^ 63 /\
  (forall j, 0 <= j < 64 -> j < 7 * Z.of_nat (length gs) ->
             Z.testbit s j = Z.testbit (leb_payload gs) j) /\
  (forall j, 7 * Z.of_nat (length gs) <= j < 64 ->
             Z.testbit s j = negb (Z.land (List.last gs 0) 0x40 =? 0)).
Proof.
  cbv zeta. rewrite !parse_leb128_pattern.
  destruct (leb_groups m End leb_max_groups Addr) as [gs st] eqn:Hg.
  destruct (leb_groups_length _ _ _ _ _ _ Hg) as (Hge & Hle & Hst).
  change leb_max_groups with 10%nat in Hge, Hle, Hst.
  pose proof (leb_payload_range gs) as Hpay.
  cbn [fst]. split; [change leb_max_groups with 10%nat; lia|].
  split; [reflexivity|]. change ptr_bits with 64. split.
  { unfold sign_fill, as_T. rewrite !andb_false_r, andb_false_l. reflexivity. }
  unfold as_T. split; [apply (to_signed_range 64); lia|].
  set (vb := 7 * Z.of_nat (length gs)) in *.
  assert (Hvb0 : 0 <= vb) by (subst vb; lia).
  assert (Hfill : forall j, 0 <= j < 64 -> vb < 64 ->
            Z.testbit (leb_payload gs mod 2 ^ 64 + (2 ^ 64 - 2 ^ vb)) j =
            Z.testbit (leb_payload gs) j || (vb <=? j)).
  { intros j Hj Hv.
    assert (2 ^ vb <= 2 ^ 64) by (apply Z.pow_le_mono_r; lia).
    rewrite Z.mod_small by lia.
    assert (Hp : 2 ^ 64 - 2 ^ vb = Z.ones (64 - vb) * 2 ^ vb).
    { rewrite Z.ones_equiv, Z.mul_pred_l, <- Z.pow_add_r by lia.
      replace (64 - vb + vb) with 64 by lia. lia. }
    rewrite Hp, <- lor_low_high, Z.lor_spec by lia. f_equal.
    destruct (Z.leb_spec vb j).
    - rewrite Z.mul_pow2_bits by lia. apply Z.ones_spec_low. lia.
    - apply Z.mul_pow2_bits_low. lia. }
  split.
  - intros j Hj Hlt. rewrite to_signed_testbit by (unfold ptr_bits; lia).
    destruct (sign_fill true st gs vb) eqn:Hsf.
    + unfold sign_fill in Hsf. rewrite !andb_true_iff in Hsf.
      destruct Hsf as (_ & Hv%Z.ltb_lt).
      rewrite Hfill by lia.
      replace (vb <=? j) with false by (symmetry; apply Z.leb_gt; lia).
      apply orb_false_r.
    + apply Z.mod_pow2_bits_low. lia.
  - intros j Hj. rewrite to_signed_testbit by (unfold ptr_bits; lia).
    assert (Hstop : st = true).
    { destruct st; [reflexivity|]. specialize (Hst eq_refl). subst vb. lia. }
    subst st. unfold sign_fill. cbn [andb].
    replace (vb <? 64) with true by (symmetry; apply Z.ltb_lt; lia).
    rewrite andb_true_r.
    destruct (negb (Z.land (List.last gs 0) 64 =? 0)).
    + rewrite Hfill by lia.
      replace (vb <=? j) with true by (symmetry; apply Z.leb_le; lia).
      apply orb_true_r.
    + assert (2 ^ vb <= 2 ^ 64) by (apply Z.pow_le_mono_r; lia).
      rewrite Z.mod_small by lia.
      rewrite <- (Z.mod_small (leb_payload gs) (2 ^ vb)) by lia.
      apply Z.mod_pow2_bits_high. lia.
Qed.

End Leb128Theorem.

(** ** The record walk *)

Section RecordWalk.
Import CFI.
Local Open Scope Z_scope.

Lemma holds_app m a l1 l2 :
  holds m a (l1 ++ l2) <-> holds m a l1 /\ holds m (a + Z.of_nat (length l1)) l2.
Proof.
  unfold holds. split.
  - intros H. split.
    + intros i Hi. rewrite H by (rewrite length_app; lia).
      now rewrite app_nth1 by lia.
    + intros i Hi. replace (a + Z.of_nat (length l1) + Z.of_nat i)
        with (a + Z.of_nat (length l1 + i)) by lia.
      rewrite H by (rewrite length_app; lia).
      rewrite app_nth2 by lia. f_equal. lia.
  - intros [H1 H2] i Hi. rewrite length_app in Hi.
    destruct (Nat.lt_ge_cases i (length l1)).
    + rewrite app_nth1 by lia. now apply H1.
    + rewrite app_nth2 by lia.
      replace (a + Z.of_nat i) with (a + Z.of_nat (length l1) + Z.of_nat (i - length l1)) by lia.
      apply H2. lia.
Qed.

Lemma holds_cons m a b l :
  holds m a (b :: l) <-> load8 m a = b /\ holds m (a + 1) l.
Proof.
  change (b :: l) with ([b] ++ l). rewrite holds_app. simpl length.
  replace (a + Z.of_nat 1) with (a + 1) by lia.
  split; intros [H1 H2]; (split; [|exact H2]).
  - specialize (H1 O ltac:(simpl; lia)). simpl in H1. now rewrite Z.add_0_r in H1.
  - intros i Hi. simpl in Hi. replace i with O by lia. simpl. now rewrite Z.add_0_r.
Qed.

Lemma length_le_bytes n v : length (le_bytes n v) = n.
Proof. revert v; induction n; intros; simpl; auto. Qed.

Lemma load_le_bytes m n : forall a v,
  holds m a (le_bytes n v) -> load_le m a n = v mod 256 ^ Z.of_nat n.
Proof.
  induction n as [|n IH]; intros a v H.
  - simpl. now rewrite Z.mod_1_r.
  - cbn [le_bytes load_le] in *. apply holds_cons in H as [H1 H2].
    rewrite H1, (IH _ _ H2).
    replace (256 ^ Z.of_nat (S n)) with (256 * 256 ^ Z.of_nat n)
      by (rewrite Nat2Z.inj_succ, Z.pow_succ_r; lia).
    rewrite Z.rem_mul_r by (try apply Z.pow_nonzero; try apply Z.pow_pos_nonneg; lia).
    reflexivity.
Qed.

Lemma load32_le_bytes m a v rest :
  holds m a (le_bytes 4 v ++ rest) -> 0 <= v < 2 ^ 32 -> load32 m a = v.
Proof.
  intros H Hv. apply holds_app in H as [H _].
  unfold load32. rewrite (load_le_bytes _ _ _ _ H). apply Z.mod_small.
  change (256 ^ Z.of_nat 4) with (2 ^ 32). lia.
Qed.

Lemma length_encode_record r :
  Z.of_nat (length (encode_record r)) = 4 + rec_length r.
Proof.
  unfold encode_record, rec_length. rewrite !length_app, !length_le_bytes. lia.
Qed.

Lemma processFDEs_loop_records {S : Type} m End (f : Z -> S -> result S) :
  forall rs fuel P s tail,
    holds m P (encode_records rs ++ tail) ->
    Forall wf_record rs ->
    section_end_ok rs tail ->
    End = P + Z.of_nat (length (encode_records rs ++ tail)) ->
    (length rs < fuel)%nat ->
    processFDEs_loop m End f fuel P s = visit_all f (fde_entries P rs) s.
Proof.
  induction rs as [|r rs IH]; intros fuel P s tail Hm Hwf Hend HEnd Hfuel.
  - destruct Hend as [[_ Hne]|[rest ->]]; [congruence|].
    destruct fuel as [|fuel]; [simpl in Hfuel; lia|].
    simpl encode_records in *. rewrite app_nil_l in *.
    cbn [processFDEs_loop fde_entries visit_all].
    rewrite length_app, length_le_bytes in HEnd.
    replace (P + 4 <=? End) with true by (symmetry; apply Z.leb_le; lia).
    rewrite (load32_le_bytes _ _ 0 rest Hm) by lia. reflexivity.
  - destruct fuel as [|fuel]; [simpl in Hfuel; lia|].
    apply Forall_cons in Hwf as [[Hid Hlen] Hwf'].
    change (encode_records (r :: rs)) with (encode_record r ++ encode_records rs) in *.
    rewrite <- app_assoc in Hm.
    pose proof (length_encode_record r) as Hlr.
    assert (Hrl : 4 <= rec_length r) by (unfold rec_length; lia).
    rewrite <- app_assoc, length_app in HEnd.
    pose proof Hm as Hm0.
    apply holds_app in Hm as [Hr Hrest]. rewrite Hlr in Hrest.
    unfold encode_record in Hm0. rewrite <- !app_assoc in Hm0.
    pose proof (load32_le_bytes _ _ _ _ Hm0 ltac:(lia)) as HL.
    apply holds_app in Hm0 as [_ Hm1]. rewrite length_le_bytes in Hm1.
    pose proof (load32_le_bytes _ _ _ _ Hm1 ltac:(lia)) as HO.
    cbn [processFDEs_loop fde_entries]. change (Z.of_nat 4) with 4 in HO.
    rewrite HL, HO.
    replace (P + 4 <=? End) with true by (symmetry; apply Z.leb_le; lia).
    replace (rec_length r =? 0) with false by (symmetry; apply Z.eqb_neq; lia).
    replace (P + 4 + rec_length r <=? End) with true by (symmetry; apply Z.leb_le; lia).
    assert (Hvis : forall es,
              visit_all f ((if rec_id r =? 0 then [] else [P]) ++ es) s =
              bind (if negb (rec_id r =? 0) then f P s else Ok s) (fun s' => visit_all f es s')).
    { intros es. destruct (rec_id r =? 0); reflexivity. }
    rewrite Hvis. destruct (if negb (rec_id r =? 0) then f P s else Ok s) as [s'| |];
      cbn [bind]; try reflexivity.
    destruct (Z.eqb_spec (P + 4 + rec_length r) End) as [He|He]; cbn [negb].
    + assert (Hz : length (encode_records rs ++ tail) = O) by lia.
      destruct rs as [|r' rs]; [reflexivity|].
      exfalso. change (encode_records (r' :: rs)) with (encode_record r' ++ encode_records rs) in Hz.
      rewrite !length_app in Hz. pose proof (length_encode_record r').
      unfold rec_length in *. lia.
    + apply (IH fuel _ s' tail).
      * replace (P + 4 + rec_length r) with (P + (4 + rec_length r)) by lia. exact Hrest.
      * exact Hwf'.
      * destruct Hend as [[-> _]|Hterm]; [|now right].
        left. split; [reflexivity|]. intros ->.
        change (length (encode_records [] ++ [])) with O in HEnd. lia.
      * lia.
      * simpl in Hfuel. lia.
Qed.

Lemma length_encode_records rs :
  (length rs <= length (encode_records rs))%nat.
Proof.
  induction rs as [|r rs IH]; [simpl; lia|].
  change (encode_records (r :: rs)) with (encode_record r ++ encode_records rs).
  rewrite length_app. pose proof (length_encode_record r). unfold rec_length in *.
  simpl. lia.
Qed.

(** C7.  On a section made of records, each a 4-byte length, a 4-byte
    id and a body, that ends after its last record or with a zero length
    word, the walk calls the visitor on the records whose id is not zero,
    in address order, and on nothing else; records with id zero (CIEs)
    are skipped and whatever follows a zero length is not visited. *)
Theorem processFDEs_visits_fdes {S : Type} (m : memory) (Addr : Z)
    (rs : list cfi_record) (tail : list Z) (f : Z -> S -> result S) (s : S) :
  holds m Addr (encode_records rs ++ tail) ->
  Forall wf_record rs ->
  section_end_ok rs tail ->
  processFDEs m Addr (Z.of_nat (length (encode_records rs ++ tail))) f s =
  visit_all f (fde_entries Addr rs) s.
Proof.
  intros Hm Hwf Hend. unfold processFDEs.
  apply (processFDEs_loop_records m _ f rs _ Addr s tail); auto.
  rewrite Nat2Z.id, length_app. pose proof (length_encode_records rs). lia.
Qed.

(** The fuel given to the walk is never exhausted. *)
Lemma processFDEs_loop_total {S : Type} m End (f : Z -> S -> result S) :
  (forall e s, f e s <> OutOfFuel) ->
  forall fuel P s, (Z.to_nat (End - P) < fuel)%nat ->
    processFDEs_loop m End f fuel P s <> OutOfFuel.
Proof.
  intros Hf. induction fuel as [|fuel IH]; intros P s Hfuel; [lia|].
  cbn [processFDEs_loop].
  destruct (Z.leb_spec (P + 4) End); [|discriminate].
  destruct (Z.eqb_spec (load32 m P) 0); [discriminate|].
  destruct (Z.leb_spec (P + 4 + load32 m P) End); [|discriminate].
  assert (Hpos : 0 <= load32 m P).
  { unfold load32. simpl. pose proof (load8_range m P).
    pose proof (load8_range m (P + 1)). pose proof (load8_range m (P + 1 + 1)).
    pose proof (load8_range m (P + 1 + 1 + 1)). lia. }
  destruct (if negb (load32 m (P + 4) =? 0) then f P s else Ok s) as [s'| |] eqn:Hv;
    cbn [bind]; try discriminate.
  - destruct (negb (P + 4 + load32 m P =? End)); [|discriminate].
    apply IH. lia.
  - destruct (negb (load32 m (P + 4) =? 0)); [now apply Hf in Hv|discriminate].
Qed.

Lemma processFDEs_total {S : Type} m Addr Size (f : Z -> S -> result S) s :
  (forall e s, f e s <> OutOfFuel) -> processFDEs m Addr Size f s <> OutOfFuel.
Proof.
  intros Hf. unfold processFDEs. apply processFDEs_loop_total; [exact Hf|].
  replace (Addr + Size - Addr) with Size by lia. lia.
Qed.

Lemma holds_mem_of base bs :
  forallb (fun b => (0 <=? b) && (b <? 256)) bs = true ->
  holds (mem_of base bs) base bs.
Proof.
  intros Hb i Hi. unfold load8, mem_of.
  replace (base <=? base + Z.of_nat i) with true by (symmetry; apply Z.leb_le; lia).
  replace (base + Z.of_nat i <? base + Z.of_nat (length bs)) with true
    by (symmetry; apply Z.ltb_lt; lia).
  cbn [andb]. replace (base + Z.of_nat i - base) with (Z.of_nat i) by lia.
  rewrite Nat2Z.id. apply Z.mod_small.
  rewrite forallb_forall in Hb.
  specialize (Hb (nth i bs 0) (nth_In _ _ Hi)).
  apply andb_true_iff in Hb as [H1%Z.leb_le H2%Z.ltb_lt]. lia.
Qed.

Lemma processFDEs_visits_fdes_witness :
  let rs := [ {| rec_id := 0; rec_body := [1; 0; 0; 0] |};
              {| rec_id := 12; rec_body := [7; 7] |};
              {| rec_id := 22; rec_body := [] |} ] in
  let tail := le_bytes 4 0 ++ [9; 9] in
  let m := mem_of 4096 (encode_records rs ++ tail) in
  let f := fun (e : Z) (log : list Z) => Ok (log ++ [e]) in
  holds m 4096 (encode_records rs ++ tail) /\
  Forall wf_record rs /\
  section_end_ok rs tail /\
  processFDEs m 4096 (Z.of_nat (length (encode_records rs ++ tail))) f [] =
  Ok [4108; 4118].
Proof.
  cbv zeta.
  assert (H1 : holds (mem_of 4096 (encode_records
            [ {| rec_id := 0; rec_body := [1; 0; 0; 0] |};
              {| rec_id := 12; rec_body := [7; 7] |};
              {| rec_id := 22; rec_body := [] |} ] ++ le_bytes 4 0 ++ [9; 9])) 4096
            (encode_records
            [ {| rec_id := 0; rec_body := [1; 0; 0; 0] |};
              {| rec_id := 12; rec_body := [7; 7] |};
              {| rec_id := 22; rec_body := [] |} ] ++ le_bytes 4 0 ++ [9; 9])).
  { apply holds_mem_of. vm_compute. reflexivity. }
  assert (H2 : Forall wf_record
            [ {| rec_id := 0; rec_body := [1; 0; 0; 0] |};
              {| rec_id := 12; rec_body := [7; 7] |};
              {| rec_id := 22; rec_body := [] |} ]).
  { repeat (constructor; [unfold wf_record, rec_length; simpl; lia|]). constructor. }
  assert (H3 : section_end_ok
            [ {| rec_id := 0; rec_body := [1; 0; 0; 0] |};
              {| rec_id := 12; rec_body := [7; 7] |};
              {| rec_id := 22; rec_body := [] |} ] (le_bytes 4 0 ++ [9; 9])).
  { right. exists [9; 9]. reflexivity. }
  split; [exact H1|]. split; [exact H2|]. split; [exact H3|].
  rewrite (processFDEs_visits_fdes _ _ _ _ _ _ H1 H2 H3). reflexivity.
Defined.

End RecordWalk.

(** ** LEB128: decoding the reference encodings *)

Section LebRoundTrip.
Import CFI.
Local Open Scope Z_scope.

Lemma land_bit_low b k : 0 <= k -> 0 <= b < 2 ^ k -> Z.land b (2 ^ k) = 0.
Proof.
  intros Hk Hb. rewrite <- (Z.mul_1_l (2 ^ k)). now apply land_low_high.
Qed.

Lemma land_bit_high b k :
  0 <= k -> 2 ^ k <= b < 2 * 2 ^ k -> Z.land b (2 ^ k) = 2 ^ k.
Proof.
  intros Hk Hb.
  replace b with ((b - 2 ^ k) + 1 * 2 ^ k) by lia.
  rewrite <- lor_low_high by lia. rewrite Z.land_lor_distr_l.
  rewrite Z.mul_1_l, land_bit_low by lia. rewrite Z.land_diag. reflexivity.
Qed.

Lemma land_0x80_low b : 0 <= b < 128 -> (Z.land b 0x80 =? 0) = true.
Proof. intros H. apply Z.eqb_eq. apply (land_bit_low b 7); lia. Qed.

Lemma land_0x80_high b : 128 <= b < 256 -> (Z.land b 0x80 =? 0) = false.
Proof.
  intros H. apply Z.eqb_neq. change (Z.land b 128) with (Z.land b (2 ^ 7)).
  rewrite (land_bit_high b 7) by lia. lia.
Qed.

Lemma land_0x40_sign b : 0 <= b < 128 -> (Z.land b 0x40 =? 0) = (b <? 64).
Proof.
  intros H. destruct (Z.ltb_spec b 64).
  - apply Z.eqb_eq. apply (land_bit_low b 6); lia.
  - apply Z.eqb_neq. change (Z.land b 64) with (Z.land b (2 ^ 6)).
    rewrite (land_bit_high b 6) by lia. lia.
Qed.

Lemma leb_shape_nonempty bs : leb_shape bs -> bs <> [].
Proof. destruct bs; simpl; [tauto|discriminate]. Qed.

Lemma leb_groups_shape m End : forall bs n a rest,
  leb_shape bs -> (length bs <= n)%nat ->
  holds m a (bs ++ rest) -> a + Z.of_nat (length bs) <= End ->
  leb_groups m End n a = (bs, true).
Proof.
  induction bs as [|b bs IH]; intros n a rest Hs Hn Hm HE; [destruct Hs|].
  destruct n as [|n]; [simpl in Hn; lia|].
  rewrite <- app_comm_cons in Hm. apply holds_cons in Hm as [Hb Hm].
  cbn [leb_groups]. rewrite Hb.
  destruct bs as [|b' bs].
  - simpl in Hs. rewrite land_0x80_low by lia. reflexivity.
  - destruct Hs as [Hb' Hs]. rewrite land_0x80_high by lia.
    cbn [length] in HE, Hn.
    replace (End <=? a + 1) with false by (symmetry; apply Z.leb_gt; lia).
    cbn [orb]. rewrite (IH n (a + 1) rest Hs) by (simpl; lia || assumption).
    reflexivity.
Qed.

Lemma uleb128_fuel_spec n : forall v,
  (1 <= n)%nat -> 0 <= v < 2 ^ (7 * Z.of_nat n) ->
  leb_shape (uleb128_fuel n v) /\ (length (uleb128_fuel n v) <= n)%nat /\
  leb_payload (uleb128_fuel n v) = v.
Proof.
  induction n as [|n IH]; intros v Hn Hv; [lia|].
  cbn [uleb128_fuel]. destruct (Z.ltb_spec v 128).
  - simpl. rewrite land_7f, Z.mod_small by lia. repeat split; lia.
  - replace (7 * Z.of_nat (S n)) with (7 + 7 * Z.of_nat n) in Hv by lia.
    rewrite Z.pow_add_r in Hv by lia. change (2 ^ 7) with 128 in Hv.
    assert (Hq : 1 <= v / 128 < 2 ^ (7 * Z.of_nat n)).
    { split; [apply Z.div_le_lower_bound; lia|apply Z.div_lt_upper_bound; lia]. }
    assert (Hn1 : (1 <= n)%nat).
    { destruct n; [simpl in Hq; lia|lia]. }
    destruct (IH (v / 128) Hn1 ltac:(lia)) as (Hs & Hl & Hp).
    pose proof (Z.mod_pos_bound v 128 ltac:(lia)) as Hr.
    split; [|split].
    + cbn [leb_shape]. destruct (uleb128_fuel n (v / 128)) eqn:He; [destruct Hs|].
      split; [lia|exact Hs].
    + simpl. lia.
    + cbn [leb_payload]. rewrite Hp, land_7f.
      Z.to_euclidean_division_equations; lia.
Qed.

Lemma parse_uleb128 m p End v rest :
  holds m p (uleb128 v ++ rest) -> 0 <= v < 2 ^ 64 ->
  p + Z.of_nat (length (uleb128 v)) <= End ->
  parse_leb128 false m p End = (v, p + Z.of_nat (length (uleb128 v))).
Proof.
  intros Hm Hv HE.
  assert (Hv' : 0 <= v < 2 ^ (7 * Z.of_nat 10)).
  { change (2 ^ (7 * Z.of_nat 10)) with (64 * 2 ^ 64). lia. }
  destruct (uleb128_fuel_spec 10 v ltac:(lia) Hv') as (Hs & Hl & Hp).
  rewrite parse_leb128_pattern.
  rewrite (leb_groups_shape m End (uleb128 v) leb_max_groups p rest Hs Hl Hm HE).
  cbv zeta. unfold sign_fill, as_T. rewrite !andb_false_r. cbn [andb].
  unfold uleb128 at 1. rewrite Hp, Z.mod_small by lia. reflexivity.
Qed.

Lemma last_cons_nonempty (b : Z) bs d : bs <> [] -> List.last (b :: bs) d = List.last bs d.
Proof. destruct bs; [congruence|reflexivity]. Qed.

Lemma sleb128_fuel_spec n : forall v,
  (1 <= n)%nat -> - 2 ^ (7 * Z.of_nat n - 1) <= v < 2 ^ (7 * Z.of_nat n - 1) ->
  let bs := sleb128_fuel n v in
  let k := Z.of_nat (length bs) in
  leb_shape bs /\ (length bs <= n)%nat /\
  leb_payload bs = v mod 2 ^ (7 * k) /\
  - 2 ^ (7 * k - 1) <= v < 2 ^ (7 * k - 1) /\
  (Z.land (List.last bs 0) 0x40 =? 0) = (0 <=? v).
Proof.
  induction n as [|n IH]; intros v Hn Hv; [lia|].
  cbv zeta. cbn [sleb128_fuel].
  pose proof (Z.mod_pos_bound v 128 ltac:(lia)) as Hr.
  destruct (((v / 128 =? 0) && (v mod 128 <? 64)) || ((v / 128 =? -1) && (64 <=? v mod 128)))
    eqn:Hstop.
  - assert (Hsmall : - 64 <= v < 64).
    { apply orb_true_iff in Hstop as [H|H]; apply andb_true_iff in H as [H1 H2].
      - apply Z.eqb_eq in H1. apply Z.ltb_lt in H2.
        Z.to_euclidean_division_equations; lia.
      - apply Z.eqb_eq in H1. apply Z.leb_le in H2.
        Z.to_euclidean_division_equations; lia. }
    cbn [length leb_shape leb_payload List.last]. change (7 * Z.of_nat 1) with 7.
    change (2 ^ (7 - 1)) with 64. change (2 ^ 7) with 128.
    rewrite land_7f, Z.mod_mod, land_0x40_sign by lia.
    repeat split; try lia.
    destruct (Z.ltb_spec (v mod 128) 64), (Z.leb_spec 0 v); try reflexivity;
      exfalso; Z.to_euclidean_division_equations; lia.
  - assert (Hn1 : (1 <= n)%nat).
    { destruct n; [|lia]. exfalso. change (2 ^ (7 * Z.of_nat 1 - 1)) with 64 in Hv.
      apply orb_false_iff in Hstop as [H1 H2].
      apply andb_false_iff in H1, H2.
      rewrite !Z.eqb_neq, Z.ltb_ge in H1. rewrite !Z.eqb_neq, Z.leb_gt in H2.
      Z.to_euclidean_division_equations; lia. }
    assert (Hpow : 2 ^ (7 * Z.of_nat (S n) - 1) = 128 * 2 ^ (7 * Z.of_nat n - 1)).
    { replace (7 * Z.of_nat (S n) - 1) with (7 + (7 * Z.of_nat n - 1)) by lia.
      rewrite Z.pow_add_r by lia. reflexivity. }
    assert (Hq : - 2 ^ (7 * Z.of_nat n - 1) <= v / 128 < 2 ^ (7 * Z.of_nat n - 1)).
    { rewrite Hpow in Hv. split.
      - apply Z.div_le_lower_bound; lia.
      - apply Z.div_lt_upper_bound; lia. }
    destruct (IH (v / 128) Hn1 Hq) as (Hs & Hl & Hp & Hrange & Hsign).
    set (bs := sleb128_fuel n (v / 128)) in *.
    pose proof (leb_shape_nonempty _ Hs) as Hne.
    assert (Hk : 1 <= Z.of_nat (length bs)) by (destruct bs; [congruence|simpl; lia]).
    cbn [length]. rewrite last_cons_nonempty by exact Hne.
    assert (Hpk : 2 ^ (7 * Z.of_nat (S (length bs))) = 128 * 2 ^ (7 * Z.of_nat (length bs))).
    { replace (7 * Z.of_nat (S (length bs))) with (7 + 7 * Z.of_nat (length bs)) by lia.
      rewrite Z.pow_add_r by lia. reflexivity. }
    assert (Hpk1 : 2 ^ (7 * Z.of_nat (S (length bs)) - 1) = 128 * 2 ^ (7 * Z.of_nat (length bs) - 1)).
    { replace (7 * Z.of_nat (S (length bs)) - 1) with (7 + (7 * Z.of_nat (length bs) - 1)) by lia.
      rewrite Z.pow_add_r by lia. reflexivity. }
    split; [|split; [|split; [|split]]].
    + cbn [leb_shape]. destruct bs; [congruence|]. split; [lia|exact Hs].
    + lia.
    + cbn [leb_payload]. rewrite Hp, land_7f, Hpk.
      rewrite Z.rem_mul_r by (try apply Z.pow_pos_nonneg; lia).
      Z.to_euclidean_division_equations; lia.
    + rewrite Hpk1. Z.to_euclidean_division_equations; lia.
    + rewrite Hsign. destruct (Z.leb_spec 0 (v / 128)), (Z.leb_spec 0 v); try reflexivity;
        exfalso; Z.to_euclidean_division_equations; lia.
Qed.

Lemma to_signed_mod w v :
  0 < w -> - 2 ^ (w - 1) <= v < 2 ^ (w - 1) -> to_signed w (v mod 2 ^ w) = v.
Proof.
  intros Hw Hv. unfold to_signed.
  assert (Hp : 2 ^ w = 2 * 2 ^ (w - 1)).
  { replace w with (1 + (w - 1)) at 1 by lia. rewrite Z.pow_add_r by lia. reflexivity. }
  rewrite Z.mod_mod by lia.
  destruct (Z.ltb_spec (v mod 2 ^ w) (2 ^ (w - 1))).
  - destruct (Z.lt_ge_cases v 0).
    + rewrite <- (Z.mod_add v 1) in * by lia. rewrite Z.mod_small in * by lia. lia.
    + rewrite Z.mod_small in * by lia. lia.
  - destruct (Z.lt_ge_cases v 0).
    + rewrite <- (Z.mod_add v 1) in * by lia. rewrite Z.mod_small in * by lia. lia.
    + rewrite Z.mod_small in * by lia. lia.
Qed.

Lemma to_signed_nonneg w v : 0 < w -> 0 <= v < 2 ^ (w - 1) -> to_signed w v = v.
Proof.
  intros Hw Hv. rewrite <- (to_signed_mod w v) at 2 by lia.
  unfold to_signed. now rewrite Z.mod_mod by (apply Z.pow_nonzero; lia).
Qed.

Lemma to_signed_neg w v :
  0 < w -> - 2 ^ (w - 1) <= v < 0 -> to_signed w (v + 2 ^ w) = v.
Proof.
  intros Hw Hv. rewrite <- (to_signed_mod w v) at 2 by lia.
  unfold to_signed. rewrite Z.mod_mod by (apply Z.pow_nonzero; lia).
  assert (E : (v + 2 ^ w) mod 2 ^ w = v mod 2 ^ w).
  { rewrite <- (Z.mul_1_l (2 ^ w)) at 1. apply Z.mod_add. apply Z.pow_nonzero; lia. }
  rewrite E. reflexivity.
Qed.

Lemma parse_sleb128 m p End v rest :
  holds m p (sleb128 v ++ rest) -> - 2 ^ 63 <= v < 2 ^ 63 ->
  p + Z.of_nat (length (sleb128 v)) <= End ->
  parse_leb128 true m p End = (v, p + Z.of_nat (length (sleb128 v))).
Proof.
  intros Hm Hv HE.
  assert (Hv' : - 2 ^ (7 * Z.of_nat 10 - 1) <= v < 2 ^ (7 * Z.of_nat 10 - 1)).
  { change (2 ^ (7 * Z.of_nat 10 - 1)) with (64 * 2 ^ 63). lia. }
  destruct (sleb128_fuel_spec 10 v ltac:(lia) Hv') as (Hs & Hl & Hp & Hr & Hsign).
  fold (sleb128 v) in Hs, Hl, Hp, Hr, Hsign.
  rewrite parse_leb128_pattern.
  rewrite (leb_groups_shape m End (sleb128 v) leb_max_groups p rest Hs Hl Hm HE).
  cbv zeta. f_equal. unfold sign_fill, as_T, ptr_bits. cbn [andb]. rewrite andb_true_r.
  rewrite Hsign, Hp.
  set (k := Z.of_nat (length (sleb128 v))) in *.
  assert (Hk : 1 <= k <= 10).
  { subst k. pose proof (leb_shape_nonempty _ Hs). destruct (sleb128 v); [congruence|].
    simpl in *. lia. }
  assert (Hpk : 0 < 2 ^ (7 * k)) by (apply Z.pow_pos_nonneg; lia).
  assert (Hpk1 : 2 ^ (7 * k) = 2 * 2 ^ (7 * k - 1)).
  { replace (7 * k) with (1 + (7 * k - 1)) at 1 by lia. rewrite Z.pow_add_r by lia. reflexivity. }
  destruct (Z.ltb_spec (7 * k) 64) as [Hlt|Hge].
  - assert (Hle : 2 ^ (7 * k) <= 2 ^ 63) by (apply Z.pow_le_mono_r; lia).
    pose proof (Z.mod_pos_bound v (2 ^ (7 * k)) Hpk) as Hmb.
    rewrite (Z.mod_small (v mod _)) by lia.
    destruct (Z.leb_spec 0 v); cbn [negb andb].
    + rewrite Z.mod_small by lia. apply to_signed_nonneg; lia.
    + replace (v mod 2 ^ (7 * k)) with (v + 2 ^ (7 * k)).
      2:{ rewrite <- (Z.mod_add v 1) by lia. rewrite Z.mod_small; lia. }
      replace (v + 2 ^ (7 * k) + (2 ^ 64 - 2 ^ (7 * k))) with (v + 2 ^ 64) by lia.
      apply to_signed_neg; lia.
  - assert (k = 10) by lia.
    rewrite andb_false_r.
    replace (7 * k) with 70 by lia.
    rewrite Z.mod_mod_divide by (exists 64; reflexivity).
    apply to_signed_mod; lia.
Qed.

End LebRoundTrip.

(** ** CIE parsing and FDE decoding *)

Section FdeDecoding.
Import CFI.
Local Open Scope Z_scope.

Lemma shiftr7_low b : 0 <= b < 128 -> (Z.shiftr b 7 =? 0) = true.
Proof.
  intros H. rewrite Z.shiftr_div_pow2 by lia. change (2 ^ 7) with 128.
  rewrite Z.div_small by lia. reflexivity.
Qed.

Lemma shiftr7_high b : 128 <= b < 256 -> (Z.shiftr b 7 =? 0) = false.
Proof.
  intros H. rewrite Z.shiftr_div_pow2 by lia. change (2 ^ 7) with 128.
  apply Z.eqb_neq. Z.to_euclidean_division_equations; lia.
Qed.

Lemma consume_leb128_loop_shape m End : forall bs fuel p rest,
  leb_shape bs -> holds m p (bs ++ rest) ->
  p + Z.of_nat (length bs) <= End -> (length bs <= fuel)%nat ->
  consume_leb128_loop m End fuel p = p + Z.of_nat (length bs) - 1.
Proof.
  induction bs as [|b bs IH]; intros fuel p rest Hs Hm HE Hf; [destruct Hs|].
  destruct fuel as [|fuel]; [simpl in Hf; lia|].
  rewrite <- app_comm_cons in Hm. apply holds_cons in Hm as [Hb Hm].
  cbn [consume_leb128_loop]. rewrite Hb.
  destruct bs as [|b' bs].
  - simpl in Hs. rewrite shiftr7_low by lia. simpl. lia.
  - destruct Hs as [Hb' Hs]. rewrite shiftr7_high by lia.
    cbn [length] in HE, Hf.
    replace (p <? End) with true by (symmetry; apply Z.ltb_lt; lia).
    cbn [negb andb]. rewrite (IH fuel (p + 1) rest Hs Hm) by (simpl; lia).
    cbn [length]. lia.
Qed.

Lemma consume_leb128_shape m End bs p rest :
  leb_shape bs -> holds m p (bs ++ rest) ->
  p + Z.of_nat (length bs) <= End ->
  consume_leb128 m p End = p + Z.of_nat (length bs).
Proof.
  intros Hs Hm HE. unfold consume_leb128.
  rewrite (consume_leb128_loop_shape m End bs _ p rest Hs Hm HE) by lia. lia.
Qed.

Lemma strlen_loop_spec m : forall s fuel p n rest,
  Forall (fun ch => ch <> 0) s -> holds m (p + n) (s ++ 0 :: rest) ->
  (length s < fuel)%nat ->
  strlen_loop m fuel p n = Ok (n + Z.of_nat (length s)).
Proof.
  induction s as [|c s IH]; intros fuel p n rest Hnz Hm Hf;
    (destruct fuel as [|fuel]; [simpl in Hf; lia|]); cbn [strlen_loop].
  - apply holds_cons in Hm as [Hb _]. rewrite Hb. simpl. f_equal. lia.
  - rewrite <- app_comm_cons in Hm. apply holds_cons in Hm as [Hb Hm].
    apply Forall_cons in Hnz as [Hc Hnz]. rewrite Hb.
    replace (c =? 0) with false by (symmetry; now apply Z.eqb_neq).
    replace (p + n + 1) with (p + (n + 1)) in Hm by lia.
    rewrite (IH fuel p (n + 1) rest Hnz Hm) by (simpl in Hf; lia).
    f_equal. cbn [length]. lia.
Qed.

Lemma skip_personality_spec m cie_end enc ptr p rest :
  wf_personality enc ptr -> holds m p (ptr ++ rest) ->
  p + Z.of_nat (length ptr) <= cie_end ->
  skip_personality m cie_end enc p = Ok (p + Z.of_nat (length ptr)).
Proof.
  unfold wf_personality, skip_personality. cbv zeta. intros Hwf Hm HE.
  repeat match type of Hwf with
         | if ?c then _ else _ => destruct c
         end.
  - now rewrite (consume_leb128_shape m cie_end ptr p rest).
  - rewrite Hwf. reflexivity.
  - rewrite Hwf. reflexivity.
  - rewrite Hwf. reflexivity.
  - rewrite Hwf. reflexivity.
  - destruct Hwf as [[-> | ->] ->]; reflexivity.
Qed.

Lemma aug_char_cases a :
  (exists len, a = AugZ len) \/ (exists l, a = AugL l) \/
  (exists e p, a = AugP e p) \/ a = AugS.
Proof. destruct a; eauto 6. Qed.

Lemma parse_augmentation_spec m cie_end enc : forall augs fuel augp p rest_chars rest,
  Forall wf_aug_item augs ->
  holds m augp (map aug_char augs ++ 82 :: rest_chars) ->
  holds m p (concat (map aug_data augs) ++ enc :: rest) ->
  p + Z.of_nat (length (concat (map aug_data augs))) + 1 <= cie_end ->
  (length augs < fuel)%nat ->
  parse_augmentation m cie_end fuel augp p = Ok enc.
Proof.
  induction augs as [|a augs IH]; intros fuel augp p rest_chars rest Hwf Hc Hd HE Hf;
    (destruct fuel as [|fuel]; [simpl in Hf; lia|]); cbn [parse_augmentation].
  - cbn [map app concat] in Hc, Hd.
    apply holds_cons in Hc as [Hc _]. apply holds_cons in Hd as [Hd _].
    rewrite Hc, Hd. reflexivity.
  - apply Forall_cons in Hwf as [Ha Hwf].
    cbn [map concat] in Hc, Hd, HE. rewrite <- app_comm_cons in Hc.
    apply holds_cons in Hc as [Hch Hc]. rewrite Hch.
    rewrite <- app_assoc in Hd. rewrite length_app in HE.
    assert (Hf' : (length augs < fuel)%nat) by (simpl in Hf; lia).
    destruct a as [len|lsda|pe ptr|]; cbn [aug_char aug_data wf_aug_item] in *.
    + change (122 =? 122) with true. cbv iota.
      rewrite (consume_leb128_shape m cie_end len p _ Ha Hd) by lia.
      apply holds_app in Hd as [_ Hd].
      replace (p + Z.of_nat (length len) <=? cie_end) with true
        by (symmetry; apply Z.leb_le; lia).
      apply (IH fuel _ _ rest_chars rest Hwf Hc Hd); lia.
    + change (76 =? 122) with false. change (76 =? 76) with true. cbv iota.
      cbn [app length] in Hd, HE. apply holds_cons in Hd as [_ Hd].
      replace (p + 1 <=? cie_end) with true by (symmetry; apply Z.leb_le; lia).
      apply (IH fuel _ _ rest_chars rest Hwf Hc Hd); lia.
    + change (80 =? 122) with false. change (80 =? 76) with false.
      change (80 =? 82) with false. change (80 =? 80) with true. cbv iota.
      rewrite <- app_comm_cons in Hd. apply holds_cons in Hd as [He Hd].
      cbn [length] in HE. rewrite He.
      rewrite (skip_personality_spec m cie_end pe ptr (p + 1) _ Ha Hd) by lia.
      cbn [bind]. apply holds_app in Hd as [_ Hd].
      replace (p + 1 + Z.of_nat (length ptr) <=? cie_end) with true
        by (symmetry; apply Z.leb_le; lia).
      apply (IH fuel _ _ rest_chars rest Hwf Hc Hd); lia.
    + change (83 =? 122) with false. change (83 =? 76) with false.
      change (83 =? 82) with false. change (83 =? 80) with false. cbv iota.
      cbn [app length] in Hd, HE.
      apply (IH fuel _ _ rest_chars rest Hwf Hc Hd); lia.
Qed.

Lemma aug_char_nonzero augs : Forall (fun ch => ch <> 0) (map aug_char augs).
Proof.
  apply List.Forall_forall. intros ch Hin. apply in_map_iff in Hin as (a & <- & _).
  destruct a; discriminate.
Qed.

Lemma parseCIE_spec fuel m C End c :
  holds m C (cie_bytes c) -> wf_cie c ->
  C + Z.of_nat (length (cie_bytes c)) <= End ->
  (cie_fuel c <= fuel)%nat ->
  parseCIE fuel m C End = Ok (cie_enc c).
Proof.
  intros Hm (Hver & Haugs & Hrest & Hda & Hra & Hlen) HEnd Hfuel.
  unfold cie_fuel in Hfuel.
  unfold cie_bytes in Hm, HEnd.
  rewrite !length_app, !length_le_bytes in HEnd.
  pose proof (load32_le_bytes _ _ _ _ Hm ltac:(lia)) as L0.
  apply holds_app in Hm as [_ Hm]. rewrite length_le_bytes in Hm.
  change (Z.of_nat 4) with 4 in Hm.
  pose proof (load32_le_bytes _ _ _ _ Hm ltac:(lia)) as L4.
  apply holds_app in Hm as [_ Hm]. rewrite length_le_bytes in Hm.
  change (Z.of_nat 4) with 4 in Hm.
  assert (Hbody : length (cie_body c) =
            (1 + (length (cie_augs c) + 1 + length (cie_aug_rest c) + 1) + 1 +
             length (cie_data_align c) + length (cie_ra c) +
             (length (concat (map aug_data (cie_augs c))) + 1) +
             length (cie_insns c))%nat).
  { unfold cie_body. rewrite !length_app, length_map. simpl. lia. }
  set (s := map aug_char (cie_augs c) ++ 82 :: cie_aug_rest c).
  assert (Hbeq : cie_body c = cie_version c ::
            (s ++ 0 :: cie_code_align c ::
               cie_data_align c ++ cie_ra c ++
               concat (map aug_data (cie_augs c)) ++ cie_enc c :: cie_insns c)).
  { subst s. unfold cie_body. repeat (cbn [app]; rewrite <- app_assoc). reflexivity. }
  rewrite Hbeq in Hm. clear Hbeq.
  (* version *)
  apply holds_cons in Hm as [Hv Hm].
  (* augmentation string *)
  assert (Hslen : length s = (length (cie_augs c) + 1 + length (cie_aug_rest c))%nat).
  { subst s. rewrite length_app, length_map. simpl. lia. }
  assert (Hsnz : Forall (fun ch => ch <> 0) s).
  { subst s. apply Forall_app. split; [apply aug_char_nonzero|].
    apply Forall_cons. split; [discriminate|exact Hrest]. }
  pose proof Hm as Hstr.
  apply holds_app in Hm as [Haugc Hm].
  apply holds_cons in Hm as [_ Hm].
  (* code alignment *)
  apply holds_cons in Hm as [_ Hm].
  (* data alignment, return address register, augmentation data *)
  pose proof Hm as Hdal.
  apply holds_app in Hm as [_ Hm].
  pose proof Hm as Hral.
  apply holds_app in Hm as [_ Hm].
  unfold parseCIE. rewrite L0, L4, Hv.
  replace (C + 4 + (4 + Z.of_nat (length (cie_body c))) <=? End) with true
    by (symmetry; apply Z.leb_le; lia).
  change (0 =? 0) with true. cbv iota.
  replace ((cie_version c =? 1) || (cie_version c =? 3)) with true
    by (destruct Hver as [-> | ->]; reflexivity).
  cbv iota. unfold strlen.
  rewrite (strlen_loop_spec m s fuel (C + 4 + 4 + 1) 0 _ Hsnz)
    by (try lia; replace (C + 4 + 4 + 1 + 0) with (C + 4 + 4 + 1) by lia; exact Hstr).
  cbn [bind]. rewrite Z.add_0_l.
  set (q := C + 4 + 4 + 1 + Z.of_nat (length s) + 1 + 1) in *.
  replace (C + 4 + 4 + 1 + (Z.of_nat (length s) + 1) + 1) with q by (subst q; lia).
  set (cie_end := C + 4 + (4 + Z.of_nat (length (cie_body c)))).
  assert (Hce : cie_end = q + Z.of_nat (length (cie_data_align c)) +
                          Z.of_nat (length (cie_ra c)) +
                          Z.of_nat (length (concat (map aug_data (cie_augs c)))) + 1 +
                          Z.of_nat (length (cie_insns c))).
  { subst cie_end q. rewrite Hbody, Hslen. lia. }
  replace (q <=? cie_end) with true by (symmetry; apply Z.leb_le; lia).
  cbv iota.
  rewrite (consume_leb128_shape m cie_end _ q _ Hda Hdal) by lia.
  assert (Hrap : (if cie_version c =? 1
                  then q + Z.of_nat (length (cie_data_align c)) + 1
                  else consume_leb128 m (q + Z.of_nat (length (cie_data_align c))) cie_end) =
                 q + Z.of_nat (length (cie_data_align c)) + Z.of_nat (length (cie_ra c))).
  { destruct (cie_version c =? 1).
    - rewrite Hra. reflexivity.
    - apply (consume_leb128_shape m cie_end _ _ _ Hra Hral). lia. }
  rewrite Hrap.
  apply (parse_augmentation_spec m cie_end (cie_enc c) (cie_augs c) fuel _ _
           (cie_aug_rest c) (cie_insns c) Haugs).
  - subst s. apply holds_app in Hstr as [Hstr _]. exact Hstr.
  - exact Hm.
  - lia.
  - lia.
Qed.

Lemma load_le_field m p n v rest :
  holds m p (le_bytes n v ++ rest) -> load_le m p n = v mod 256 ^ Z.of_nat n.
Proof. intros H. apply holds_app in H as [H _]. now apply load_le_bytes. Qed.

Lemma wrap64_small v : 0 <= v < 2 ^ 64 -> wrap64 v = v.
Proof. intros. unfold wrap64. now apply Z.mod_small. Qed.

Lemma wrap64_signed v : - 2 ^ 63 <= v < 2 ^ 63 -> wrap64 (to_signed 64 (v mod 2 ^ 64)) = wrap64 v.
Proof. intros. now rewrite to_signed_mod by lia. Qed.

(** C2.  Let an FDE be laid out with its two address fields written in
    one of the supported encodings (an absolute pointer, or pc-relative
    uleb128, sleb128, pointer-sized signed, or 2, 4 or 8 byte unsigned or
    signed data), and let its CIE be well formed and announce that
    encoding with the ['R'] character of its augmentation string.  Then,
    with enough fuel, the table builder decodes exactly the encoded pair:
    the size as written, and the start as written for an absolute pointer
    and relative to the address [Entry + 8] of the start-address field
    for the pc-relative encodings. *)
Theorem fde_range_exact (fuel : nat) (m : memory) (Addr Size C Entry enc0 : Z)
    (c : cie_desc) (e : fde_encoding) (rest : list Z) (start size : Z) :
  (cie_fuel c <= fuel)%nat ->
  holds m C (cie_bytes c) ->
  wf_cie c ->
  cie_enc c = encoding_byte e ->
  C + Z.of_nat (length (cie_bytes c)) <= Addr + Size ->
  C <> NULL ->
  holds m Entry (fde_bytes (Entry + 4 - C)
                   (field_bytes e start ++ field_bytes e size) rest) ->
  0 <= Entry + 4 - C < 2 ^ 32 ->
  4 + Z.of_nat (length (field_bytes e start ++ field_bytes e size) + length rest) < 2 ^ 32 ->
  field_range e start -> field_range e size ->
  fde_range fuel m Addr Size NULL enc0 Entry =
  Ok (encoding_byte e, resolved_start e (Entry + 8) start, wrap64 size).
Proof.
  intros Hfuel Hcie Hwf Henc HEnd HC Hfde Hid Hlen Hrs Hrz.
  pose proof (parseCIE_spec fuel m C (Addr + Size) c Hcie Hwf HEnd Hfuel) as Hparse.
  rewrite Henc in Hparse. clear Hcie Hwf Henc HEnd Hfuel.
  unfold fde_bytes in Hfde.
  pose proof (load32_le_bytes _ _ _ _ Hfde ltac:(lia)) as L0.
  apply holds_app in Hfde as [_ Hfde]. rewrite length_le_bytes in Hfde.
  change (Z.of_nat 4) with 4 in Hfde.
  pose proof (load32_le_bytes _ _ _ _ Hfde ltac:(lia)) as L4.
  apply holds_app in Hfde as [_ Hfde]. rewrite length_le_bytes in Hfde.
  change (Z.of_nat 4) with 4 in Hfde.
  replace (Entry + 4 + 4) with (Entry + 8) in Hfde by lia.
  rewrite <- app_assoc in Hfde.
  unfold fde_range. rewrite L0, L4.
  replace (Entry + 4 - (Entry + 4 - C)) with C by lia.
  replace (negb (C =? NULL)) with true
    by (symmetry; apply negb_true_iff, Z.eqb_neq; exact HC).
  rewrite Hparse. cbn [bind].
  rewrite length_app in Hlen |- *.
  set (fde_end := Entry + 4 + (4 + Z.of_nat (length (field_bytes e start) + length (field_bytes e size) + length rest))).
  unfold sizeof_ptr, load16, load32, load64.
  destruct e as [|f]; [|destruct f]; cbn [encoding_byte field_bytes field_range format_range
    encode_value resolved_start format_code] in *; eval_tests.
  all: rewrite ?length_le_bytes in *.
  all: try match goal with
       | |- context [?a <=? ?b] =>
           replace (a <=? b) with true by (symmetry; apply Z.leb_le; lia); cbv iota
       end.
  all: try (pose proof Hfde as Hf2; apply holds_app in Hf2 as [_ Hf2];
            rewrite length_le_bytes in Hf2;
            rewrite (load_le_field _ _ _ _ _ Hfde);
            match type of Hf2 with
            | holds _ (_ + Z.of_nat ?k) _ =>
                let kz := eval cbv in (Z.of_nat k) in change (Z.of_nat k) with kz in Hf2
            end;
            rewrite (load_le_field _ _ _ _ _ Hf2)).
  - (* absptr *)
    change (256 ^ Z.of_nat 8) with (2 ^ 64). fold (wrap64 size).
    rewrite Z.mod_small by lia. reflexivity.
  - (* uleb128 *)
    rewrite (parse_uleb128 m (Entry + 8) fde_end start _ Hfde Hrs)
      by (subst fde_end; lia).
    apply holds_app in Hfde as [_ Hfde].
    rewrite (parse_uleb128 m _ fde_end size _ Hfde Hrz)
      by (subst fde_end; lia).
    rewrite (wrap64_small size) by lia. reflexivity.
  - change (256 ^ Z.of_nat 2) with (2 ^ 16).
    rewrite !Z.mod_small by lia. rewrite (wrap64_small size) by lia. reflexivity.
  - change (256 ^ Z.of_nat 4) with (2 ^ 32).
    rewrite !Z.mod_small by lia. rewrite (wrap64_small size) by lia. reflexivity.
  - change (256 ^ Z.of_nat 8) with (2 ^ 64).
    rewrite !Z.mod_small by lia. rewrite (wrap64_small size) by lia. reflexivity.
  - change (256 ^ Z.of_nat 8) with (2 ^ 64).
    rewrite !to_signed_mod by lia. reflexivity.
  - (* sleb128 *)
    rewrite (parse_sleb128 m (Entry + 8) fde_end start _ Hfde Hrs)
      by (subst fde_end; lia).
    apply holds_app in Hfde as [_ Hfde].
    rewrite (parse_sleb128 m _ fde_end size _ Hfde Hrz)
      by (subst fde_end; lia).
    reflexivity.
  - change (256 ^ Z.of_nat 2) with (2 ^ 16).
    rewrite !to_signed_mod by lia. reflexivity.
  - change (256 ^ Z.of_nat 4) with (2 ^ 32).
    rewrite !to_signed_mod by lia. reflexivity.
  - change (256 ^ Z.of_nat 8) with (2 ^ 64).
    rewrite !to_signed_mod by lia. reflexivity.
Qed.

Lemma sample_cie_wf : wf_cie (zR_cie 1 1 0x78 16 (encoding_byte (Pcrel Fsdata4)) [12; 7; 8]).
Proof.
  unfold wf_cie. cbn.
  split; [now left|]. split; [repeat constructor; lia|]. split; [constructor|].
  split; [lia|]. split; [reflexivity|lia].
Qed.

Lemma fde_range_exact_witness :
  holds (mem_of 4096 sample_eh_frame) 4096 sample_cie /\
  holds (mem_of 4096 sample_eh_frame) 4116 sample_fde /\
  fde_range 3 (mem_of 4096 sample_eh_frame) 4096 40 NULL DW_EH_PE_omit 4116 =
  Ok (0x1b, 4024, 64).
Proof.
  assert (Hall : holds (mem_of 4096 sample_eh_frame) 4096 (sample_cie ++ sample_fde)).
  { apply holds_mem_of. vm_compute. reflexivity. }
  apply holds_app in Hall as [Hc Hf].
  change (4096 + Z.of_nat (length sample_cie)) with 4116 in Hf.
  split; [exact Hc|]. split; [exact Hf|].
  apply (fde_range_exact 3 (mem_of 4096 sample_eh_frame) 4096 40 4096 4116 DW_EH_PE_omit
           (zR_cie 1 1 0x78 16 (encoding_byte (Pcrel Fsdata4)) [12; 7; 8])
           (Pcrel Fsdata4) [0; 0; 0; 0] (-100) 64).
  - change (3 <= 3)%nat. lia.
  - exact Hc.
  - exact sample_cie_wf.
  - reflexivity.
  - change (4096 + 20 <= 4096 + 40). lia.
  - unfold NULL. lia.
  - exact Hf.
  - lia.
  - change (4 + 12 < 2 ^ 32). lia.
  - cbn. lia.
  - cbn. lia.
Defined.

Example register_eh_frames_sample :
  register_eh_frames 3 (mem_of 4096 sample_eh_frame) 4096 40 =
  Ok [SystemRegisterFrame 4096;
      DynRegister {| di_gp := 0; di_segbase := 4096; di_table_len := 1;
                     di_table_data := [ {| start_ip_offset := 0; fde_offset := 20 |} ];
                     di_start_ip := 4024; di_end_ip := 4088 |}].
Proof. vm_compute. reflexivity. Qed.

(** The combination of the pc-relative modifier with the absolute
    pointer format (encoding byte [0x10]) is not among the cases of the
    builder: it runs into the assertion of the [default] branch. *)
Example pcrel_absptr_unsupported :
  let cie := cie_zR 1 1 0x78 16 0x10 [12; 7; 8] in
  let fde := fde_bytes 24 (le_bytes 8 100 ++ le_bytes 8 64) [] in
  fde_range 3 (mem_of 4096 (cie ++ fde)) 4096 44 NULL DW_EH_PE_omit 4116 = AssertFail.
Proof. vm_compute. reflexivity. Qed.

(** A CIE with personality routine and LSDA encoding in front of the
    ['R'] entry (augmentation ["zPLR"]), as C++ code has it. *)
Example parseCIE_zPLR :
  let c := {| cie_version := 3;
              cie_augs := [AugZ [7]; AugP 0x9b [1; 2; 3; 4]; AugL 0x1b];
              cie_aug_rest := []; cie_code_align := 1; cie_data_align := [0x78];
              cie_ra := [16]; cie_enc := 0x1b; cie_insns := [12; 7; 8] |} in
  parseCIE (cie_fuel c) (mem_of 4096 (cie_bytes c)) 4096
           (4096 + Z.of_nat (length (cie_bytes c))) = Ok 0x1b.
Proof. vm_compute. reflexivity. Qed.

End FdeDecoding.

(** ** The registry: pending symbols, lookup by address, empty images *)

Section RegistryFacts.
Import Registry.
Local Open Scope Z_scope.

Lemma foldr_better_bound_None {V} p (l : list (Z * V)) :
  foldr (better_bound p) None l = None ->
  forall k' v', (k', v') ∈ l -> p < k'.
Proof.
  induction l as [|[k0 v0] l IH]; intros Hf k' v' Hin; [now apply elem_of_nil in Hin|].
  simpl in Hf. unfold better_bound at 1 in Hf. simpl in Hf.
  destruct (Z.leb_spec k0 p).
  - destruct (foldr (better_bound p) None l) as [[k3 v3]|]; [|discriminate].
    simpl in Hf. destruct (k3 <? k0); discriminate.
  - apply elem_of_cons in Hin as [[= -> ->]|Hin]; [lia|]. now apply IH with v'.
Qed.

Lemma foldr_better_bound_Some {V} p (l : list (Z * V)) k v :
  foldr (better_bound p) None l = Some (k, v) ->
  (k, v) ∈ l /\ k <= p /\ forall k' v', (k', v') ∈ l -> k' <= p -> k' <= k.
Proof.
  revert k v. induction l as [|[k0 v0] l IH]; intros k v; simpl; [discriminate|].
  unfold better_bound at 1. simpl.
  destruct (Z.leb_spec k0 p) as [Hle|Hgt].
  - destruct (foldr (better_bound p) None l) as [[k1 v1]|] eqn:Hf.
    + destruct (IH k1 v1 eq_refl) as (Hin & Hk1 & Hmax). simpl.
      destruct (Z.ltb_spec k1 k0) as [Hlt|Hge]; intros [= <- <-].
      * split; [left|]. split; [exact Hle|].
        intros k' v' Hin' Hk'. apply elem_of_cons in Hin' as [[= -> ->]|Hin']; [lia|].
        specialize (Hmax _ _ Hin' Hk'). lia.
      * split; [now right|]. split; [exact Hk1|].
        intros k' v' Hin' Hk'. apply elem_of_cons in Hin' as [[= -> ->]|Hin']; [lia|].
        now apply (Hmax _ _ Hin').
    + intros [= <- <-]. split; [left|]. split; [exact Hle|].
      intros k' v' Hin' Hk'. apply elem_of_cons in Hin' as [[= -> ->]|Hin']; [lia|].
      pose proof (foldr_better_bound_None p l Hf k' v' Hin'). lia.
  - intros Hf. destruct (IH k v Hf) as (Hin & Hk & Hmax).
    split; [now right|]. split; [exact Hk|].
    intros k' v' Hin' Hk'. apply elem_of_cons in Hin' as [[= -> ->]|Hin']; [lia|].
    now apply (Hmax _ _ Hin').
Qed.

Lemma lower_bound_Some {V} (m : gmap Z V) p k v :
  lower_bound m p = Some (k, v) ->
  m !! k = Some v /\ k <= p /\ forall k' v', m !! k' = Some v' -> k' <= p -> k' <= k.
Proof.
  unfold lower_bound. intros H. apply foldr_better_bound_Some in H as (Hin & Hk & Hmax).
  split; [now apply elem_of_map_to_list|]. split; [exact Hk|].
  intros k' v' Hl. apply Hmax with v'. now apply elem_of_map_to_list.
Qed.

Lemma lower_bound_None {V} (m : gmap Z V) p :
  lower_bound m p = None -> forall k' v', m !! k' = Some v' -> p < k'.
Proof.
  unfold lower_bound. intros H k' v' Hl.
  apply (foldr_better_bound_None _ _ H k' v'). now apply elem_of_map_to_list.
Qed.

Lemma lower_bound_greatest {V} (m : gmap Z V) p k v :
  m !! k = Some v -> k <= p ->
  (forall k' v', m !! k' = Some v' -> k' <= p -> k' <= k) ->
  lower_bound m p = Some (k, v).
Proof.
  intros Hl Hk Hmax. destruct (lower_bound m p) as [[k1 v1]|] eqn:Hlb.
  - apply lower_bound_Some in Hlb as (Hl1 & Hk1 & Hmax1).
    assert (k1 = k) as -> by (specialize (Hmax _ _ Hl1 Hk1); specialize (Hmax1 _ _ Hl Hk); lia).
    congruence.
  - pose proof (lower_bound_None _ _ Hlb _ _ Hl). lia.
Qed.




Section Fold.
Context (P : Platform) (gla : string -> Z) (ptr : nat).

Lemma register_symbol_skip st s sz :
  text_function s = None -> register_symbol P gla ptr st (s, sz) = st.
Proof. unfold register_symbol. simpl. now intros ->. Qed.

Lemma fold_cimap_origin l : forall st k v,
  ls_cimap (foldl (register_symbol P gla ptr) st l) !! k = Some v ->
  ls_cimap st !! k = Some v \/
  exists s sz sec, (s, sz) ∈ l /\ text_function s = Some sec /\
                   k = final_address gla s sec.
Proof.
  induction l as [|[s sz] l IH]; intros st k v H; simpl in H; [now left|].
  apply IH in H as [H|(s' & sz' & sec' & Hin & Ht & Hk)].
  - unfold register_symbol in H. simpl in H.
    destruct (text_function s) as [sec|] eqn:Ht; [|now left]. simpl in H.
    destruct (negb _); [|now left].
    destruct (decide (k = final_address gla s sec)) as [->|Hne].
    + right. exists s, sz, sec. split; [left|]. split; auto.
    + rewrite lookup_insert_ne in H by congruence. now left.
  - right. exists s', sz', sec'. split; [now right|]. split; auto.
Qed.


Lemma fold_entry_kept l : forall st A v,
  ls_cimap st !! A = Some v ->
  (forall s sz sec, (s, sz) ∈ l -> text_function s = Some sec ->
                    final_address gla s sec <> A) ->
  ls_cimap (foldl (register_symbol P gla ptr) st l) !! A = Some v.
Proof.
  induction l as [|[s sz] l IH]; intros st A v Hp Hn; simpl; [exact Hp|].
  apply IH.
  - unfold register_symbol. simpl.
    destruct (text_function s) as [sec|] eqn:Ht; [|exact Hp]. simpl.
    destruct (negb _); [|exact Hp].
    rewrite lookup_insert_ne; [exact Hp|].
    apply (Hn s sz sec); [left|exact Ht].
  - intros s' sz' sec' Hin. apply (Hn s' sz' sec'). now right.
Qed.





End Fold.

Lemma text_function_is_function s sec :
  text_function s = Some sec -> is_function (sym_type s) = true.
Proof. unfold text_function. destruct (is_function _); [reflexivity|discriminate]. Qed.




(** C9.  Registering an object image without function-typed symbols
    returns the registry as it was: pending map, address map, section
    map, the store of images, the byte counter and the log of platform
    registrations are all unchanged. *)
Theorem registerJITObject_no_functions (P : Platform) (obj : ObjectFile)
    (gla : string -> Z) (r : JITDebugInfoRegistry) :
  (forall s sz, (s, sz) ∈ obj_symbols obj -> sym_type s <> ST_Function) ->
  registerJITObject P obj gla r = r.
Proof.
  intros Hno. unfold registerJITObject.
  destruct (existsb _ _) eqn:He; [|reflexivity].
  apply existsb_exists in He as (s & Hin & Hf).
  apply in_map_iff in Hin as ([s' sz] & <- & Hin).
  apply list_elem_of_In in Hin. specialize (Hno _ _ Hin). simpl in Hf.
  destruct (sym_type s'); try discriminate. congruence.
Qed.

Lemma registerJITObject_no_functions_witness :
  (forall s sz, (s, sz) ∈ obj_symbols data_only -> sym_type s <> ST_Function) /\
  registerJITObject plain_platform data_only load_at_0x1000
    (add_code_in_flight "X" 11 empty_registry) =
  add_code_in_flight "X" 11 empty_registry.
Proof.
  assert (H : forall s sz, (s, sz) ∈ obj_symbols data_only -> sym_type s <> ST_Function).
  { intros s sz Hin. apply list_elem_of_singleton in Hin as [= -> ->]. discriminate. }
  split; [exact H|]. apply registerJITObject_no_functions. exact H.
Defined.

End RegistryFacts.

(** ** Frame expansion and the entry point *)

Section SymbolicationFacts.
Import Registry Symbolication.
Local Open Scope Z_scope.

Lemma int_of_uint32_small z : 0 <= z < 2 ^ 31 -> int_of_uint32 z = z.
Proof.
  intros Hz. unfold int_of_uint32, wrap32. rewrite (Z.mod_small z) by lia.
  apply to_signed_nonneg; lia.
Qed.

Lemma frame_count (ctx : DIContext) sec a :
  int_of_uint32 (Z.of_nat (length (getInliningInfoForAddress ctx sec a))) =
  Z.of_nat (length (getInliningInfoForAddress ctx sec a)).
Proof. apply int_of_uint32_small. pose proof (frames_fit_int ctx sec a). lia. Qed.

Section FillFrame.
Context (ctx : DIContext) (sec addr : Z) (infos : list DILineInfo)
        (fromC0 : bool) (n : Z) (i : nat) (f : jl_frame_t).



Lemma fill_frame_line :
  line (fill_frame false ctx sec addr infos fromC0 n i f) = to_signed 32 (Line (nth i infos no_line_info)).
Proof. unfold fill_frame. cbn [negb]. fill_cases. Qed.

Lemma fill_frame_file :
  file_name (fill_frame false ctx sec addr infos fromC0 n i f) = shown_file (FileName (nth i infos no_line_info)).
Proof. unfold fill_frame, shown_file. cbn [negb]. fill_cases. Qed.

Lemma fill_frame_inlined :
  inlined (fill_frame false ctx sec addr infos fromC0 n i f) =
  if negb (Z.of_nat i =? n - 1) then true else inlined f.
Proof.
  unfold fill_frame. cbn [negb]. fill_cases.
Qed.

Lemma fill_frame_name :
  func_name (fill_frame false ctx sec addr infos fromC0 n i f) =
  shown_name (negb (Z.of_nat i =? n - 1) && negb fromC0)
             (FunctionName (nth i infos no_line_info)).
Proof.
  unfold fill_frame, shown_name. cbn [negb].
  destruct (negb (Z.of_nat i =? n - 1) && negb fromC0); fill_cases.
Qed.

End FillFrame.

(** With inlining suppressed, and on the paths without context, exactly
    one frame comes back. *)
Lemma lookup_pointer_nocontext_one frame0 demangle :
  (lookup_pointer_nocontext frame0 demangle).1 = 1 /\
  length (lookup_pointer_nocontext frame0 demangle).2 = 1%nat.
Proof.
  unfold lookup_pointer_nocontext. destruct demangle; [|split; reflexivity].
  destruct (func_name frame0); split; reflexivity.
Qed.

Lemma lookup_pointer_noInline E Section context frame0 pointer slide demangle :
  (lookup_pointer E Section context frame0 pointer slide demangle true).1 = 1 /\
  length (lookup_pointer E Section context frame0 pointer slide demangle true).2 = 1%nat.
Proof.
  unfold lookup_pointer.
  destruct context as [ctx|]; [|apply lookup_pointer_nocontext_one].
  destruct Section as [sec|]; [|apply lookup_pointer_nocontext_one].
  destruct (negb (lock_context E)); [apply lookup_pointer_nocontext_one|].
  destruct (_ =? 0); [apply lookup_pointer_nocontext_one|].
  cbn. split; reflexivity.
Qed.

(** Every path of [lookup_pointer] returns a positive count and an array
    of that many frames. *)
Lemma lookup_pointer_count E Section context frame0 pointer slide demangle noInline :
  1 <= (lookup_pointer E Section context frame0 pointer slide demangle noInline).1 /\
  Z.of_nat (length (lookup_pointer E Section context frame0 pointer slide demangle noInline).2) =
  (lookup_pointer E Section context frame0 pointer slide demangle noInline).1.
Proof.
  assert (Hnc : forall f d, 1 <= (lookup_pointer_nocontext f d).1 /\
            Z.of_nat (length (lookup_pointer_nocontext f d).2) = (lookup_pointer_nocontext f d).1).
  { intros f d. destruct (lookup_pointer_nocontext_one f d) as [-> ->]. split; lia. }
  destruct noInline.
  { destruct (lookup_pointer_noInline E Section context frame0 pointer slide demangle)
      as [-> ->]. split; lia. }
  unfold lookup_pointer.
  destruct context as [ctx|]; [|apply Hnc].
  destruct Section as [sec|]; [|apply Hnc].
  destruct (negb (lock_context E)); [apply Hnc|].
  rewrite frame_count.
  set (len := length (getInliningInfoForAddress ctx sec (wrap64 (pointer + slide)))).
  destruct (Z.eqb_spec (Z.of_nat len) 0); [apply Hnc|].
  cbn [fst snd]. split; [lia|].
  rewrite length_imap. destruct (Z.ltb_spec 1 (Z.of_nat len)).
  - rewrite length_app, length_replicate. simpl. lia.
  - simpl. lia.
Qed.

(** C4.  When the lock is obtained and the context reports a chain of
    [n >= 1] frames for the address, the resolution without suppression
    returns [n] and an array of [n] frames, the frame at each position
    built from the context's frame at the same position (innermost
    first), every frame but the last marked as inlined; with inlining
    suppressed it returns exactly one frame. *)
Theorem inlining_expansion (E : Env) (ctx : DIContext) (sec : Z)
    (frame0 : jl_frame_t) (pointer slide : Z) (demangle : bool) :
  lock_context E = true ->
  let infos := getInliningInfoForAddress ctx sec (wrap64 (pointer + slide)) in
  (1 <= length infos)%nat ->
  let full := lookup_pointer E (Some sec) (Some ctx) frame0 pointer slide demangle false in
  let single := lookup_pointer E (Some sec) (Some ctx) frame0 pointer slide demangle true in
  full.1 = Z.of_nat (length infos) /\
  length full.2 = length infos /\
  (forall (i : nat) info, infos !! i = Some info ->
     exists f, full.2 !! i = Some f /\
       line f = to_signed 32 (Line info) /\
       file_name f = shown_file (FileName info) /\
       inlined f = (if Nat.eqb (S i) (length infos) then inlined frame0 else true) /\
       func_name f = shown_name (negb (Nat.eqb (S i) (length infos)) && negb (fromC frame0))
                                (FunctionName info)) /\
  single.1 = 1 /\ length single.2 = 1%nat.
Proof.
  intros Hlock infos Hn full single.
  split; [|split; [|split]].
  4: apply lookup_pointer_noInline.
  all: subst full; unfold lookup_pointer; rewrite Hlock; cbn [negb];
    rewrite frame_count; fold infos;
    replace (Z.of_nat (length infos) =? 0) with false by (symmetry; apply Z.eqb_neq; lia);
    cbn [fst snd].
  - reflexivity.
  - rewrite length_imap. destruct (Z.ltb_spec 1 (Z.of_nat (length infos))).
    + rewrite length_app, length_replicate. simpl. lia.
    + simpl. lia.
  - intros i info Hi.
    pose proof (lookup_lt_Some _ _ _ Hi) as Hlt.
    assert (Hinit : (if 1 <? Z.of_nat (length infos)
                     then replicate (Z.to_nat (Z.of_nat (length infos) - 1)) zero_frame ++ [frame0]
                     else [frame0]) =
                    replicate (length infos - 1) zero_frame ++ [frame0]).
    { destruct (Z.ltb_spec 1 (Z.of_nat (length infos))).
      - f_equal. f_equal. lia.
      - replace (length infos - 1)%nat with O by lia. reflexivity. }
    rewrite Hinit. rewrite list_lookup_imap.
    replace (Z.of_nat i <? Z.of_nat (length infos)) with true
      by (symmetry; apply Z.ltb_lt; lia).
    assert (Hnth : nth i infos no_line_info = info).
    { apply nth_lookup_Some with (d := no_line_info) in Hi. exact Hi. }
    assert (Hin : negb (Z.of_nat i =? Z.of_nat (length infos) - 1) =
                  negb (Nat.eqb (S i) (length infos))).
    { f_equal. destruct (Z.eqb_spec (Z.of_nat i) (Z.of_nat (length infos) - 1)),
        (Nat.eqb_spec (S i) (length infos)); try reflexivity; lia. }
    destruct (Nat.eqb_spec (S i) (length infos)) as [Hlast|Hnot].
    + replace (length infos - 1)%nat with i by lia.
      rewrite lookup_app_r by (rewrite length_replicate; lia).
      rewrite length_replicate, Nat.sub_diag. cbn [lookup list_lookup fmap option_fmap option_map].
      eexists. split; [reflexivity|].
      rewrite fill_frame_line, fill_frame_file, fill_frame_inlined, fill_frame_name, Hnth, Hin.
      replace (S i =? length infos)%nat with true by (symmetry; apply Nat.eqb_eq; lia).
      cbn [negb]. repeat split; reflexivity.
    + rewrite lookup_app_l by (rewrite length_replicate; lia).
      rewrite lookup_replicate_2 by lia. cbn [fmap option_fmap option_map].
      eexists. split; [reflexivity|].
      rewrite fill_frame_line, fill_frame_file, fill_frame_inlined, fill_frame_name, Hnth, Hin.
      replace (S i =? length infos)%nat with false by (symmetry; apply Nat.eqb_neq; lia).
      cbn [negb]. repeat split; reflexivity.
Qed.

Lemma inlining_expansion_witness :
  (lookup_pointer (sample_env plain_platform) (Some 1) (Some three_frames)
     (set_line (-1) zero_frame) 0x1000 0 true false).1 = 3 /\
  length (lookup_pointer (sample_env plain_platform) (Some 1) (Some three_frames)
     (set_line (-1) zero_frame) 0x1000 0 true false).2 = 3%nat /\
  (lookup_pointer (sample_env plain_platform) (Some 1) (Some three_frames)
     (set_line (-1) zero_frame) 0x1000 0 true true).1 = 1.
Proof.
  pose proof (inlining_expansion (sample_env plain_platform) three_frames 1
                (set_line (-1) zero_frame) 0x1000 0 true eq_refl) as H.
  cbv zeta in H. specialize (H ltac:(simpl; lia)).
  destruct H as (H1 & H2 & _ & H3 & _).
  split; [exact H1|]. split; [exact H2|exact H3].
Defined.

Example three_inlined_frames :
  lookup_pointer (sample_env plain_platform) (Some 1) (Some three_frames)
    (set_line (-1) zero_frame) 0x1000 0 true false =
  (3, [ {| func_name := Some (list_ascii_of_string "inner");
           file_name := Some (list_ascii_of_string "/src/a.jl");
           line := 10; ci := NULL; fromC := false; inlined := true |};
        {| func_name := Some (list_ascii_of_string "middle");
           file_name := Some (list_ascii_of_string "/src/a.jl");
           line := 20; ci := NULL; fromC := false; inlined := true |};
        {| func_name := Some (list_ascii_of_string "outer");
           file_name := Some (list_ascii_of_string "/src/b.jl");
           line := 30; ci := NULL; fromC := false; inlined := false |} ]).
Proof. vm_compute. reflexivity. Qed.

(** C10.  For every address, every registry, every behaviour of the
    collaborators and both flags, the entry point returns a count of at
    least one and an array of exactly that many frames; when neither the
    registry nor the dynamic loader knows the address, the array holds
    the initial frame (all fields zero, line [-1]) marked as foreign. *)
Theorem getFunctionInfo_at_least_one (E : Env) (r : JITDebugInfoRegistry)
    (pointer : Z) (skipC noInline : bool) :
  let res := jl_getFunctionInfo_impl E r pointer skipC noInline in
  1 <= res.1.1 /\
  Z.of_nat (length res.1.2) = res.1.1 /\
  (di_found (jl_DI_for_fptr E r pointer true).1 = false ->
   jl_dylib_DI_for_fptr E pointer skipC = None ->
   res.1 = (1, [set_fromC true (set_line (-1) zero_frame)])).
Proof.
  cbv zeta. unfold jl_getFunctionInfo_impl.
  destruct (jl_DI_for_fptr E r pointer true) as [di r'].
  cbn [fst snd]. destruct (di_found di).
  - cbn [fst snd].
    split; [apply lookup_pointer_count|]. split; [apply lookup_pointer_count|].
    discriminate.
  - cbn [fst snd]. unfold jl_getDylibFunctionInfo.
    destruct (jl_dylib_DI_for_fptr E pointer skipC) as [d|].
    + split; [apply lookup_pointer_count|]. split; [apply lookup_pointer_count|].
      discriminate.
    + cbn. split; [lia|]. split; reflexivity.
Qed.

End SymbolicationFacts.

(** ** Lazy decompression of stored images *)

Section LazyImages.
Import Registry Symbolication.
Local Open Scope Z_scope.

Lemma set_image_same ptr l r :
  images r !! ptr = Some l -> set_image ptr l 0 r = r.
Proof.
  intros H. unfold set_image. destruct r; cbn in *.
  rewrite (insert_id _ _ _ H), Z.add_0_r. reflexivity.
Qed.

(** A lookup that reaches an unusable image reports the section record
    as found, without section and without context, and changes nothing. *)
Lemma jl_DI_for_fptr_unusable E r fptr w si l :
  lock_registry E = true -> hits r fptr si ->
  images r !! si_object si = Some l -> unusable l ->
  jl_DI_for_fptr E r fptr w =
  ({| di_found := true; di_slide := si_slide si;
      di_Section := None; di_context := None |}, r).
Proof.
  intros Hlock (first & Hlb & Hin) Hl (Hd & Ho).
  unfold jl_DI_for_fptr. rewrite Hlock, Hlb. cbn [negb].
  replace (fptr <? wrap64 (first + SectionSize si)) with true
    by (symmetry; now apply Z.ltb_lt).
  rewrite Hl, Hd. cbn [is_nil orb]. rewrite Ho.
  now rewrite (set_image_same _ _ _ Hl).
Qed.

(** A lookup that reaches a parsed image with a memoized context returns
    them and changes nothing, whatever the collaborators are. *)
Lemma jl_DI_for_fptr_memoized E r fptr w si l obj ctx :
  lock_registry E = true -> hits r fptr si ->
  images r !! si_object si = Some l ->
  object l = Some obj -> context l = Some ctx ->
  jl_DI_for_fptr E r fptr w =
  ({| di_found := true; di_slide := si_slide si;
      di_Section := Some (SectionIndex si);
      di_context := if w then Some ctx else None |}, r).
Proof.
  intros Hlock (first & Hlb & Hin) Hl Ho Hc.
  unfold jl_DI_for_fptr. rewrite Hlock, Hlb. cbn [negb].
  replace (fptr <? wrap64 (first + SectionSize si)) with true
    by (symmetry; now apply Z.ltb_lt).
  rewrite Hl.
  replace (bool_decide (is_Some (object l))) with true
    by (symmetry; apply bool_decide_eq_true; rewrite Ho; eauto).
  rewrite orb_true_r, Ho, Hc. cbn [default].
  f_equal.
  rewrite <- (set_image_same _ _ _ Hl) at 2. f_equal.
  destruct l; cbn in *. subst. destruct w; reflexivity.
Qed.

(** No lookup changes the section map, nor an image that is unusable or
    fully memoized. *)
Lemma jl_DI_for_fptr_objectmap E r fptr w :
  objectmap (jl_DI_for_fptr E r fptr w).2 = objectmap r.
Proof.
  unfold jl_DI_for_fptr.
  repeat match goal with
         | |- context [if ?c then _ else _] => destruct c
         | |- context [match ?c with Some _ => _ | None => _ end] => destruct c
         | |- context [let '(_, _) := ?c in _] => destruct c
         end; reflexivity.
Qed.

Lemma jl_DI_for_fptr_settled E r fptr w i l :
  images r !! i = Some l -> settled l ->
  images (jl_DI_for_fptr E r fptr w).2 !! i = Some l.
Proof.
  intros Hl Hs. unfold jl_DI_for_fptr.
  destruct (negb (lock_registry E)); [exact Hl|].
  destruct (lower_bound (objectmap r) fptr) as [[first si]|]; [|exact Hl].
  destruct (fptr <? wrap64 (first + SectionSize si)); [|exact Hl].
  destruct (decide (si_object si = i)) as [->|Hne].
  - rewrite Hl. destruct Hs as [[Hd Ho]|[[obj Ho] [ctx Hc]]].
    + rewrite Hd. cbn [is_nil orb]. rewrite Ho. cbn. apply lookup_insert_eq.
    + replace (bool_decide (is_Some (object l))) with true
        by (symmetry; apply bool_decide_eq_true; rewrite Ho; eauto).
      rewrite orb_true_r, Ho, Hc. cbn. rewrite lookup_insert_eq. f_equal.
      destruct l; cbn in *. subst. destruct w; reflexivity.
  - destruct (images r !! si_object si) as [l0|]; [|exact Hl].
    destruct (if is_nil (data l0) || bool_decide (is_Some (object l0)) then _ else _) as [l1 bytes].
    destruct (object l1); cbn; now rewrite lookup_insert_ne.
Qed.

Lemma jl_DI_for_fptr_next_image E r fptr w :
  next_image (jl_DI_for_fptr E r fptr w).2 = next_image r.
Proof.
  unfold jl_DI_for_fptr.
  repeat match goal with
         | |- context [if ?c then _ else _] => destruct c
         | |- context [match ?c with Some _ => _ | None => _ end] => destruct c
         | |- context [let '(_, _) := ?c in _] => destruct c
         end; reflexivity.
Qed.

Lemma jl_getFunctionInfo_impl_registry E r pointer skipC noInline :
  (jl_getFunctionInfo_impl E r pointer skipC noInline).2 =
  (jl_DI_for_fptr E r pointer true).2.
Proof.
  unfold jl_getFunctionInfo_impl.
  destruct (jl_DI_for_fptr E r pointer true) as [di r'].
  destruct (di_found di); reflexivity.
Qed.

(** No operation changes a settled image, and none reuses its place in
    the store. *)
Lemma step_settled r o i l :
  images r !! i = Some l -> settled l -> (i < next_image r)%nat ->
  images (step r o) !! i = Some l /\ (i < next_image (step r o))%nat.
Proof.
  intros Hl Hs Hi. destruct o as [E fptr w|E p s n|P obj gla|name c|info]; cbn [step].
  - split; [now apply jl_DI_for_fptr_settled|].
    now rewrite jl_DI_for_fptr_next_image.
  - rewrite jl_getFunctionInfo_impl_registry.
    split; [now apply jl_DI_for_fptr_settled|].
    now rewrite jl_DI_for_fptr_next_image.
  - unfold registerJITObject. destruct (negb _); [now split|].
    cbn [images next_image]. split; [|lia].
    destruct (ls_hassection _); [|exact Hl].
    rewrite lookup_insert_ne by lia. exact Hl.
  - now split.
  - now split.
Qed.

Lemma run_settled ops : forall r i l,
  images r !! i = Some l -> settled l -> (i < next_image r)%nat ->
  images (run ops r) !! i = Some l.
Proof.
  induction ops as [|o ops IH]; intros r i l Hl Hs Hi; [exact Hl|].
  cbn. destruct (step_settled r o i l Hl Hs Hi) as [Hl' Hi']. now apply IH.
Qed.

(** C8.  Let a lookup reach, for the first time, an image that is stored
    compressed.  If decompression fails, the lookup still reports the
    section record as found, with no section and no context, and leaves
    the image without bytes and without object; after any further
    operations on the registry (lookups, resolutions, registrations),
    every lookup into a section of that image gives the same answer and
    changes nothing, and the entry point returns the single frame without
    debug information.  If decompression and the parse of
    the plain bytes succeed, the plain bytes replace the compressed ones,
    the object and the context are stored with the image, and every later
    lookup into the image returns them without touching the image again,
    whatever the codec and the parser would answer then. *)
Theorem lazy_decompression (E : Env) (r : JITDebugInfoRegistry) (fptr : Z)
    (si : SectionInfo) (l : LazyObjectInfo) :
  lock_registry E = true ->
  hits r fptr si ->
  images r !! si_object si = Some l ->
  (si_object si < next_image r)%nat ->
  object l = None -> data l <> [] -> uncompressedsize l <> 0 ->
  let F := if zstd_isAvailable (platform E) then Zstd else Zlib in
  let first := jl_DI_for_fptr E r fptr true in
  (decompress (platform E) F (data l) (uncompressedsize l) = None ->
   first.1 = {| di_found := true; di_slide := si_slide si;
                di_Section := None; di_context := None |} /\
   images first.2 !! si_object si =
     Some {| data := []; uncompressedsize := 0; object := None; context := context l |} /\
   forall ops E' fptr' si' w skipC noInline,
     let r2 := run ops first.2 in
     lock_registry E' = true -> hits r2 fptr' si' -> si_object si' = si_object si ->
     jl_DI_for_fptr E' r2 fptr' w =
       ({| di_found := true; di_slide := si_slide si';
           di_Section := None; di_context := None |}, r2) /\
     jl_getFunctionInfo_impl E' r2 fptr' skipC noInline =
       (1, [set_fromC true (set_ci (lookupCodeInstance r2 fptr') (set_line (-1) zero_frame))],
        r2)) /\
  (forall unpacked obj,
   decompress (platform E) F (data l) (uncompressedsize l) = Some unpacked ->
   unpacked <> [] -> createObjectFile E unpacked = Some obj ->
   let ctx := default (DWARFContext_create E obj) (context l) in
   first.1 = {| di_found := true; di_slide := si_slide si;
                di_Section := Some (SectionIndex si); di_context := Some ctx |} /\
   images first.2 !! si_object si =
     Some {| data := unpacked; uncompressedsize := 0;
             object := Some obj; context := Some ctx |} /\
   forall ops E' fptr' si' w,
     let r2 := run ops first.2 in
     lock_registry E' = true -> hits r2 fptr' si' -> si_object si' = si_object si ->
     jl_DI_for_fptr E' r2 fptr' w =
       ({| di_found := true; di_slide := si_slide si';
           di_Section := Some (SectionIndex si');
           di_context := if w then Some ctx else None |}, r2)).
Proof.
  intros Hlock Hhits Hl Hnext Ho Hd Hu F first.
  assert (Hnil : is_nil (data l) = false) by (destruct (data l); [congruence|reflexivity]).
  assert (Hfirst : first =
            let '(l0, bytes) := decompress_image E l in
            let l1 := parse_image E l0 in
            match object l1 with
            | Some obj =>
                let ctx := Some (default (DWARFContext_create E obj) (context l1)) in
                ({| di_found := true; di_slide := si_slide si;
                    di_Section := Some (SectionIndex si); di_context := ctx |},
                 set_image (si_object si)
                   {| data := data l1; uncompressedsize := uncompressedsize l1;
                      object := object l1; context := ctx |} bytes r)
            | None =>
                ({| di_found := true; di_slide := si_slide si;
                    di_Section := None; di_context := None |},
                 set_image (si_object si) l1 bytes r)
            end).
  { subst first. destruct Hhits as (k & Hlb & Hin).
    unfold jl_DI_for_fptr. rewrite Hlock, Hlb. cbn [negb].
    replace (fptr <? wrap64 (k + SectionSize si)) with true
      by (symmetry; now apply Z.ltb_lt).
    rewrite Hl, Hnil, Ho. cbn [orb].
    replace (bool_decide (is_Some (@None ObjectFile))) with false
      by (symmetry; apply bool_decide_eq_false; intros [? ?]; discriminate).
    destruct (decompress_image E l) as [l0 bytes]. reflexivity. }
  assert (Hdec : decompress_image E l =
            let data' := match decompress (platform E) F (data l) (uncompressedsize l) with
                         | None => []
                         | Some unpacked => unpacked
                         end in
            ({| data := data'; uncompressedsize := 0; object := object l; context := context l |},
             Z.of_nat (length data') - uncompressedsize l)).
  { unfold decompress_image.
    replace (negb (uncompressedsize l =? 0)) with true
      by (symmetry; apply negb_true_iff, Z.eqb_neq; exact Hu).
    reflexivity. }
  rewrite Hdec in Hfirst. cbv zeta in Hfirst.
  split.
  - intros Hfail. rewrite Hfail in Hfirst. cbn in Hfirst. rewrite Ho in Hfirst.
    rewrite Hfirst. cbn [fst snd]. split; [reflexivity|].
    assert (Himg : images (set_image (si_object si)
                     {| data := []; uncompressedsize := 0; object := None; context := context l |}
                     (0 - uncompressedsize l) r) !! si_object si =
                   Some {| data := []; uncompressedsize := 0; object := None; context := context l |}).
    { cbn. apply lookup_insert_eq. }
    split; [exact Himg|].
    intros ops E' fptr' si' w skipC noInline.
    match goal with |- context [run ops ?x] => set (r2 := run ops x) end.
    intros Hlock' Hhits' Hsame.
    assert (Hun : unusable {| data := []; uncompressedsize := 0; object := None; context := context l |})
      by (split; reflexivity).
    assert (Himg2 : images r2 !! si_object si' =
                    Some {| data := []; uncompressedsize := 0; object := None; context := context l |}).
    { rewrite Hsame. subst r2. apply run_settled; [exact Himg|now left|exact Hnext]. }
    split; [exact (jl_DI_for_fptr_unusable E' r2 fptr' w si' _ Hlock' Hhits' Himg2 Hun)|].
    unfold jl_getFunctionInfo_impl.
    rewrite (jl_DI_for_fptr_unusable E' r2 fptr' true si' _ Hlock' Hhits' Himg2 Hun).
    reflexivity.
  - intros unpacked obj Hok Hne Hparse ctx.
    rewrite Hok in Hfirst. unfold parse_image in Hfirst. cbn [data] in Hfirst.
    assert (Hnil' : is_nil unpacked = false) by (destruct unpacked; [congruence|reflexivity]).
    rewrite Hnil', Hparse in Hfirst. cbn in Hfirst.
    rewrite Hfirst. cbn [fst snd]. split; [reflexivity|].
    assert (Himg : images (set_image (si_object si)
                     {| data := unpacked; uncompressedsize := 0; object := Some obj;
                        context := Some ctx |}
                     (Z.of_nat (length unpacked) - uncompressedsize l) r) !! si_object si =
                   Some {| data := unpacked; uncompressedsize := 0; object := Some obj;
                           context := Some ctx |}).
    { cbn. apply lookup_insert_eq. }
    split; [exact Himg|].
    intros ops E' fptr' si' w.
    match goal with |- context [run ops ?x] => set (r2 := run ops x) end.
    intros Hlock' Hhits' Hsame.
    assert (Himg2 : images r2 !! si_object si' =
                    Some {| data := unpacked; uncompressedsize := 0; object := Some obj;
                            context := Some ctx |}).
    { rewrite Hsame. subst r2. apply run_settled; [exact Himg| |exact Hnext].
      right. split; eexists; reflexivity. }
    exact (jl_DI_for_fptr_memoized E' r2 fptr' w si' _ obj ctx Hlock' Hhits' Himg2 eq_refl eq_refl).
Qed.

Lemma lazy_decompression_witness :
  let E := sample_env broken_codec in
  let r := registerJITObject broken_codec two_functions load_at_0x1000 empty_registry in
  images r !! O = Some {| data := [40; 127; 69; 76; 70]; uncompressedsize := 4;
                          object := None; context := None |} /\
  (jl_DI_for_fptr E r 0x1000 true).1 =
    {| di_found := true; di_slide := -4096; di_Section := None; di_context := None |} /\
  images (jl_DI_for_fptr E r 0x1000 true).2 !! O =
    Some {| data := []; uncompressedsize := 0; object := None; context := None |}.
Proof.
  cbv zeta.
  set (E := sample_env broken_codec).
  set (r := registerJITObject broken_codec two_functions load_at_0x1000 empty_registry).
  set (si := {| si_object := O; SectionSize := 0x40; si_slide := -4096; SectionIndex := 1 |}).
  set (l := {| data := [40; 127; 69; 76; 70]; uncompressedsize := 4;
               object := None; context := None |}).
  assert (Hl : images r !! si_object si = Some l) by (vm_compute; reflexivity).
  assert (Hhits : hits r 0x1000 si).
  { exists 0x1000. split; vm_compute; reflexivity. }
  split; [exact Hl|].
  destruct (lazy_decompression E r 0x1000 si l eq_refl Hhits Hl ltac:(vm_compute; lia)
              eq_refl ltac:(discriminate) ltac:(discriminate)) as [Hfail _].
  destruct (Hfail eq_refl) as (H1 & H2 & _).
  split; [exact H1|exact H2].
Defined.

Example lazy_decompression_success :
  let E := sample_env prefix_codec in
  let r := registerJITObject prefix_codec two_functions load_at_0x1000 empty_registry in
  images r !! O = Some {| data := [40; 127; 69; 76; 70]; uncompressedsize := 4;
                          object := None; context := None |} /\
  data <$> images (jl_DI_for_fptr E r 0x1008 true).2 !! O = Some [127; 69; 76; 70] /\
  di_Section (jl_DI_for_fptr E r 0x1008 true).1 = Some 1.
Proof. vm_compute. repeat split; reflexivity. Qed.

End LazyImages.

(** ** Split debug information *)

Section DebugLinkFacts.
Import Registry DebugLink.
Local Open Scope Z_scope.

Lemma crc32_table_standard : g_crc32_tab = map crc32_table_entry (seq 0 256).
Proof. vm_compute. reflexivity. Qed.

(** The check value of CRC-32. *)
Example crc32_check_value :
  calc_gnu_debuglink_crc32 (bytes_of "123456789") = 0xCBF43926.
Proof. vm_compute. reflexivity. Qed.

Lemma openDebugInfo_accepts F path info obj :
  openDebugInfo F path info = inl obj <->
  exists bytes, getFile F path = Some bytes /\
                calc_gnu_debuglink_crc32 bytes = dl_crc32 info /\
                createObjectFile F bytes = Some obj.
Proof.
  unfold openDebugInfo. split.
  - destruct (getFile F path) as [bytes|]; [|discriminate].
    destruct (Z.eqb_spec (calc_gnu_debuglink_crc32 bytes) (dl_crc32 info)); [|discriminate].
    cbn [negb]. destruct (createObjectFile F bytes) as [o|] eqn:Ho; [|discriminate].
    intros [= <-]. exists bytes. repeat split; auto.
  - intros (bytes & -> & Hcrc & Hobj). rewrite Hcrc, Z.eqb_refl, Hobj. reflexivity.
Qed.

Lemma openDebugInfo_mismatch F path info bytes :
  getFile F path = Some bytes ->
  calc_gnu_debuglink_crc32 bytes <> dl_crc32 info ->
  openDebugInfo F path info = inr ChecksumMismatch.
Proof.
  intros Hf Hne. unfold openDebugInfo. rewrite Hf.
  destruct (Z.eqb_spec (calc_gnu_debuglink_crc32 bytes) (dl_crc32 info)); [contradiction|].
  reflexivity.
Qed.

Lemma find_debuglink_file_order F fname info :
  find_debuglink_file F fname info = first_accepted F info (candidates fname info).
Proof.
  unfold find_debuglink_file, candidates.
  destruct (String.eqb (base_of fname) (dl_filename info)); cbn [negb app first_accepted fst snd is_ok].
  - destruct (openDebugInfo F (dir_of fname ++ ".debug/" ++ dl_filename info) info);
      cbn [negb is_ok fst snd]; [reflexivity|].
    destruct (openDebugInfo F ("/usr/lib/debug/" ++ dir_of fname ++ dl_filename info) info);
      reflexivity.
  - destruct (openDebugInfo F (dir_of fname ++ dl_filename info) info);
      cbn [negb is_ok fst snd]; [reflexivity|].
    destruct (openDebugInfo F (dir_of fname ++ ".debug/" ++ dl_filename info) info);
      cbn [negb is_ok fst snd]; [reflexivity|].
    destruct (openDebugInfo F ("/usr/lib/debug/" ++ dir_of fname ++ dl_filename info) info);
      reflexivity.
Qed.

(** C5 (as amended).  The checksum table is the table of the reflected
    CRC-32 polynomial [0xEDB88320].  A candidate file is accepted exactly
    when it can be read, the CRC-32 of its whole contents equals the
    checksum of the debug-link, and it parses as an object file; a
    candidate with another checksum is rejected.  The search returns the
    first accepted candidate among the directory of the library (tried
    only when the debug-link does not name the library file itself), its
    [.debug/] subdirectory, and the same directory below
    [/usr/lib/debug/], in this order. *)
Theorem debuglink_resolution (F : Files) (fname : string) (info : debug_link_info) :
  g_crc32_tab = map crc32_table_entry (seq 0 256) /\
  (forall path obj,
     openDebugInfo F path info = inl obj <->
     exists bytes, getFile F path = Some bytes /\
                   calc_gnu_debuglink_crc32 bytes = dl_crc32 info /\
                   createObjectFile F bytes = Some obj) /\
  (forall path bytes,
     getFile F path = Some bytes ->
     calc_gnu_debuglink_crc32 bytes <> dl_crc32 info ->
     openDebugInfo F path info = inr ChecksumMismatch) /\
  find_debuglink_file F fname info = first_accepted F info (candidates fname info).
Proof.
  split; [apply crc32_table_standard|].
  split; [intros; apply openDebugInfo_accepts|].
  split; [intros; now apply openDebugInfo_mismatch with bytes|].
  apply find_debuglink_file_order.
Qed.

(** C5, counterexample to the claim as stated: a candidate whose CRC-32
    equals the checksum of the debug-link, but which is not an object
    file, is rejected, at each of the three locations. *)
Lemma checksum_match_rejected_counterexample :
  let info := {| dl_filename := "libfoo.debug"; dl_crc32 := 0x3610a686 |} in
  candidates "/lib/libfoo.so" info =
    ["/lib/libfoo.debug"; "/lib/.debug/libfoo.debug"; "/usr/lib/debug//lib/libfoo.debug"]%string /\
  getFile text_file_only "/lib/libfoo.debug" = Some (bytes_of "hello") /\
  calc_gnu_debuglink_crc32 (bytes_of "hello") = dl_crc32 info /\
  openDebugInfo text_file_only "/lib/libfoo.debug" info = inr NotAnObject /\
  find_debuglink_file text_file_only "/lib/libfoo.so" info = None.
Proof. vm_compute. repeat split; reflexivity. Qed.

End DebugLinkFacts.

(** ** Demangling: examples *)

Section DemangleExamples.
Import Demangle.
Local Open Scope Z_scope.

Lemma all_chars_nonzero_valid (s : cstring) :
  forallb (fun c => negb (Ascii.eqb c "000"%char)) s = true -> valid_cstring s.
Proof.
  intros H. unfold valid_cstring. apply List.Forall_forall. intros c Hin.
  rewrite forallb_forall in H. specialize (H c Hin).
  apply negb_true_iff in H. now apply Ascii.eqb_neq in H.
Qed.

Lemma demangle_exactly_witness :
  valid_cstring (list_ascii_of_string "julia_foo_42") /\
  jl_demangle (list_ascii_of_string "julia_foo_42") = (list_ascii_of_string "foo", true) /\
  valid_cstring (list_ascii_of_string "random_name") /\
  ((forall body, ~ mangled_shape (list_ascii_of_string "random_name") body) ->
   jl_demangle (list_ascii_of_string "random_name") =
   (list_ascii_of_string "random_name", false)).
Proof.
  assert (H1 : valid_cstring (list_ascii_of_string "julia_foo_42"))
    by (apply all_chars_nonzero_valid; reflexivity).
  assert (H2 : valid_cstring (list_ascii_of_string "random_name"))
    by (apply all_chars_nonzero_valid; reflexivity).
  split; [exact H1|]. split.
  - apply (proj1 (demangle_exactly _ H1)).
    exists (list_ascii_of_string "julia_"), (list_ascii_of_string "42").
    split; [right; right; left; reflexivity|].
    split; [discriminate|].
    split; [repeat constructor|reflexivity].
  - split; [exact H2|]. apply (proj2 (demangle_exactly _ H2)).
Defined.

(** C3, counterexample to the claim as stated: a name that ends with the
    underscore, with no digit after it, is demangled and marked managed
    as well. *)
Lemma demangle_no_digit_counterexample :
  jl_demangle (list_ascii_of_string "julia_foo_") = (list_ascii_of_string "foo", true) /\
  ~ (exists body, mangled_shape_strict (list_ascii_of_string "julia_foo_") body).
Proof.
  split; [reflexivity|].
  intros (body & pre & digits & _ & _ & Hne & Hd & Heq).
  destruct (exists_last Hne) as (d' & c & ->).
  apply Forall_app in Hd as [_ Hc]. inversion Hc as [|? ? Hc' _]; subst.
  change (list_ascii_of_string "julia_foo_")
    with (list_ascii_of_string "julia_foo" ++ ["_"%char]) in Heq.
  replace (pre ++ body ++ "_"%char :: d' ++ [c])
    with ((pre ++ body ++ "_"%char :: d') ++ [c]) in Heq
    by (rewrite <- !app_assoc; reflexivity).
  apply app_inj_tail in Heq as [_ <-]. discriminate Hc'.
Qed.

Example demangle_julia_foo_42 :
  jl_demangle (list_ascii_of_string "julia_foo_42") = (list_ascii_of_string "foo", true).
Proof. reflexivity. Qed.

Example demangle_random_name :
  jl_demangle (list_ascii_of_string "random_name") =
  (list_ascii_of_string "random_name", false).
Proof. reflexivity. Qed.

Example demangle_digits_only :
  jl_demangle (list_ascii_of_string "julia_123") = (list_ascii_of_string "julia_123", false).
Proof. reflexivity. Qed.

End DemangleExamples.

(** ** LEB128: round trips and pointer bounds *)

Section LebExtras.
Import CFI.
Local Open Scope Z_scope.

Lemma uleb128_shape v : 0 <= v < 2 ^ 64 -> leb_shape (uleb128 v).
Proof.
  intros Hv. apply (uleb128_fuel_spec 10 v); [lia|].
  change (2 ^ (7 * Z.of_nat 10)) with (2 ^ 70). lia.
Qed.

Lemma sleb128_shape v : - 2 ^ 63 <= v < 2 ^ 63 -> leb_shape (sleb128 v).
Proof.
  intros Hv. apply (sleb128_fuel_spec 10 v); [lia|].
  change (2 ^ (7 * Z.of_nat 10 - 1)) with (2 ^ 69). lia.
Qed.

(** Decoding the unsigned LEB128 encoding of a pointer-sized value gives
    the value back and leaves the pointer behind the last byte of the
    encoding; skipping over the encoding ends at the same place. *)
Theorem uleb128_round_trip (m : memory) (p End v : Z) (rest : list Z) :
  holds m p (uleb128 v ++ rest) -> 0 <= v < 2 ^ 64 ->
  p + Z.of_nat (length (uleb128 v)) <= End ->
  parse_leb128 false m p End = (v, p + Z.of_nat (length (uleb128 v))) /\
  consume_leb128 m p End = p + Z.of_nat (length (uleb128 v)).
Proof.
  intros Hm Hv HEnd. split.
  - now apply parse_uleb128 with rest.
  - apply consume_leb128_shape with rest; auto using uleb128_shape.
Qed.

Lemma uleb128_round_trip_witness :
  parse_leb128 false (mem_of 4096 (uleb128 300 ++ [7])) 4096 4098 = (300, 4098) /\
  consume_leb128 (mem_of 4096 (uleb128 300 ++ [7])) 4096 4098 = 4098.
Proof.
  apply (uleb128_round_trip (mem_of 4096 (uleb128 300 ++ [7])) 4096 4098 300 [7]).
  - apply holds_mem_of. vm_compute. reflexivity.
  - lia.
  - change (4096 + 2 <= 4098). lia.
Defined.

(** The same for the signed encoding, negative values included. *)
Theorem sleb128_round_trip (m : memory) (p End v : Z) (rest : list Z) :
  holds m p (sleb128 v ++ rest) -> - 2 ^ 63 <= v < 2 ^ 63 ->
  p + Z.of_nat (length (sleb128 v)) <= End ->
  parse_leb128 true m p End = (v, p + Z.of_nat (length (sleb128 v))) /\
  consume_leb128 m p End = p + Z.of_nat (length (sleb128 v)).
Proof.
  intros Hm Hv HEnd. split.
  - now apply parse_sleb128 with rest.
  - apply consume_leb128_shape with rest; auto using sleb128_shape.
Qed.

Lemma sleb128_round_trip_witness :
  parse_leb128 true (mem_of 4096 (sleb128 (-100) ++ [7])) 4096 4098 = (-100, 4098) /\
  consume_leb128 (mem_of 4096 (sleb128 (-100) ++ [7])) 4096 4098 = 4098.
Proof.
  apply (sleb128_round_trip (mem_of 4096 (sleb128 (-100) ++ [7])) 4096 4098 (-100) [7]).
  - apply holds_mem_of. vm_compute. reflexivity.
  - lia.
  - change (4096 + 2 <= 4098). lia.
Defined.

Lemma consume_leb128_loop_bounds m End : forall fuel P,
  P <= consume_leb128_loop m End fuel P <= Z.max P End.
Proof.
  induction fuel as [|fuel IH]; intros P; cbn [consume_leb128_loop]; [lia|].
  destruct (negb (Z.shiftr (load8 m P) 7 =? 0)); cbn [andb]; [|lia].
  destruct (Z.ltb_spec P End); [|lia].
  specialize (IH (P + 1)). lia.
Qed.

Lemma consume_leb128_bounds m Addr End :
  Addr + 1 <= consume_leb128 m Addr End <= Z.max Addr End + 1.
Proof.
  unfold consume_leb128.
  pose proof (consume_leb128_loop_bounds m End (Z.to_nat (End - Addr)) Addr). lia.
Qed.

Lemma parse_leb128_loop_bounds is_signed m End : forall fuel i Addr v,
  Addr + 1 <= (parse_leb128_loop is_signed m End fuel i Addr v).2 <= Z.max Addr End + 1.
Proof.
  induction fuel as [|fuel IH]; intros i Addr v; cbn [parse_leb128_loop].
  - cbn [snd]. apply consume_leb128_bounds.
  - destruct (Z.land (load8 m Addr) 128 =? 0); cbn [orb snd]; [lia|].
    destruct (Z.leb_spec End (Addr + 1)); cbn [snd]; [lia|].
    specialize (IH (i + 1) (Addr + 1)
                  (Z.lor v (wrap64 (Z.shiftl (Z.land (load8 m Addr) 127) (i * 7))))).
    lia.
Qed.

(** Neither the decoder nor the skipping function moves the pointer
    backwards, leaves it in place, or takes it further than one byte
    behind the end of the buffer, whatever the memory holds. *)
Theorem leb128_pointer_bounds (is_signed : bool) (m : memory) (Addr End : Z) :
  Addr + 1 <= (parse_leb128 is_signed m Addr End).2 <= Z.max Addr End + 1 /\
  Addr + 1 <= consume_leb128 m Addr End <= Z.max Addr End + 1.
Proof.
  split; [|apply consume_leb128_bounds].
  unfold parse_leb128.
  pose proof (parse_leb128_loop_bounds is_signed m End leb_max_groups 0 Addr 0) as H.
  destruct (parse_leb128_loop is_signed m End leb_max_groups 0 Addr 0) as [v a].
  exact H.
Qed.

End LebExtras.

(** ** The record walk on arbitrary memory; sections without FDE *)

Section WalkExtras.
Import CFI.
Local Open Scope Z_scope.

Lemma load32_nonneg m a : 0 <= load32 m a.
Proof.
  unfold load32. simpl. pose proof (load8_range m a).
  pose proof (load8_range m (a + 1)). pose proof (load8_range m (a + 1 + 1)).
  pose proof (load8_range m (a + 1 + 1 + 1)). lia.
Qed.

Lemma StronglySorted_snoc (l : list Z) x :
  StronglySorted Z.lt l -> Forall (fun y => y < x) l -> StronglySorted Z.lt (l ++ [x]).
Proof.
  induction 1 as [|y l Hs IH Hy]; intros Hx; cbn [app].
  - repeat constructor.
  - apply Forall_cons in Hx as [Hyx Hx]. constructor; [now apply IH|].
    apply Forall_app. split; [exact Hy|]. now constructor.
Qed.

Lemma processFDEs_loop_in_bounds m Addr End (Q := fun e =>
    Addr <= e /\ load32 m e <> 0 /\ load32 m (e + 4) <> 0 /\ e + 4 + load32 m e <= End) :
  forall fuel P l log,
    Addr <= P -> Forall Q l -> Forall (fun y => y < P) l -> StronglySorted Z.lt l ->
    processFDEs_loop m End (fun e l => Ok (l ++ [e])) fuel P l = Ok log ->
    Forall Q log /\ StronglySorted Z.lt log.
Proof.
  induction fuel as [|fuel IH]; intros P l log HP HQ Hlt Hs; cbn [processFDEs_loop];
    [discriminate|].
  destruct (Z.leb_spec (P + 4) End); [|discriminate].
  destruct (Z.eqb_spec (load32 m P) 0) as [|Hlen]; [intros [= <-]; now split|].
  destruct (Z.leb_spec (P + 4 + load32 m P) End); [|discriminate].
  pose proof (load32_nonneg m P) as Hpos.
  assert (Hstep : forall l', Forall Q l' -> Forall (fun y => y < P + 4 + load32 m P) l' ->
            StronglySorted Z.lt l' ->
            (if negb (P + 4 + load32 m P =? End)
             then processFDEs_loop m End (fun e l => Ok (l ++ [e])) fuel (P + 4 + load32 m P) l'
             else Ok l') = Ok log ->
            Forall Q log /\ StronglySorted Z.lt log).
  { intros l' HQ' Hlt' Hs'. destruct (negb _); [|intros [= <-]; now split].
    apply IH; auto. lia. }
  destruct (Z.eqb_spec (load32 m (P + 4)) 0) as [|Hid]; cbn [negb bind].
  - apply Hstep; auto. eapply Forall_impl; [exact Hlt|]. cbv beta. intros; lia.
  - apply Hstep.
    + apply Forall_app. split; [exact HQ|]. constructor; [|constructor].
      unfold Q. repeat split; auto.
    + apply Forall_app. split.
      * eapply Forall_impl; [exact Hlt|]. cbv beta. intros; lia.
      * constructor; [lia|constructor].
    + now apply StronglySorted_snoc.
Qed.

(** Whatever the memory holds, the entries handed to the visitor lie
    inside the section: each starts at or after the section start, has a
    non-zero length and a non-zero CIE pointer, and ends, by its length
    word, at or before the end of the section; they are visited in
    strictly increasing address order. *)
Theorem processFDEs_entries_in_bounds (m : memory) (Addr Size : Z) (log : list Z) :
  processFDEs m Addr Size (fun e l => Ok (l ++ [e])) [] = Ok log ->
  Forall (fun e => Addr <= e /\ load32 m e <> 0 /\ load32 m (e + 4) <> 0 /\
                   e + 4 + load32 m e <= Addr + Size) log /\
  StronglySorted Z.lt log.
Proof.
  unfold processFDEs. intros H.
  eapply (processFDEs_loop_in_bounds m Addr (Addr + Size)); [| | | |exact H];
    try constructor. lia.
Qed.

Lemma processFDEs_entries_in_bounds_witness :
  let m := mem_of 4096 sample_eh_frame in
  Forall (fun e => 4096 <= e /\ load32 m e <> 0 /\ load32 m (e + 4) <> 0 /\
                   e + 4 + load32 m e <= 4096 + 40) [4116] /\
  StronglySorted Z.lt [4116].
Proof.
  apply (processFDEs_entries_in_bounds (mem_of 4096 sample_eh_frame) 4096 40 [4116]).
  vm_compute. reflexivity.
Defined.

Lemma processFDEs_records {S : Type} m Addr rs tail (f : Z -> S -> result S) s :
  holds m Addr (encode_records rs ++ tail) ->
  Forall wf_record rs ->
  section_end_ok rs tail ->
  processFDEs m Addr (Z.of_nat (length (encode_records rs ++ tail))) f s =
  visit_all f (fde_entries Addr rs) s.
Proof.
  intros Hm Hwf Hend. unfold processFDEs.
  apply (processFDEs_loop_records m _ f rs _ Addr s tail); auto.
  rewrite Nat2Z.id, length_app. pose proof (length_encode_records rs). lia.
Qed.

Lemma fde_entries_no_fde rs : Forall (fun r => rec_id r = 0) rs ->
  forall a, fde_entries a rs = [].
Proof.
  induction 1 as [|r rs Hr _ IH]; intros a; cbn [fde_entries]; [reflexivity|].
  rewrite Hr, IH. reflexivity.
Qed.

(** A section that holds CIEs only is handed to the system unwinder and
    to nothing else: no table is built and nothing is registered with
    the second unwinder. *)
Theorem register_eh_frames_no_fde (fuel : nat) (m : memory) (Addr : Z)
    (rs : list cfi_record) (tail : list Z) :
  holds m Addr (encode_records rs ++ tail) ->
  Forall wf_record rs ->
  section_end_ok rs tail ->
  Forall (fun r => rec_id r = 0) rs ->
  register_eh_frames fuel m Addr (Z.of_nat (length (encode_records rs ++ tail))) =
  Ok [SystemRegisterFrame Addr].
Proof.
  intros Hm Hwf Hend Hcie. unfold register_eh_frames.
  rewrite (processFDEs_records m Addr rs tail _ _ Hm Hwf Hend).
  rewrite (fde_entries_no_fde rs Hcie). reflexivity.
Qed.

Lemma register_eh_frames_no_fde_witness :
  register_eh_frames 3 (mem_of 4096 sample_cie) 4096 20 = Ok [SystemRegisterFrame 4096].
Proof.
  apply (register_eh_frames_no_fde 3 (mem_of 4096 sample_cie) 4096
           [{| rec_id := 0;
               rec_body := cie_body (zR_cie 1 1 0x78 16 (encoding_byte (Pcrel Fsdata4)) [12; 7; 8]) |}]
           []).
  - apply holds_mem_of. vm_compute. reflexivity.
  - repeat constructor; vm_compute; congruence.
  - left. split; [reflexivity|discriminate].
  - repeat constructor.
Defined.

End WalkExtras.

(** ** The table built by [register_eh_frames] *)

Section TableExtras.
Import CFI.
Local Open Scope Z_scope.

Lemma visit_all_count (es : list Z) : forall n : nat,
  visit_all (fun (_ : Z) (n : nat) => Ok (S n)) es n = Ok (length es + n)%nat.
Proof.
  induction es as [|e es IH]; intros n; cbn [visit_all bind length]; [reflexivity|].
  rewrite IH. f_equal. lia.
Qed.

Lemma visit_all_builder fuel m Addr Size : forall es ranges b pre pre',
  Forall2 (fun e (r : Z * Z) => forall enc, exists enc',
             fde_range fuel m Addr Size NULL enc e = Ok (enc', r.1, r.2)) es ranges ->
  Forall (fun e => - 2 ^ 31 <= to_signed 64 e - to_signed 64 Addr <= 2 ^ 31 - 1) es ->
  b_cur_cie b = NULL ->
  b_cur_entry b = length pre -> length pre' = length pre ->
  b_table b = pre ++ replicate (length es) {| start_ip_offset := 0; fde_offset := 0 |} ->
  b_start_ips b = pre' ++ replicate (length es) 0 ->
  exists b', visit_all (fde_visitor fuel m Addr Size) es b = Ok b' /\
    b_start_ip b' = foldl Z.min (b_start_ip b) (map fst ranges) /\
    b_end_ip b' = foldl Z.max (b_end_ip b) (map (fun r => wrap64 (r.1 + r.2)) ranges) /\
    b_table b' = pre ++ map (fun e => {| start_ip_offset := 0;
                                         fde_offset := to_signed 64 e - to_signed 64 Addr |}) es /\
    b_start_ips b' = pre' ++ map fst ranges.
Proof.
  induction es as [|e es IH]; intros ranges b pre pre' Hdec Hfit Hcie Hcur Hlen Htab Hips.
  - apply Forall2_nil_inv_l in Hdec as ->. exists b. cbn in *. now rewrite Htab, Hips.
  - apply Forall2_cons_inv_l in Hdec as ([st sz] & ranges' & Hd & Hdec & ->).
    apply Forall_cons in Hfit as [Hf Hfit].
    destruct (Hd (b_encoding b)) as [enc' He]. cbn [fst snd] in He.
    cbn [visit_all]. unfold fde_visitor at 1. rewrite Hcie, He. cbn [bind].
    unfold safe_trunc_int32.
    replace ((- 2 ^ 31 <=? to_signed 64 e - to_signed 64 Addr) &&
             (to_signed 64 e - to_signed 64 Addr <=? 2 ^ 31 - 1)) with true
      by (symmetry; apply andb_true_iff; split; apply Z.leb_le; lia).
    cbn [bind].
    match goal with |- context [visit_all _ es ?b1] => set (b1' := b1) end.
    destruct (IH ranges' b1'
                (pre ++ [{| start_ip_offset := 0;
                            fde_offset := to_signed 64 e - to_signed 64 Addr |}])
                (pre' ++ [st])) as (b' & Hv & Hlo & Hhi & Ht & Hs); auto.
    + subst b1'. cbn. rewrite length_app. cbn. lia.
    + rewrite !length_app. cbn. lia.
    + subst b1'. cbn [b_table]. rewrite Htab, Hcur.
      replace (length pre) with (length pre + 0)%nat by lia.
      rewrite alter_app_r. cbn. now rewrite <- app_assoc.
    + subst b1'. cbn [b_start_ips]. rewrite Hips, Hcur, <- Hlen.
      replace (length pre') with (length pre' + 0)%nat by lia.
      rewrite insert_app_r. cbn. now rewrite <- app_assoc.
    + exists b'. split; [exact Hv|].
      rewrite Hlo, Hhi, Ht, Hs. subst b1'. cbn [b_start_ip b_end_ip map foldl fst snd].
      rewrite <- !app_assoc. cbn [app].
      repeat split; f_equal.
      * destruct (Z.ltb_spec st (b_start_ip b)); lia.
      * destruct (Z.ltb_spec (b_end_ip b) (wrap64 (st + sz))); lia.
Qed.

Lemma fill_start_offsets_spec lo : forall (es : list Z) (ranges : list (Z * Z)) (off : Z -> Z),
  length es = length ranges ->
  Forall (fun r : Z * Z => - 2 ^ 31 <= to_signed 64 r.1 - to_signed 64 lo <= 2 ^ 31 - 1) ranges ->
  fill_start_offsets lo
    (map (fun e => {| start_ip_offset := 0; fde_offset := off e |}) es) (map fst ranges) =
  Ok (zip_with (fun e (r : Z * Z) =>
                  {| start_ip_offset := to_signed 64 r.1 - to_signed 64 lo;
                     fde_offset := off e |}) es ranges).
Proof.
  induction es as [|e es IH]; intros [|[st sz] ranges] off Hlen Hfit; try discriminate;
    cbn [map fill_start_offsets zip_with]; [reflexivity|].
  apply Forall_cons in Hfit as [Hf Hfit]. cbn [fst] in *.
  unfold safe_trunc_int32.
  replace ((- 2 ^ 31 <=? to_signed 64 st - to_signed 64 lo) &&
           (to_signed 64 st - to_signed 64 lo <=? 2 ^ 31 - 1)) with true
    by (symmetry; apply andb_true_iff; split; apply Z.leb_le; lia).
  cbn [bind]. rewrite IH by (auto; cbn in Hlen; lia). reflexivity.
Qed.

(** The table handed to the second unwinder.  On a well-formed section
    with at least one FDE, each of which decodes to a range
    [(start, size)], the section is registered with the system unwinder
    and one table is registered with the second unwinder: it has one
    entry per FDE, in address order, holding the offset of the FDE from
    the section start and the offset of its start address from the
    lowest start address; the table covers the addresses from the lowest
    start to the highest end.  The offsets are required to fit 32 bits
    and the highest end not to be zero (the assertions of the source). *)
Theorem register_eh_frames_table (fuel : nat) (m : memory) (Addr : Z)
    (rs : list cfi_record) (tail : list Z) (ranges : list (Z * Z)) :
  let Size := Z.of_nat (length (encode_records rs ++ tail)) in
  let es := fde_entries Addr rs in
  let lo := foldl Z.min (2 ^ 64 - 1) (map fst ranges) in
  let hi := foldl Z.max 0 (map (fun r : Z * Z => wrap64 (r.1 + r.2)) ranges) in
  holds m Addr (encode_records rs ++ tail) ->
  Forall wf_record rs ->
  section_end_ok rs tail ->
  es <> [] ->
  Forall2 (fun e (r : Z * Z) => forall enc, exists enc',
             fde_range fuel m Addr Size NULL enc e = Ok (enc', r.1, r.2)) es ranges ->
  Forall (fun e => - 2 ^ 31 <= to_signed 64 e - to_signed 64 Addr <= 2 ^ 31 - 1) es ->
  Forall (fun r : Z * Z => - 2 ^ 31 <= to_signed 64 r.1 - to_signed 64 lo <= 2 ^ 31 - 1) ranges ->
  hi <> 0 ->
  register_eh_frames fuel m Addr Size =
  Ok [SystemRegisterFrame Addr;
      DynRegister
        {| di_gp := 0; di_segbase := Addr;
           di_table_len := Z.of_nat (length es);
           di_table_data :=
             zip_with (fun e (r : Z * Z) =>
                         {| start_ip_offset := to_signed 64 r.1 - to_signed 64 lo;
                            fde_offset := to_signed 64 e - to_signed 64 Addr |}) es ranges;
           di_start_ip := lo; di_end_ip := hi |}].
Proof.
  intros Size es lo hi Hm Hwf Hend Hne Hdec Hfit Hoff Hhi.
  unfold register_eh_frames. fold Size.
  rewrite (processFDEs_records m Addr rs tail _ _ Hm Hwf Hend). fold es.
  rewrite visit_all_count. cbn [bind]. rewrite Nat.add_0_r.
  destruct (Nat.eqb_spec (length es) 0) as [Hz|_].
  { destruct es; [congruence|discriminate]. }
  rewrite (processFDEs_records m Addr rs tail _ _ Hm Hwf Hend). fold es.
  match goal with |- context [visit_all _ es ?b] => set (b0 := b) end.
  destruct (visit_all_builder fuel m Addr Size es ranges b0 [] [] Hdec Hfit)
    as (b' & Hv & Hlo & Hhi' & Ht & Hs); try reflexivity.
  rewrite Hv. cbn [bind]. rewrite Ht, Hs. cbn [app].
  rewrite fill_start_offsets_spec.
  - cbn [bind]. rewrite Hlo, Hhi'. subst b0. cbn [b_start_ip b_end_ip].
    fold lo hi. replace (negb (hi =? 0)) with true
      by (symmetry; apply negb_true_iff, Z.eqb_neq; exact Hhi).
    rewrite Z.div_mul by lia. reflexivity.
  - eapply Forall2_length; exact Hdec.
  - rewrite Hlo. subst b0. exact Hoff.
Qed.

Lemma register_eh_frames_table_witness :
  register_eh_frames 3 (mem_of 4096 sample_eh_frame) 4096 40 =
  Ok [SystemRegisterFrame 4096;
      DynRegister {| di_gp := 0; di_segbase := 4096; di_table_len := 1;
                     di_table_data := [{| start_ip_offset := 0; fde_offset := 20 |}];
                     di_start_ip := 4024; di_end_ip := 4088 |}].
Proof.
  apply (register_eh_frames_table 3 (mem_of 4096 sample_eh_frame) 4096
           [{| rec_id := 0;
               rec_body := cie_body (zR_cie 1 1 0x78 16 (encoding_byte (Pcrel Fsdata4)) [12; 7; 8]) |};
            {| rec_id := 24;
               rec_body := (field_bytes (Pcrel Fsdata4) (-100) ++ field_bytes (Pcrel Fsdata4) 64)
                           ++ [0; 0; 0; 0] |}]
           [] [(4024, 64)]).
  - apply holds_mem_of. vm_compute. reflexivity.
  - repeat constructor; vm_compute; congruence.
  - left. split; [reflexivity|discriminate].
  - discriminate.
  - constructor; [|constructor]. intros enc. exists 0x1b. vm_compute. reflexivity.
  - repeat constructor; vm_compute; congruence.
  - repeat constructor; vm_compute; congruence.
  - vm_compute. congruence.
Defined.

End TableExtras.

(** ** What [parseCIE] and the visitor reject *)

Section CieExtras.
Import CFI.
Local Open Scope Z_scope.

Lemma parse_augmentation_Ok m cie_end : forall fuel augp p enc,
  parse_augmentation m cie_end fuel augp p = Ok enc ->
  exists k : nat, (k < fuel)%nat /\ load8 m (augp + Z.of_nat k) = 82 /\
    (forall j : nat, (j < k)%nat -> load8 m (augp + Z.of_nat j) <> 82) /\
    0 <= enc < 256.
Proof.
  induction fuel as [|fuel IH]; intros augp p enc; cbn [parse_augmentation]; [discriminate|].
  assert (Hnext : forall p', load8 m augp <> 82 ->
            parse_augmentation m cie_end fuel (augp + 1) p' = Ok enc ->
            exists k : nat, (k < S fuel)%nat /\ load8 m (augp + Z.of_nat k) = 82 /\
              (forall j : nat, (j < k)%nat -> load8 m (augp + Z.of_nat j) <> 82) /\
              0 <= enc < 256).
  { intros p' Hc H. apply IH in H as (k & Hk & HR & Hbefore & Henc).
    exists (S k). split; [lia|]. split.
    - rewrite <- HR. f_equal. lia.
    - split; [|exact Henc]. intros [|j] Hj.
      + now rewrite Z.add_0_r.
      + replace (augp + Z.of_nat (S j)) with (augp + 1 + Z.of_nat j) by lia.
        apply Hbefore. lia. }
  destruct (Z.eqb_spec (load8 m augp) 122) as [Hz|_].
  { destruct (_ <=? _); [|discriminate]. apply Hnext. lia. }
  destruct (Z.eqb_spec (load8 m augp) 76) as [HL|_].
  { destruct (_ <=? _); [|discriminate]. apply Hnext. lia. }
  destruct (Z.eqb_spec (load8 m augp) 82) as [HR|HnR].
  { intros [= <-]. exists O. split; [lia|]. split; [now rewrite Z.add_0_r|].
    split; [intros j Hj; lia|apply load8_range]. }
  destruct (Z.eqb_spec (load8 m augp) 80) as [HP|_].
  { destruct (skip_personality _ _ _ _) as [p'| |]; cbn [bind]; try discriminate.
    destruct (_ <=? _); [|discriminate]. now apply Hnext. }
  now apply Hnext.
Qed.

(** What a successful parse of a CIE implies.  The record ends inside
    the section, its id word is zero, its version is 1 or 3, and the
    result is a byte read at the first ['R'] found from the start of the
    augmentation string on.  There is no other way out of the scan: a
    record without ['R'] is not given a default encoding. *)
Theorem parseCIE_success_conditions (fuel : nat) (m : memory) (Addr End enc : Z) :
  parseCIE fuel m Addr End = Ok enc ->
  Addr + 4 + load32 m Addr <= End /\
  load32 m (Addr + 4) = 0 /\
  (load8 m (Addr + 8) = 1 \/ load8 m (Addr + 8) = 3) /\
  0 <= enc < 256 /\
  exists k : nat, (k < fuel)%nat /\ load8 m (Addr + 9 + Z.of_nat k) = 82 /\
    forall j : nat, (j < k)%nat -> load8 m (Addr + 9 + Z.of_nat j) <> 82.
Proof.
  unfold parseCIE.
  destruct (Z.leb_spec (Addr + 4 + load32 m Addr) End) as [HEnd|]; [|discriminate].
  destruct (Z.eqb_spec (load32 m (Addr + 4)) 0) as [Hid|]; [|discriminate].
  replace (Addr + 4 + 4) with (Addr + 8) by lia.
  replace (Addr + 8 + 1) with (Addr + 9) by lia.
  destruct ((load8 m (Addr + 8) =? 1) || (load8 m (Addr + 8) =? 3)) eqn:Hver; [|discriminate].
  destruct (strlen m fuel (Addr + 9)) as [len| |]; cbn [bind]; try discriminate.
  destruct (_ <=? _); [|discriminate].
  intros H. apply parse_augmentation_Ok in H as (k & Hk & HR & Hbefore & Henc).
  repeat split; auto.
  - apply orb_true_iff in Hver as [H1%Z.eqb_eq|H3%Z.eqb_eq]; auto.
  - lia.
  - lia.
  - exists k. auto.
Qed.

Lemma parseCIE_success_conditions_witness :
  let m := mem_of 4096 sample_cie in
  4096 + 4 + load32 m 4096 <= 4116 /\
  load32 m (4096 + 4) = 0 /\
  (load8 m (4096 + 8) = 1 \/ load8 m (4096 + 8) = 3) /\
  0 <= 0x1b < 256 /\
  exists k : nat, (k < 3)%nat /\ load8 m (4096 + 9 + Z.of_nat k) = 82 /\
    forall j : nat, (j < k)%nat -> load8 m (4096 + 9 + Z.of_nat j) <> 82.
Proof.
  apply (parseCIE_success_conditions 3 (mem_of 4096 sample_cie) 4096 4116 0x1b).
  vm_compute. reflexivity.
Defined.

(** An encoding that the table builder does not support stops it at an
    assertion: when the CIE of an FDE announces an encoding other than
    an absolute pointer or "omitted" whose modifier is not pc-relative,
    or whose value format is none of the nine known ones, no range is
    decoded. *)
Theorem unsupported_encoding_rejected (fuel : nat) (m : memory)
    (Addr Size C Entry enc0 : Z) (c : cie_desc) :
  (cie_fuel c <= fuel)%nat ->
  holds m C (cie_bytes c) ->
  wf_cie c ->
  C + Z.of_nat (length (cie_bytes c)) <= Addr + Size ->
  C <> NULL ->
  load32 m (Entry + 4) = Entry + 4 - C ->
  cie_enc c <> DW_EH_PE_absptr -> cie_enc c <> DW_EH_PE_omit ->
  Z.land (cie_enc c) 0xf0 <> 0x10 \/
  ~ In (Z.land (cie_enc c) 0xf) (map format_code
        [Fuleb128; Fudata2; Fudata4; Fudata8; Fsigned; Fsleb128; Fsdata2; Fsdata4; Fsdata8]) ->
  fde_range fuel m Addr Size NULL enc0 Entry = AssertFail.
Proof.
  intros Hfuel Hcie Hwf HEnd HC Hid Habs Homit Hbad.
  pose proof (parseCIE_spec fuel m C (Addr + Size) c Hcie Hwf HEnd Hfuel) as Hparse.
  unfold fde_range. rewrite Hid.
  replace (Entry + 4 - (Entry + 4 - C)) with C by lia.
  replace (negb (C =? NULL)) with true
    by (symmetry; apply negb_true_iff, Z.eqb_neq; exact HC).
  rewrite Hparse. cbn [bind].
  replace (cie_enc c =? DW_EH_PE_absptr) with false by (symmetry; now apply Z.eqb_neq).
  replace (cie_enc c =? DW_EH_PE_omit) with false by (symmetry; now apply Z.eqb_neq).
  cbn [orb].
  destruct (Z.eqb_spec (Z.land (cie_enc c) 240) 16) as [Hpc|]; [|reflexivity].
  destruct Hbad as [Hbad|Hbad]; [contradiction|].
  cbn [map In format_code] in Hbad.
  repeat match goal with
         | |- context [Z.land (cie_enc c) 15 =? ?k] =>
             destruct (Z.eqb_spec (Z.land (cie_enc c) 15) k) as [He|_];
             [exfalso; apply Hbad; rewrite He; tauto|]
         end.
  reflexivity.
Qed.

Lemma unsupported_encoding_rejected_witness :
  let m := mem_of 4096 (cie_zR 1 1 0x78 16 0x33 [12; 7; 8] ++ sample_fde) in
  fde_range 3 m 4096 40 NULL DW_EH_PE_omit 4116 = AssertFail.
Proof.
  assert (Hall : holds (mem_of 4096 (cie_zR 1 1 0x78 16 0x33 [12; 7; 8] ++ sample_fde)) 4096
                   (cie_zR 1 1 0x78 16 0x33 [12; 7; 8] ++ sample_fde)).
  { apply holds_mem_of. vm_compute. reflexivity. }
  apply holds_app in Hall as [Hc _].
  apply (unsupported_encoding_rejected 3 _ 4096 40 4096 4116 DW_EH_PE_omit
           (zR_cie 1 1 0x78 16 0x33 [12; 7; 8])).
  - change (3 <= 3)%nat. lia.
  - exact Hc.
  - unfold wf_cie. cbn.
    split; [now left|]. split; [repeat constructor; lia|]. split; [constructor|].
    split; [lia|]. split; [reflexivity|lia].
  - change (4096 + 20 <= 4096 + 40). lia.
  - unfold NULL. lia.
  - vm_compute. reflexivity.
  - vm_compute. congruence.
  - vm_compute. congruence.
  - left. vm_compute. congruence.
Defined.

End CieExtras.

(** ** The registry: lookups and what registration keeps *)

Section RegistryExtras.
Import Registry.
Local Open Scope Z_scope.

(** The lookup of a code instance, characterised: a (non-null) handle is
    returned exactly when it is stored under the greatest start address
    not above the pointer, and the pointer lies inside that range. *)
Theorem lookupCodeInstance_iff (r : JITDebugInfoRegistry) (p ci : Z) :
  ci <> NULL ->
  lookupCodeInstance r p = ci <->
  exists first size,
    cimap r !! first = Some (size, ci) /\ in_range first size p /\
    forall k v, cimap r !! k = Some v -> k <= p -> k <= first.
Proof.
  intros Hci. unfold lookupCodeInstance. split.
  - destruct (lower_bound (cimap r) p) as [[k [sz c]]|] eqn:Hlb; [|congruence].
    apply lower_bound_Some in Hlb as (Hl & Hk & Hmax).
    destruct (Z.ltb_spec p (wrap64 (k + sz))); [|congruence].
    intros ->. exists k, sz. split; [exact Hl|]. split; [split; assumption|exact Hmax].
  - intros (first & size & Hl & [Hlo Hhi] & Hmax).
    rewrite (lower_bound_greatest _ p first (size, ci) Hl Hlo Hmax).
    destruct (Z.ltb_spec p (wrap64 (first + size))); [reflexivity|lia].
Qed.

Lemma lookupCodeInstance_iff_witness :
  let r := registerJITObject plain_platform two_functions load_at_0x1000
             (add_code_in_flight "X" 11 empty_registry) in
  lookupCodeInstance r 0x1005 = 11 <->
  exists first size,
    cimap r !! first = Some (size, 11) /\ in_range first size 0x1005 /\
    forall k v, cimap r !! k = Some v -> k <= 0x1005 -> k <= first.
Proof.
  apply (lookupCodeInstance_iff
           (registerJITObject plain_platform two_functions load_at_0x1000
              (add_code_in_flight "X" 11 empty_registry)) 0x1005 11).
  unfold NULL. lia.
Defined.

Section Fold2.
Context (P : Platform) (gla : string -> Z) (ptr : nat).

Lemma fold_pending_erased l : forall st s sz sec,
  (s, sz) ∈ l -> text_function s = Some sec ->
  ls_in_flight (foldl (register_symbol P gla ptr) st l) !! sym_name s = None.
Proof.
  induction l as [|[s0 sz0] l IH] using rev_ind; intros st s sz sec Hin Ht;
    [now apply elem_of_nil in Hin|].
  rewrite foldl_app. cbn [foldl].
  apply elem_of_app in Hin as [Hin|Hin%list_elem_of_singleton].
  - specialize (IH st s sz sec Hin Ht).
    unfold register_symbol. cbn [fst snd].
    destruct (text_function s0) as [sec0|]; [|exact IH]. cbn.
    destruct (decide (sym_name s0 = sym_name s)) as [->|Hne].
    + apply lookup_delete_eq.
    + rewrite lookup_delete_ne by exact Hne. exact IH.
  - injection Hin as <- <-. unfold register_symbol. cbn [fst snd]. rewrite Ht. cbn.
    apply lookup_delete_eq.
Qed.

Lemma fold_pending_other l : forall st X,
  (forall s sz sec, (s, sz) ∈ l -> text_function s = Some sec -> sym_name s <> X) ->
  ls_in_flight (foldl (register_symbol P gla ptr) st l) !! X = ls_in_flight st !! X.
Proof.
  induction l as [|[s sz] l IH]; intros st X Hn; cbn [foldl]; [reflexivity|].
  rewrite IH by (intros s' sz' sec' Hin; apply (Hn s' sz' sec'); now right).
  unfold register_symbol. cbn [fst snd].
  destruct (text_function s) as [sec|] eqn:Ht; [|reflexivity]. cbn.
  apply lookup_delete_ne. apply (Hn s sz sec); [left|exact Ht].
Qed.

Lemma map_insert_new_kept {V} k (v : V) m a x :
  m !! a = Some x -> map_insert_new k v m !! a = Some x.
Proof.
  intros Ha. unfold map_insert_new. destruct (m !! k) eqn:Hk; [exact Ha|].
  rewrite lookup_insert_ne; [exact Ha|]. congruence.
Qed.

Lemma fold_objectmap_kept l : forall st a si,
  ls_objectmap st !! a = Some si ->
  ls_objectmap (foldl (register_symbol P gla ptr) st l) !! a = Some si.
Proof.
  induction l as [|[s sz] l IH]; intros st a si Ha; cbn [foldl]; [exact Ha|].
  apply IH. unfold register_symbol. cbn [fst snd].
  destruct (text_function s) as [sec|]; [|exact Ha]. cbn.
  now apply map_insert_new_kept.
Qed.

Lemma fold_objectmap_origin l : forall st a si,
  ls_objectmap (foldl (register_symbol P gla ptr) st l) !! a = Some si ->
  ls_objectmap st !! a = Some si \/
  exists s sz sec, (s, sz) ∈ l /\ text_function s = Some sec /\
                   a = gla (sec_name sec) /\ si = section_record gla ptr sec.
Proof.
  induction l as [|[s sz] l IH]; intros st a si H; cbn [foldl] in H; [now left|].
  apply IH in H as [H|(s' & sz' & sec' & Hin & Ht & Ha)].
  - unfold register_symbol in H. cbn [fst snd] in H.
    destruct (text_function s) as [sec|] eqn:Ht; [|now left]. cbn in H.
    unfold map_insert_new in H.
    destruct (ls_objectmap st !! gla (sec_name sec)) eqn:Hk; [now left|].
    destruct (decide (a = gla (sec_name sec))) as [->|Hne].
    + rewrite lookup_insert_eq in H. injection H as <-.
      right. exists s, sz, sec. split; [left|]. auto.
    + rewrite lookup_insert_ne in H by congruence. now left.
  - right. exists s', sz', sec'. split; [now right|]. auto.
Qed.

Lemma fold_objectmap_new l : forall st s sz sec,
  (s, sz) ∈ l -> text_function s = Some sec ->
  ls_objectmap st !! gla (sec_name sec) = None ->
  (forall s' sz' sec', (s', sz') ∈ l -> text_function s' = Some sec' ->
     gla (sec_name sec') = gla (sec_name sec) ->
     section_record gla ptr sec' = section_record gla ptr sec) ->
  ls_objectmap (foldl (register_symbol P gla ptr) st l) !! gla (sec_name sec) =
  Some (section_record gla ptr sec).
Proof.
  induction l as [|[s0 sz0] l IH]; intros st s sz sec Hin Ht Hfresh Hsame;
    [now apply elem_of_nil in Hin|].
  cbn [foldl].
  assert (Hsame' : forall s' sz' sec', (s', sz') ∈ l -> text_function s' = Some sec' ->
            gla (sec_name sec') = gla (sec_name sec) ->
            section_record gla ptr sec' = section_record gla ptr sec).
  { intros s' sz' sec' Hin'. apply (Hsame s' sz' sec'). now right. }
  assert (Hst : ls_objectmap (register_symbol P gla ptr st (s0, sz0)) =
                match text_function s0 with
                | Some sec0 => map_insert_new (gla (sec_name sec0))
                                 (section_record gla ptr sec0) (ls_objectmap st)
                | None => ls_objectmap st
                end).
  { unfold register_symbol. cbn [fst snd]. destruct (text_function s0); reflexivity. }
  set (st1 := register_symbol P gla ptr st (s0, sz0)) in *.
  destruct (text_function s0) as [sec0|] eqn:Ht0.
  - destruct (decide (gla (sec_name sec0) = gla (sec_name sec))) as [He|Hne].
    + apply fold_objectmap_kept. rewrite Hst. unfold map_insert_new.
      rewrite He, Hfresh, lookup_insert_eq. f_equal.
      apply (Hsame s0 sz0 sec0); [left|exact Ht0|exact He].
    + apply elem_of_cons in Hin as [[= -> ->]|Hin]; [congruence|].
      apply (IH _ s sz sec Hin Ht); [|exact Hsame'].
      rewrite Hst. unfold map_insert_new.
      destruct (ls_objectmap st !! gla (sec_name sec0)); [exact Hfresh|].
      rewrite lookup_insert_ne by exact Hne. exact Hfresh.
  - apply elem_of_cons in Hin as [[= -> ->]|Hin]; [congruence|].
    apply (IH st1 s sz sec Hin Ht); [|exact Hsame']. rewrite Hst. exact Hfresh.
Qed.

Lemma fold_hassection l : forall st s sz sec,
  (s, sz) ∈ l -> text_function s = Some sec ->
  ls_hassection (foldl (register_symbol P gla ptr) st l) = true.
Proof.
  induction l as [|[s0 sz0] l IH] using rev_ind; intros st s sz sec Hin Ht;
    [now apply elem_of_nil in Hin|].
  rewrite foldl_app. cbn [foldl].
  apply elem_of_app in Hin as [Hin|Hin%list_elem_of_singleton].
  - specialize (IH st s sz sec Hin Ht).
    unfold register_symbol. cbn [fst snd].
    destruct (text_function s0); [reflexivity|exact IH].
  - injection Hin as <- <-. unfold register_symbol. cbn [fst snd]. now rewrite Ht.
Qed.

End Fold2.

Lemma has_text_function (obj : ObjectFile) s sz sec :
  (s, sz) ∈ obj_symbols obj -> text_function s = Some sec ->
  existsb (fun s => is_function (sym_type s)) (map fst (obj_symbols obj)) = true.
Proof.
  intros Hin Ht. apply existsb_exists. exists s. split.
  - apply list_elem_of_In. apply (list_elem_of_fmap_2 fst) in Hin. exact Hin.
  - now apply text_function_is_function with sec.
Qed.

(** Registration uses up the pending handles: after an image was
    registered, no function symbol of a text section of the image has a
    pending handle left under its name, and the pending handles under
    all other names are as before. *)
Theorem registerJITObject_consumes_pending (P : Platform) (obj : ObjectFile)
    (gla : string -> Z) (r : JITDebugInfoRegistry) :
  let r' := registerJITObject P obj gla r in
  (forall s sz sec, (s, sz) ∈ obj_symbols obj -> text_function s = Some sec ->
     codeinst_in_flight r' !! sym_name s = None) /\
  (forall X,
     (forall s sz sec, (s, sz) ∈ obj_symbols obj -> text_function s = Some sec ->
        sym_name s <> X) ->
     codeinst_in_flight r' !! X = codeinst_in_flight r !! X).
Proof.
  cbv zeta. unfold registerJITObject. split.
  - intros s sz sec Hin Ht.
    rewrite (has_text_function obj s sz sec Hin Ht). cbn [negb codeinst_in_flight].
    now apply fold_pending_erased with sz sec.
  - intros X Hn. destruct (negb _); [reflexivity|]. cbn [codeinst_in_flight].
    now rewrite fold_pending_other.
Qed.

(** Registration only adds: a section record already stored under a
    load address stays as it is, even when the new image has a section
    loaded at the same address; a code-instance range stays unless a
    function of the new image starts at the same address; and the
    stored images keep their place. *)
Theorem registerJITObject_keeps_entries (P : Platform) (obj : ObjectFile)
    (gla : string -> Z) (r : JITDebugInfoRegistry) :
  let r' := registerJITObject P obj gla r in
  (forall a si, objectmap r !! a = Some si -> objectmap r' !! a = Some si) /\
  (forall k v, cimap r !! k = Some v ->
     (forall s sz sec, (s, sz) ∈ obj_symbols obj -> text_function s = Some sec ->
        final_address gla s sec <> k) ->
     cimap r' !! k = Some v) /\
  (forall i l, images r !! i = Some l -> (i < next_image r)%nat ->
     images r' !! i = Some l) /\
  (next_image r <= next_image r')%nat /\
  image_info r' = image_info r.
Proof.
  cbv zeta. unfold registerJITObject.
  destruct (negb _); [repeat split; auto|].
  cbn [objectmap cimap images next_image image_info].
  split; [intros a si Ha; now apply fold_objectmap_kept|].
  split; [intros k v Hk Hn; now apply fold_entry_kept|].
  split; [|split; [lia|reflexivity]].
  intros i l Hi Hlt. destruct (ls_hassection _); [|exact Hi].
  rewrite lookup_insert_ne by lia. exact Hi.
Qed.

(** A registered section is found again.  After an image with a
    function symbol in a text section [sec] was registered, where no
    section record was stored under the load address of [sec] before,
    the section map holds the record of [sec] under that address; for an
    address inside the loaded section, with no other section record
    starting between the load address and it, the section lookup selects
    this record and [jl_getUnwindInfo_impl] returns the load address;
    and the image the record points to is stored. *)
Theorem registered_section_found (P : Platform) (obj : ObjectFile)
    (gla : string -> Z) (r : JITDebugInfoRegistry)
    (s : SymbolRef) (sz : Z) (sec : SectionRef) (a : Z) :
  (s, sz) ∈ obj_symbols obj ->
  text_function s = Some sec ->
  let L := gla (sec_name sec) in
  let si := section_record gla (next_image r) sec in
  let r' := registerJITObject P obj gla r in
  objectmap r !! L = None ->
  (forall s' sz' sec', (s', sz') ∈ obj_symbols obj -> text_function s' = Some sec' ->
     gla (sec_name sec') = L -> section_record gla (next_image r) sec' = si) ->
  L <= a < wrap64 (L + sec_size sec) ->
  (forall k v, objectmap r !! k = Some v -> ~ (L < k <= a)) ->
  (forall s' sz' sec', (s', sz') ∈ obj_symbols obj -> text_function s' = Some sec' ->
     ~ (L < gla (sec_name sec') <= a)) ->
  objectmap r' !! L = Some si /\
  lower_bound (objectmap r') a = Some (L, si) /\
  jl_getUnwindInfo_impl r' a = L /\
  is_Some (images r' !! next_image r).
Proof.
  intros Hin Ht L si r' Hfresh Hsame Ha Hold Hnew.
  assert (Hmap : objectmap r' !! L = Some si).
  { subst r'. unfold registerJITObject.
    rewrite (has_text_function obj s sz sec Hin Ht). cbn [negb objectmap].
    apply (fold_objectmap_new P gla (next_image r) _ _ s sz sec Hin Ht); [exact Hfresh|].
    exact Hsame. }
  assert (Hlb : lower_bound (objectmap r') a = Some (L, si)).
  { apply lower_bound_greatest; [exact Hmap|lia|].
    intros k v Hk Hka. destruct (Z.le_gt_cases k L) as [|Hgt]; [assumption|exfalso].
    subst r'. unfold registerJITObject in Hk.
    rewrite (has_text_function obj s sz sec Hin Ht) in Hk.
    cbn [negb objectmap] in Hk.
    apply fold_objectmap_origin in Hk as [Hk|(s' & sz' & sec' & Hin' & Ht' & -> & _)].
    - apply (Hold _ _ Hk). lia.
    - apply (Hnew s' sz' sec' Hin' Ht'). fold L. lia. }
  split; [exact Hmap|]. split; [exact Hlb|]. split.
  - unfold jl_getUnwindInfo_impl. rewrite Hlb. subst si. cbn [SectionSize section_record].
    destruct (Z.ltb_spec a (wrap64 (L + sec_size sec))); [reflexivity|lia].
  - subst r'. unfold registerJITObject.
    rewrite (has_text_function obj s sz sec Hin Ht). cbn [negb images].
    rewrite (fold_hassection P gla (next_image r) _ _ s sz sec Hin Ht).
    rewrite lookup_insert_eq. eauto.
Qed.

Lemma registered_section_found_witness :
  let r' := registerJITObject plain_platform two_functions load_at_0x1000 empty_registry in
  let si := section_record load_at_0x1000 0 text_section in
  objectmap r' !! 0x1000 = Some si /\
  lower_bound (objectmap r') 0x1020 = Some (0x1000, si) /\
  jl_getUnwindInfo_impl r' 0x1020 = 0x1000 /\
  is_Some (images r' !! O).
Proof.
  apply (registered_section_found plain_platform two_functions load_at_0x1000
           empty_registry sym_X 0x10 text_section 0x1020).
  - left.
  - reflexivity.
  - reflexivity.
  - intros s' sz' sec' Hin Ht _.
    apply elem_of_cons in Hin as [[= -> ->]|Hin];
      [|apply list_elem_of_singleton in Hin as [= -> ->]];
      injection Ht as <-; reflexivity.
  - vm_compute. split; congruence.
  - intros k v Hk. cbn in Hk. rewrite lookup_empty in Hk. discriminate.
  - intros s' sz' sec' _ _. unfold load_at_0x1000. lia.
Defined.

End RegistryExtras.

(** ** Symbolication and the registry *)

Section SymbolicationExtras.
Import Registry Symbolication.
Local Open Scope Z_scope.

Lemma jl_DI_for_fptr_frame E r fptr w :
  let r' := (jl_DI_for_fptr E r fptr w).2 in
  codeinst_in_flight r' = codeinst_in_flight r /\ cimap r' = cimap r /\
  objectmap r' = objectmap r /\ image_info r' = image_info r /\
  next_image r' = next_image r /\ unwind_log r' = unwind_log r.
Proof.
  cbv zeta. unfold jl_DI_for_fptr. split_lookup; repeat split; reflexivity.
Qed.

(** Symbolication leaves the registrations alone: resolving an address
    changes neither the pending handles, nor the code-instance ranges,
    nor the section records, nor the image records (only the cache of
    parsed images and the byte counter can change), so every later
    lookup of a code instance or of unwind information answers as
    before. *)
Theorem symbolication_keeps_registrations (E : Env) (r : JITDebugInfoRegistry)
    (pointer : Z) (skipC noInline : bool) :
  let r' := (jl_getFunctionInfo_impl E r pointer skipC noInline).2 in
  codeinst_in_flight r' = codeinst_in_flight r /\ cimap r' = cimap r /\
  objectmap r' = objectmap r /\ image_info r' = image_info r /\
  next_image r' = next_image r /\ unwind_log r' = unwind_log r /\
  (forall q, lookupCodeInstance r' q = lookupCodeInstance r q) /\
  (forall q, jl_getUnwindInfo_impl r' q = jl_getUnwindInfo_impl r q).
Proof.
  cbv zeta.
  assert (Hr : (jl_getFunctionInfo_impl E r pointer skipC noInline).2 =
               (jl_DI_for_fptr E r pointer true).2).
  { unfold jl_getFunctionInfo_impl.
    destruct (jl_DI_for_fptr E r pointer true) as [di r']. now destruct (di_found di). }
  rewrite Hr.
  destruct (jl_DI_for_fptr_frame E r pointer true) as (H1 & H2 & H3 & H4 & H5 & H6).
  repeat split; auto.
  - intros q. unfold lookupCodeInstance. now rewrite H2.
  - intros q. unfold jl_getUnwindInfo_impl. now rewrite H3.
Qed.

Lemma jl_DI_for_fptr_found E r a w first si :
  lock_registry E = true ->
  lower_bound (objectmap r) a = Some (first, si) ->
  a < wrap64 (first + SectionSize si) ->
  di_found (jl_DI_for_fptr E r a w).1 = true /\
  di_slide (jl_DI_for_fptr E r a w).1 = si_slide si.
Proof.
  intros Hlock Hlb Hlt. unfold jl_DI_for_fptr. rewrite Hlock, Hlb. cbn [negb].
  replace (a <? wrap64 (first + SectionSize si)) with true
    by (symmetry; now apply Z.ltb_lt).
  split_lookup; split; reflexivity.
Qed.

(** The two queries on the section map agree.  When the registry lock is
    obtained, [jl_DI_for_fptr] reports an address as found exactly when
    the section record with the greatest load address not above it
    covers it; then [jl_getUnwindInfo_impl] returns that load address
    and the slide reported is the one of the record.  When it reports
    the address as not found, [jl_getUnwindInfo_impl] returns zero. *)
Theorem unwind_info_agrees_with_lookup (E : Env) (r : JITDebugInfoRegistry)
    (a : Z) (w : bool) :
  lock_registry E = true ->
  let di := (jl_DI_for_fptr E r a w).1 in
  if di_found di
  then exists first si,
         lower_bound (objectmap r) a = Some (first, si) /\
         a < wrap64 (first + SectionSize si) /\
         jl_getUnwindInfo_impl r a = first /\ di_slide di = si_slide si
  else jl_getUnwindInfo_impl r a = 0 /\ forall si, ~ hits r a si.
Proof.
  intros Hlock. cbv zeta.
  destruct (lower_bound (objectmap r) a) as [[first si]|] eqn:Hlb.
  - destruct (Z.ltb_spec a (wrap64 (first + SectionSize si))) as [Hlt|Hge].
    + destruct (jl_DI_for_fptr_found E r a w first si Hlock Hlb Hlt) as [-> ->].
      exists first, si. repeat split; auto.
      unfold jl_getUnwindInfo_impl. rewrite Hlb.
      destruct (Z.ltb_spec a (wrap64 (first + SectionSize si))); [reflexivity|lia].
    + unfold jl_DI_for_fptr, jl_getUnwindInfo_impl, hits. rewrite Hlock, Hlb. cbn [negb].
      destruct (Z.ltb_spec a (wrap64 (first + SectionSize si))); [lia|].
      cbn [fst di_found]. split; [reflexivity|].
      intros si' (first' & [= <- <-] & Hlt). lia.
  - unfold jl_DI_for_fptr, jl_getUnwindInfo_impl, hits. rewrite Hlock, Hlb.
    cbn [negb fst di_found]. split; [reflexivity|].
    intros si' (first' & Hf & _). discriminate.
Qed.

Lemma unwind_info_agrees_with_lookup_witness :
  let r := registerJITObject plain_platform two_functions load_at_0x1000 empty_registry in
  let di := (jl_DI_for_fptr (sample_env plain_platform) r 0x1020 true).1 in
  if di_found di
  then exists first si,
         lower_bound (objectmap r) 0x1020 = Some (first, si) /\
         0x1020 < wrap64 (first + SectionSize si) /\
         jl_getUnwindInfo_impl r 0x1020 = first /\ di_slide di = si_slide si
  else jl_getUnwindInfo_impl r 0x1020 = 0 /\ forall si, ~ hits r 0x1020 si.
Proof.
  apply (unwind_info_agrees_with_lookup (sample_env plain_platform)
           (registerJITObject plain_platform two_functions load_at_0x1000 empty_registry)
           0x1020 true).
  reflexivity.
Defined.

End SymbolicationExtras.

(** ** Code instances of the frames *)

Section FrameExtras.
Import Registry Symbolication.
Local Open Scope Z_scope.

Lemma fill_frame_last noInline ctx sec addr infos fromC0 n i f :
  Z.of_nat i = n - 1 ->
  ci (fill_frame noInline ctx sec addr infos fromC0 n i f) = ci f.
Proof.
  intros Hi. unfold fill_frame.
  replace (Z.of_nat i =? n - 1) with true by (symmetry; now apply Z.eqb_eq).
  cbn [negb andb]. fill_cases; cbn; auto.
Qed.

Lemma fill_frame_inner noInline ctx sec addr infos fromC0 n i f :
  Z.of_nat i <> n - 1 -> ci f = NULL ->
  ci (fill_frame noInline ctx sec addr infos fromC0 n i f) = NULL /\
  inlined (fill_frame noInline ctx sec addr infos fromC0 n i f) = true.
Proof.
  intros Hi Hf. unfold fill_frame.
  replace (Z.of_nat i =? n - 1) with false by (symmetry; now apply Z.eqb_neq).
  cbn [negb andb]. split; fill_cases; cbn; auto.
Qed.

Lemma lookup_pointer_nocontext_ci frame0 demangle :
  exists f, (lookup_pointer_nocontext frame0 demangle).2 = [f] /\ ci f = ci frame0.
Proof.
  unfold lookup_pointer_nocontext. destruct demangle; [destruct (func_name frame0)|];
    eexists; split; reflexivity.
Qed.

Lemma singleton_frames (l : list jl_frame_t) f c :
  l = [f] -> ci f = c ->
  (exists f, last l = Some f /\ ci f = c) /\
  (forall i f, l !! i = Some f -> (S i < length l)%nat ->
               ci f = NULL /\ inlined f = true).
Proof.
  intros -> Hc. split; [exists f; now split|].
  intros i f' _ Hlen. cbn in Hlen. lia.
Qed.

Lemma lookup_pointer_ci E Section context frame0 pointer slide demangle noInline :
  let frames := (lookup_pointer E Section context frame0 pointer slide demangle noInline).2 in
  (exists f, last frames = Some f /\ ci f = ci frame0) /\
  (forall i f, frames !! i = Some f -> (S i < length frames)%nat ->
               ci f = NULL /\ inlined f = true).
Proof.
  cbv zeta.
  destruct (lookup_pointer_nocontext_ci frame0 demangle) as (f0 & Hf0 & Hc0).
  pose proof (singleton_frames _ f0 (ci frame0) Hf0 Hc0) as Hno.
  unfold lookup_pointer.
  destruct context as [ctx|]; [|exact Hno].
  destruct Section as [sec|]; [|exact Hno].
  destruct (negb (lock_context E)); [exact Hno|].
  rewrite frame_count.
  set (infos := getInliningInfoForAddress ctx sec (wrap64 (pointer + slide))).
  destruct (Z.eqb_spec (Z.of_nat (length infos)) 0) as [|Hn0]; [exact Hno|].
  set (n := if noInline then 1 else Z.of_nat (length infos)).
  assert (Hn : 1 <= n) by (subst n; destruct noInline; lia).
  cbn [snd].
  set (g := fun (i : nat) (f : jl_frame_t) =>
              if Z.of_nat i <? n
              then fill_frame noInline ctx sec (wrap64 (pointer + slide)) infos
                              (fromC frame0) n i f
              else f).
  assert (Hframes : (if 1 <? n
                     then replicate (Z.to_nat (n - 1)) zero_frame ++ [frame0]
                     else [frame0]) =
                    replicate (Z.to_nat (n - 1)) zero_frame ++ [frame0]).
  { destruct (Z.ltb_spec 1 n); [reflexivity|].
    replace (n - 1) with 0 by lia. reflexivity. }
  rewrite Hframes.
  assert (Hlen : length (imap g (replicate (Z.to_nat (n - 1)) zero_frame ++ [frame0])) =
                 S (Z.to_nat (n - 1))).
  { rewrite length_imap, length_app, length_replicate. cbn. lia. }
  split.
  - rewrite last_lookup, Hlen. cbn [pred].
    rewrite list_lookup_imap, lookup_app_r by (rewrite length_replicate; lia).
    rewrite length_replicate, Nat.sub_diag. cbn.
    eexists. split; [reflexivity|]. subst g. cbn beta.
    replace (Z.of_nat (Z.to_nat (n - 1)) <? n) with true by (symmetry; apply Z.ltb_lt; lia).
    apply fill_frame_last. lia.
  - intros i f Hi Hlt. rewrite Hlen in Hlt.
    rewrite list_lookup_imap, lookup_app_l in Hi by (rewrite length_replicate; lia).
    rewrite lookup_replicate_2 in Hi by lia. cbn in Hi. injection Hi as <-.
    subst g. cbn beta.
    replace (Z.of_nat i <? n) with true by (symmetry; apply Z.ltb_lt; lia).
    apply fill_frame_inner; [lia|reflexivity].
Qed.

(** Where the code instance goes.  For an address of JIT-emitted code,
    the last frame returned (the function that was compiled) carries the
    code instance that [lookupCodeInstance] finds for the address; every
    frame in front of it is marked as inlined and carries none. *)
Theorem jit_frames_code_instance (E : Env) (r : JITDebugInfoRegistry)
    (pointer : Z) (skipC noInline : bool) :
  di_found (jl_DI_for_fptr E r pointer true).1 = true ->
  let frames := (jl_getFunctionInfo_impl E r pointer skipC noInline).1.2 in
  (exists f, last frames = Some f /\ ci f = lookupCodeInstance r pointer) /\
  (forall i f, frames !! i = Some f -> (S i < length frames)%nat ->
               ci f = NULL /\ inlined f = true).
Proof.
  intros Hfound. cbv zeta. unfold jl_getFunctionInfo_impl.
  pose proof (jl_DI_for_fptr_frame E r pointer true) as (_ & Hci & _).
  destruct (jl_DI_for_fptr E r pointer true) as [di r']. cbn [fst snd] in *.
  rewrite Hfound. cbn [fst snd].
  replace (lookupCodeInstance r pointer) with (lookupCodeInstance r' pointer)
    by (unfold lookupCodeInstance; now rewrite Hci).
  apply (lookup_pointer_ci E (di_Section di) (di_context di)
           (set_ci (lookupCodeInstance r' pointer) (set_line (-1) zero_frame))).
Qed.

Lemma jit_frames_code_instance_witness :
  let r := registerJITObject plain_platform two_functions load_at_0x1000
             (add_code_in_flight "X" 11 empty_registry) in
  let frames := (jl_getFunctionInfo_impl (sample_env plain_platform) r 0x1004 false false).1.2 in
  (exists f, last frames = Some f /\ ci f = lookupCodeInstance r 0x1004) /\
  (forall i f, frames !! i = Some f -> (S i < length frames)%nat ->
               ci f = NULL /\ inlined f = true).
Proof.
  apply (jit_frames_code_instance (sample_env plain_platform)
           (registerJITObject plain_platform two_functions load_at_0x1000
              (add_code_in_flight "X" 11 empty_registry)) 0x1004 false false).
  vm_compute. reflexivity.
Defined.

(** Function pointers of a system image.  After the function pointers
    of an image were registered under its base address, a frame of the
    image whose function starts at the [i]-th registered pointer (the
    first one equal to the start address) is given the [i]-th code
    instance of the image: the last frame returned carries it. *)
Theorem sysimage_frame_code_instance (E : Env) (r : JITDebugInfoRegistry)
    (base : Z) (ptrs clone_ptrs clone_idxs cinfos : list Z) (n : Z)
    (d : dylib_info) (frame0 : jl_frame_t) (pointer : Z) (skipC noInline : bool)
    (i : nat) :
  0 <= base < 2 ^ 64 ->
  jl_dylib_DI_for_fptr E pointer skipC = Some d ->
  dl_isImage d = true -> dl_fbase d = base -> dl_saddr d <> NULL ->
  index_of (dl_saddr d) (firstn (Z.to_nat n) ptrs) = Some i ->
  let r' := jl_register_fptrs_impl base ptrs clone_ptrs clone_idxs cinfos n r in
  let frames := (jl_getDylibFunctionInfo E r' frame0 pointer skipC noInline).2 in
  exists f, last frames = Some f /\ ci f = nth i cinfos NULL.
Proof.
  intros Hbase Hd Himg Hfb Hs Hidx. cbv zeta.
  unfold jl_getDylibFunctionInfo. rewrite Hd, Himg.
  unfold jl_register_fptrs_impl, get_image_info, add_image_info. cbn [image_info img_base].
  unfold wrap64. rewrite Z.mod_small by lia. rewrite Hfb, lookup_insert_eq.
  replace (negb (dl_saddr d =? NULL)) with true
    by (symmetry; apply negb_true_iff, Z.eqb_neq; exact Hs).
  cbn [andb negb].
  match goal with
  | |- context [lookup_pointer E ?S ?c ?f0 ?p ?sl ?dm ?ni] =>
      destruct (lookup_pointer_ci E S c f0 p sl dm ni) as [(f & Hl & Hc) _];
      exists f; split; [exact Hl|]; rewrite Hc
  end.
  unfold image_code_instance. cbn [img_fvars_n img_ptrs img_fvars_cinst img_clone_ptrs].
  rewrite Hidx. reflexivity.
Qed.

Lemma sysimage_frame_code_instance_witness :
  let r' := jl_register_fptrs_impl 0x7000 [0x7080; 0x7100] [] [] [21; 22] 2 empty_registry in
  let frames := (jl_getDylibFunctionInfo sysimage_env r' (set_line (-1) zero_frame)
                   0x7104 false false).2 in
  exists f, last frames = Some f /\ ci f = 22.
Proof.
  apply (sysimage_frame_code_instance sysimage_env empty_registry 0x7000
           [0x7080; 0x7100] [] [] [21; 22] 2
           {| dl_Section := None; dl_slide := 0; dl_context := None;
              dl_isImage := true; dl_fbase := 0x7000; dl_saddr := 0x7100;
              dl_func_name := Some (list_ascii_of_string "julia_f_1");
              dl_file_name := Some (list_ascii_of_string "sys.so") |}
           (set_line (-1) zero_frame) 0x7104 false false 1).
  - lia.
  - reflexivity.
  - reflexivity.
  - reflexivity.
  - cbn. unfold NULL. lia.
  - reflexivity.
Defined.

End FrameExtras.

(** ** From registration to the first lookup *)

Section RoundTripExtras.
Import Registry Symbolication.
Local Open Scope Z_scope.

Lemma is_nil_false {A} (l : list A) : l <> [] -> is_nil l = false.
Proof. destruct l; [congruence|reflexivity]. Qed.

(** The first lookup into a freshly registered image gets the original
    object back.  When the codec gives back what it compressed, the
    image bytes are not empty and parse as an object, the first lookup
    of an address whose section record points to the new image
    decompresses the stored bytes to the bytes of the registered object,
    parses them, and returns the section index of the record and the
    debug-info context of the parsed object; bytes, object and context
    are stored with the image. *)
Theorem registered_image_round_trip (E : Env) (obj : ObjectFile)
    (gla : string -> Z) (r : JITDebugInfoRegistry)
    (s : SymbolRef) (sz : Z) (sec : SectionRef) (a : Z) (si : SectionInfo)
    (o : ObjectFile) :
  lock_registry E = true ->
  (s, sz) ∈ obj_symbols obj -> text_function s = Some sec ->
  let r' := registerJITObject (platform E) obj gla r in
  hits r' a si -> si_object si = next_image r ->
  (forall F, decompress (platform E) F (compress (platform E) F (obj_data obj))
               (Z.of_nat (length (obj_data obj))) = Some (obj_data obj)) ->
  (forall F, compress (platform E) F (obj_data obj) <> []) ->
  obj_data obj <> [] ->
  createObjectFile E (obj_data obj) = Some o ->
  let res := jl_DI_for_fptr E r' a true in
  res.1 = {| di_found := true; di_slide := si_slide si;
             di_Section := Some (SectionIndex si);
             di_context := Some (DWARFContext_create E o) |} /\
  images res.2 !! next_image r =
    Some {| data := obj_data obj; uncompressedsize := 0;
            object := Some o; context := Some (DWARFContext_create E o) |}.
Proof.
  intros Hlock Hin Ht r' (first & Hlb & Hlt) Hptr Hcodec Hpacked Hdata Hparse res.
  assert (Hlen : Z.of_nat (length (obj_data obj)) <> 0)
    by (destruct (obj_data obj); [congruence|cbn; lia]).
  assert (Himg : exists l bytes, images r' !! next_image r = Some l /\
            object l = None /\ context l = None /\ data l <> [] /\
            decompress_image E l =
              ({| data := obj_data obj; uncompressedsize := 0;
                  object := None; context := None |}, bytes)).
  { subst r'. unfold registerJITObject.
    rewrite (has_text_function obj s sz sec Hin Ht). cbn [negb images].
    rewrite (fold_hassection (platform E) gla (next_image r) _ _ s sz sec Hin Ht).
    rewrite lookup_insert_eq. unfold decompress_image.
    assert (Hnz : (Z.of_nat (length (obj_data obj)) =? 0) = false) by now apply Z.eqb_neq.
    destruct (zstd_isAvailable (platform E)); [|destruct (zlib_isAvailable (platform E))];
      eexists; eexists; (split; [reflexivity|]);
      cbn [object context data uncompressedsize]; rewrite ?Hnz; cbn [negb];
      rewrite ?Hcodec; repeat split; auto. }
  destruct Himg as (l & bytes & Hl & Hobj & Hctx & Hne & Hdec).
  subst res. unfold jl_DI_for_fptr. rewrite Hlock, Hlb. cbn [negb].
  replace (a <? wrap64 (first + SectionSize si)) with true
    by (symmetry; now apply Z.ltb_lt).
  rewrite Hptr, Hl, (is_nil_false _ Hne), Hobj.
  replace (bool_decide (is_Some (@None ObjectFile))) with false
    by (symmetry; apply bool_decide_eq_false; intros [x Hx]; discriminate).
  cbn [orb]. rewrite Hdec. unfold parse_image. cbn [data].
  rewrite (is_nil_false _ Hdata), Hparse. cbn [negb object context default fst snd].
  split; [reflexivity|]. unfold set_image. cbn [images]. apply lookup_insert_eq.
Qed.

Lemma registered_image_round_trip_witness :
  let E := sample_env prefix_codec in
  let r' := registerJITObject prefix_codec two_functions load_at_0x1000 empty_registry in
  let o := {| obj_data := obj_data two_functions; obj_symbols := [] |} in
  let res := jl_DI_for_fptr E r' 0x1020 true in
  res.1 = {| di_found := true; di_slide := -0x1000; di_Section := Some 1;
             di_context := Some three_frames |} /\
  images res.2 !! O =
    Some {| data := obj_data two_functions; uncompressedsize := 0;
            object := Some o; context := Some three_frames |}.
Proof.
  apply (registered_image_round_trip (sample_env prefix_codec) two_functions
           load_at_0x1000 empty_registry sym_X 0x10 text_section 0x1020
           (section_record load_at_0x1000 0 text_section)
           {| obj_data := obj_data two_functions; obj_symbols := [] |}).
  - reflexivity.
  - left.
  - reflexivity.
  - exists 0x1000. split; [vm_compute; reflexivity|]. vm_compute. reflexivity.
  - reflexivity.
  - intros F. reflexivity.
  - intros F. discriminate.
  - discriminate.
  - reflexivity.
Defined.

End RoundTripExtras.

(** ** The checksum as a bit-serial CRC *)

Section CrcExtras.
Import DebugLink.
Local Open Scope Z_scope.

Lemma crc32_bit_lxor a b : crc32_bit (Z.lxor a b) = Z.lxor (crc32_bit a) (crc32_bit b).
Proof.
  unfold crc32_bit. rewrite <- !Z.bit0_odd, Z.lxor_spec, Z.shiftr_lxor.
  apply Z.bits_inj'. intros n Hn.
  destruct (Z.testbit a 0), (Z.testbit b 0); cbn [xorb];
    rewrite ?Z.lxor_spec;
    destruct (Z.testbit (Z.shiftr a 1) n), (Z.testbit (Z.shiftr b 1) n),
             (Z.testbit 3988292384 n); reflexivity.
Qed.

Lemma iter_crc32_bit_lxor k a b :
  Nat.iter k crc32_bit (Z.lxor a b) =
  Z.lxor (Nat.iter k crc32_bit a) (Nat.iter k crc32_bit b).
Proof.
  induction k as [|k IH]; [reflexivity|].
  rewrite !Nat.iter_succ. now rewrite IH, crc32_bit_lxor.
Qed.

Lemma crc32_bit_even y : crc32_bit (2 * y) = y.
Proof.
  unfold crc32_bit. rewrite Z.odd_mul. cbn [Z.odd andb].
  rewrite Z.shiftr_div_pow2 by lia. change (2 ^ 1) with 2.
  rewrite Z.mul_comm. apply Z.div_mul. lia.
Qed.

Lemma iter_crc32_bit_shift k : forall y,
  Nat.iter k crc32_bit (2 ^ Z.of_nat k * y) = y.
Proof.
  induction k as [|k IH]; intros y.
  - change (Nat.iter 0 crc32_bit (2 ^ Z.of_nat 0 * y)) with (1 * y). lia.
  - rewrite Nat.iter_succ_r.
    replace (2 ^ Z.of_nat (S k) * y) with (2 * (2 ^ Z.of_nat k * y))
      by (rewrite Nat2Z.inj_succ, Z.pow_succ_r by lia; ring).
    rewrite crc32_bit_even. apply IH.
Qed.

Lemma split_low8 x : x = Z.lxor (Z.land x 255) (2 ^ 8 * Z.shiftr x 8).
Proof.
  apply Z.bits_inj'. intros n Hn.
  rewrite Z.lxor_spec, Z.land_spec. change 255 with (Z.ones 8).
  rewrite Z.mul_comm, <- Z.shiftl_mul_pow2 by lia.
  destruct (Z.lt_ge_cases n 8).
  - rewrite Z.ones_spec_low, Z.shiftl_spec_low by lia.
    now rewrite andb_true_r, xorb_false_r.
  - rewrite Z.ones_spec_high, Z.shiftl_spec by lia.
    rewrite andb_false_r, xorb_false_l, Z.shiftr_spec by lia.
    f_equal. lia.
Qed.

Lemma table_lookup n :
  0 <= n < 256 -> nth (Z.to_nat n) g_crc32_tab 0 = Nat.iter 8 crc32_bit n.
Proof.
  intros Hn. rewrite crc32_table_standard.
  rewrite (nth_indep _ 0 (crc32_table_entry 0))
    by (rewrite length_map, length_seq; lia).
  rewrite map_nth, seq_nth by lia. unfold crc32_table_entry.
  cbn [Nat.add]. now rewrite Z2Nat.id by lia.
Qed.

Lemma crc32_step_bitwise crc p :
  0 <= p < 256 -> crc32_step crc p = crc32_byte crc p.
Proof.
  intros Hp. unfold crc32_step, crc32_byte.
  rewrite (split_low8 (Z.lxor crc p)) at 2.
  rewrite iter_crc32_bit_lxor.
  change (2 ^ 8) with (2 ^ Z.of_nat 8).
  rewrite (iter_crc32_bit_shift 8).
  rewrite table_lookup.
  - f_equal. rewrite Z.shiftr_lxor. replace (Z.shiftr p 8) with 0.
    + now rewrite Z.lxor_0_r.
    + symmetry. rewrite Z.shiftr_div_pow2 by lia. apply Z.div_small. lia.
  - change 255 with (Z.ones 8). rewrite Z.land_ones by lia.
    apply Z.mod_pos_bound. lia.
Qed.

Lemma lxor_bound n a b :
  0 <= n -> 0 <= a < 2 ^ n -> 0 <= b < 2 ^ n -> 0 <= Z.lxor a b < 2 ^ n.
Proof.
  intros Hn Ha Hb.
  assert (H : Z.lxor a b = Z.lxor a b mod 2 ^ n).
  { rewrite <- (Z.mod_small a (2 ^ n)) at 1 by lia.
    rewrite <- (Z.mod_small b (2 ^ n)) at 1 by lia.
    rewrite <- !Z.land_ones by lia.
    apply Z.bits_inj'. intros k Hk. rewrite Z.land_spec, !Z.lxor_spec, !Z.land_spec.
    destruct (Z.testbit a k), (Z.testbit b k), (Z.testbit (Z.ones n) k); reflexivity. }
  rewrite H. apply Z.mod_pos_bound. lia.
Qed.

Lemma table_bound : Forall (fun v => 0 <= v < 2 ^ 32) g_crc32_tab.
Proof.
  apply Forall_forall. intros v Hv.
  assert (Hb : forallb (fun v => (0 <=? v) && (v <? 2 ^ 32)) g_crc32_tab = true)
    by (vm_compute; reflexivity).
  rewrite forallb_forall in Hb. apply list_elem_of_In in Hv. specialize (Hb v Hv).
  apply andb_true_iff in Hb as [H1%Z.leb_le H2%Z.ltb_lt]. lia.
Qed.

Lemma crc32_step_bound crc p : 0 <= crc < 2 ^ 32 -> 0 <= crc32_step crc p < 2 ^ 32.
Proof.
  intros Hc. unfold crc32_step. apply lxor_bound; [lia| |].
  - destruct (Nat.lt_ge_cases (Z.to_nat (Z.land (Z.lxor crc p) 255)) (length g_crc32_tab)).
    + pose proof table_bound as Ht. rewrite Forall_forall in Ht.
      apply Ht. apply list_elem_of_In. now apply nth_In.
    + rewrite nth_overflow by lia. lia.
  - rewrite Z.shiftr_div_pow2 by lia. split.
    + apply Z.div_pos; lia.
    + apply Z.div_lt_upper_bound; lia.
Qed.

Lemma crc32_fold buf : forall crc,
  0 <= crc < 2 ^ 32 -> Forall (fun b => 0 <= b < 256) buf ->
  foldl crc32_step crc buf = foldl crc32_byte crc buf /\
  0 <= foldl crc32_step crc buf < 2 ^ 32.
Proof.
  induction buf as [|b buf IH]; intros crc Hc Hb; cbn [foldl]; [now split|].
  apply Forall_cons in Hb as [Hb0 Hb].
  rewrite <- (crc32_step_bitwise crc b Hb0).
  apply IH; [|exact Hb]. now apply crc32_step_bound.
Qed.

(** The table-driven checksum is the bit-serial CRC-32 of the reflected
    polynomial [0xEDB88320], with the register started at all ones and
    complemented at the end; the result fits 32 bits, so the [uint32_t]
    arithmetic of the source never wraps. *)
Theorem crc32_is_bit_serial (buf : list Z) :
  Forall (fun b => 0 <= b < 256) buf ->
  calc_gnu_debuglink_crc32 buf = crc32_bitwise buf /\
  0 <= calc_gnu_debuglink_crc32 buf < 2 ^ 32.
Proof.
  intros Hb. unfold calc_gnu_debuglink_crc32, crc32_bitwise.
  destruct (crc32_fold buf 0xFFFFFFFF ltac:(lia) Hb) as [He Hr]. rewrite He in *.
  split; [reflexivity|]. apply lxor_bound; lia.
Qed.

Lemma crc32_is_bit_serial_witness :
  calc_gnu_debuglink_crc32 (bytes_of "123456789") = crc32_bitwise (bytes_of "123456789") /\
  0 <= calc_gnu_debuglink_crc32 (bytes_of "123456789") < 2 ^ 32.
Proof.
  apply (crc32_is_bit_serial (bytes_of "123456789")).
  repeat constructor; vm_compute; congruence.
Defined.

End CrcExtras.

(** ** Reading the debug-link section *)

Section DebuglinkExtras.
Import Registry DebugLink Dylib.
Local Open Scope Z_scope.

Lemma length_bytes_of s : length (bytes_of s) = String.length s.
Proof.
  unfold bytes_of. rewrite length_map.
  induction s as [|c s IH]; cbn; [reflexivity|]. now rewrite IH.
Qed.

Lemma string_of_bytes_of s : string_of_bytes (bytes_of s) = s.
Proof.
  unfold string_of_bytes, bytes_of. rewrite map_map.
  rewrite <- (string_of_list_ascii_of_string s) at 2. f_equal.
  induction (list_ascii_of_string s) as [|c l IH]; cbn [map]; [reflexivity|].
  now rewrite Nat2Z.id, ascii_nat_embedding, IH.
Qed.

Lemma nat_of_ascii_zero c : nat_of_ascii c = O -> c = "000"%char.
Proof. intros H. rewrite <- (ascii_nat_embedding c), H. reflexivity. Qed.

Lemma find_nul_bytes_of s rest :
  Forall (fun c => c <> "000"%char) (list_ascii_of_string s) ->
  find_nul (bytes_of s ++ 0 :: rest) = Some (String.length s).
Proof.
  unfold bytes_of. rewrite <- (string_of_list_ascii_of_string s) at 3.
  induction (list_ascii_of_string s) as [|c l IH]; intros Hs; cbn; [reflexivity|].
  apply Forall_cons in Hs as [Hc Hs].
  destruct (Z.eqb_spec (Z.of_nat (nat_of_ascii c)) 0) as [Hz|_].
  - exfalso. apply Hc, nat_of_ascii_zero. lia.
  - now rewrite (IH Hs).
Qed.

Lemma le_value_le_bytes n : forall v, le_value (CFI.le_bytes n v) = v mod 256 ^ Z.of_nat n.
Proof.
  induction n as [|n IH]; intros v; cbn [CFI.le_bytes le_value].
  - now rewrite Z.mod_1_r.
  - rewrite IH.
    replace (256 ^ Z.of_nat (S n)) with (256 * 256 ^ Z.of_nat n)
      by (rewrite Nat2Z.inj_succ, Z.pow_succ_r; lia).
    rewrite Z.rem_mul_r by (try apply Z.pow_nonzero; try apply Z.pow_pos_nonneg; lia).
    reflexivity.
Qed.

Lemma getDebuglink_skip LLT_ALIGN pre rest :
  Forall (fun sec => ns_name sec <> Some ".gnu_debuglink"%string \/ ns_contents sec = None) pre ->
  getDebuglink LLT_ALIGN (pre ++ rest) = getDebuglink LLT_ALIGN rest.
Proof.
  induction 1 as [|sec pre Hsec _ IH]; cbn [app getDebuglink]; [reflexivity|].
  destruct (ns_name sec) as [sName|]; [|exact IH].
  destruct (ns_contents sec) as [Contents|]; [|exact IH].
  destruct (String.eqb_spec sName ".gnu_debuglink"); [|exact IH].
  destruct Hsec as [Hn|Hc]; congruence.
Qed.

(** Reading a debug-link section.  For a section named
    [.gnu_debuglink] that holds a file name without NUL, its terminator,
    padding up to a multiple of four and a 32-bit checksum, and that is
    the first readable section of that name, [getDebuglink] returns the
    file name and the checksum.  The alignment macro is only required to
    round the length of the name plus one up to a multiple of four. *)
Theorem getDebuglink_round_trip (LLT_ALIGN : Z -> Z -> Z)
    (pre post : list named_section) (name : string) (crc : Z) :
  let n := Z.of_nat (String.length name) in
  LLT_ALIGN (n + 1) 4 = 4 * ((n + 4) / 4) ->
  n + 1 < 2 ^ 64 ->
  Forall (fun sec => ns_name sec <> Some ".gnu_debuglink"%string \/ ns_contents sec = None) pre ->
  Forall (fun c => c <> "000"%char) (list_ascii_of_string name) ->
  0 <= crc < 2 ^ 32 ->
  getDebuglink LLT_ALIGN
    (pre ++ {| ns_name := Some ".gnu_debuglink"%string;
               ns_contents := Some (debuglink_contents name crc) |} :: post) =
  Some {| dl_filename := name; dl_crc32 := crc |}.
Proof.
  intros n Halign Hn Hpre Hname Hcrc.
  assert (Hn0 : 0 <= n) by (subst n; lia).
  rewrite (getDebuglink_skip _ _ _ Hpre). cbn [getDebuglink ns_name ns_contents].
  change (String.eqb ".gnu_debuglink" ".gnu_debuglink") with true. cbv iota.
  unfold parse_debuglink, debuglink_contents. cbn [app].
  rewrite (find_nul_bytes_of name _ Hname). fold n.
  unfold wrap64. rewrite (Z.mod_small (n + 1)) by lia. rewrite Halign.
  set (pad := Z.to_nat (- (n + 1) mod 4)).
  assert (Hpad : Z.of_nat pad = 4 * ((n + 4) / 4) - (n + 1)).
  { subst pad. rewrite Z2Nat.id by (apply Z.mod_pos_bound; lia).
    Z.to_euclidean_division_equations. lia. }
  unfold read_uint32.
  rewrite length_app, length_bytes_of. cbn [length].
  rewrite length_app, length_replicate, length_le_bytes.
  replace (Z.min (4 * ((n + 4) / 4))
             (Z.of_nat (String.length name + S (pad + 4))))
    with (Z.of_nat (String.length name + S pad)) by lia.
  rewrite Nat2Z.id.
  replace (String.length name + S pad + 4 <=? String.length name + S (pad + 4))%nat
    with true by (symmetry; apply Nat.leb_le; lia).
  replace (bytes_of name ++ 0 :: replicate pad 0 ++ CFI.le_bytes 4 crc)
    with ((bytes_of name ++ 0 :: replicate pad 0) ++ CFI.le_bytes 4 crc)
    by (now rewrite <- app_assoc).
  rewrite drop_app_length' by (rewrite length_app, length_bytes_of; cbn;
                                rewrite length_replicate; lia).
  rewrite (firstn_all2 (CFI.le_bytes 4 crc)) by (rewrite length_le_bytes; lia).
  rewrite le_value_le_bytes. change (256 ^ Z.of_nat 4) with (2 ^ 32).
  rewrite Z.mod_small by lia.
  rewrite <- app_assoc. rewrite <- (length_bytes_of name).
  rewrite take_app_length. now rewrite string_of_bytes_of.
Qed.

Lemma getDebuglink_round_trip_witness :
  getDebuglink align_up
    ([{| ns_name := Some ".text"%string; ns_contents := Some [1; 2; 3] |}] ++
     {| ns_name := Some ".gnu_debuglink"%string;
        ns_contents := Some (debuglink_contents "libfoo.debug" 0x3610a686) |} :: []) =
  Some {| dl_filename := "libfoo.debug"; dl_crc32 := 0x3610a686 |}.
Proof.
  apply (getDebuglink_round_trip align_up
           [{| ns_name := Some ".text"%string; ns_contents := Some [1; 2; 3] |}] []
           "libfoo.debug" 0x3610a686).
  - vm_compute. reflexivity.
  - vm_compute. reflexivity.
  - constructor; [left; discriminate|constructor].
  - repeat constructor; discriminate.
  - lia.
Defined.

End DebuglinkExtras.

(** ** The cache of object files *)

Section ObjectFileExtras.
Import Registry DebugLink Dylib.
Local Open Scope Z_scope.

Lemma to_signed_congr z : exists k, to_signed 64 z = z + k * 2 ^ 64.
Proof.
  unfold to_signed. pose proof (Z.div_mod z (2 ^ 64) ltac:(lia)) as Hz.
  destruct (z mod 2 ^ 64 <? 2 ^ (64 - 1)).
  - exists (- (z / 2 ^ 64)). lia.
  - exists (- (z / 2 ^ 64) - 1). lia.
Qed.

(** The object file of a library is resolved once.  Whatever the first
    call for a base address returns, success or the empty entry of a
    failure, is what every later call for that base address returns,
    with the cache unchanged, whatever the file name passed and whatever
    the file system, the parser and the other collaborators answer
    then: a failed resolution is not retried. *)
Theorem find_object_file_memoized (E : LibEnv) (c : ObjFileCache) (fbase : Z)
    (fname : string) (entry : jl_object_file_entry_t) (c1 : ObjFileCache) :
  find_object_file E c fbase fname = Some (entry, c1) ->
  objfilemap c1 !! fbase = Some entry /\
  forall E' fname', find_object_file E' c1 fbase fname' = Some (entry, c1).
Proof.
  intros H.
  assert (Hc : objfilemap c1 !! fbase = Some entry).
  { unfold find_object_file in H.
    destruct (objfilemap c !! fbase) as [cached|] eqn:Hm.
    - injection H as <- <-. exact Hm.
    - destruct (open_object_file (lib_files E) fname) as [libobj|].
      + destruct (getDebuglink _ _) as [info|]; [|discriminate].
        destruct (lib_isCOFF E _); injection H as <- <-; cbn; apply lookup_insert_eq.
      + injection H as <- <-. cbn. apply lookup_insert_eq. }
  split; [exact Hc|]. intros E' fname'. unfold find_object_file. now rewrite Hc.
Qed.

Lemma find_object_file_memoized_witness :
  objfilemap (set_objfile 0x6000 null_entry empty_cache) !! 0x6000 = Some null_entry /\
  forall E' fname',
    find_object_file E' (set_objfile 0x6000 null_entry empty_cache) 0x6000 fname' =
    Some (null_entry, set_objfile 0x6000 null_entry empty_cache).
Proof.
  apply (find_object_file_memoized sample_lib_env empty_cache 0x6000 "/lib/missing.so"
           null_entry (set_objfile 0x6000 null_entry empty_cache)).
  reflexivity.
Defined.

(** What a first resolution stores.  For a library that is not in the
    cache yet and whose file opens as an object, the entry holds the
    companion file found by the debug-link search when the library has a
    debug-link and a candidate is accepted, and the library's own object
    otherwise; it holds the debug-info context created for that object
    and a fresh, empty symbol map; and its slide takes a loaded address
    back to the address in the file: adding it subtracts the base
    address.  An object in COFF format is refused. *)
Theorem find_object_file_resolves (E : LibEnv) (c : ObjFileCache) (fbase : Z)
    (fname : string) (libobj : ObjectFile) (info : debug_link_info) :
  objfilemap c !! fbase = None ->
  open_object_file (lib_files E) fname = Some libobj ->
  getDebuglink (lib_LLT_ALIGN E) (lib_sections E libobj) = Some info ->
  let found := if String.eqb (dl_filename info) EmptyString then None
               else first_accepted (lib_files E) info (candidates fname info) in
  let debugobj := match found with Some (_, splitobj) => splitobj | None => libobj end in
  match find_object_file E c fbase fname with
  | Some (entry, c1) =>
      if lib_isCOFF E debugobj then entry = null_entry
      else
        oe_obj entry = Some debugobj /\
        oe_ctx entry = Some (lib_DWARFContext_create E debugobj) /\
        oe_symbolmap entry = Some (next_symbolmap c) /\
        symbolmaps c1 !! next_symbolmap c = Some ∅ /\
        forall pointer, wrap64 (pointer + oe_slide entry) = wrap64 (pointer - fbase)
  | None => False
  end.
Proof.
  intros Hc Hopen Hlink found debugobj. unfold find_object_file.
  rewrite Hc, Hopen, Hlink.
  assert (Hd : (if negb (String.eqb (dl_filename info) EmptyString)
                then match find_debuglink_file (lib_files E) fname info with
                     | Some (_, splitobj) => splitobj
                     | None => libobj
                     end
                else libobj) = debugobj).
  { subst debugobj found. rewrite find_debuglink_file_order.
    destruct (String.eqb (dl_filename info) EmptyString); reflexivity. }
  rewrite Hd. destruct (lib_isCOFF E debugobj); [reflexivity|].
  cbn [oe_obj oe_ctx oe_symbolmap oe_slide symbolmaps next_symbolmap set_objfile].
  split; [reflexivity|]. split; [reflexivity|]. split; [reflexivity|].
  split; [apply lookup_insert_eq|].
  intros pointer. unfold wrap64.
  destruct (to_signed_congr fbase) as [k1 H1].
  destruct (to_signed_congr (- to_signed 64 fbase)) as [k2 H2].
  rewrite H2, H1.
  replace (pointer + (- (fbase + k1 * 2 ^ 64) + k2 * 2 ^ 64))
    with (pointer - fbase + (k2 - k1) * 2 ^ 64) by lia.
  apply Z_mod_plus_full.
Qed.

Lemma find_object_file_resolves_witness :
  match find_object_file sample_lib_env empty_cache 0x5000 "/lib/libfoo.so" with
  | Some (entry, c1) =>
      oe_obj entry = Some {| obj_data := [127; 69; 76; 70; 1]; obj_symbols := [] |} /\
      oe_ctx entry = Some Symbolication.no_frames /\
      oe_symbolmap entry = Some O /\
      symbolmaps c1 !! O = Some ∅ /\
      forall pointer, wrap64 (pointer + oe_slide entry) = wrap64 (pointer - 0x5000)
  | None => False
  end.
Proof.
  apply (find_object_file_resolves sample_lib_env empty_cache 0x5000 "/lib/libfoo.so"
           {| obj_data := [127; 69; 76; 70; 1]; obj_symbols := [] |}
           {| dl_filename := EmptyString; dl_crc32 := 0 |}).
  - reflexivity.
  - reflexivity.
  - reflexivity.
Defined.

End ObjectFileExtras.

(** ** Sections and symbols of a library *)

Section SectionSymbolExtras.
Import Registry DebugLink Dylib.
Local Open Scope Z_scope.

(** The section of a module for an address is the first text section
    that is not virtual and whose address range, with its end computed
    in 64 bits, contains the address; when there is none, no section is
    returned. *)
Theorem getModuleSectionForAddress_first (sections : list (SectionRef * bool))
    (Address : Z) :
  let covers := fun (sv : SectionRef * bool) =>
    sec_isText sv.1 = true /\ sv.2 = false /\
    sec_address sv.1 <= Address < wrap64 (sec_address sv.1 + sec_size sv.1) in
  match getModuleSectionForAddress sections Address with
  | Some Sec =>
      exists pre post,
        sections = pre ++ (Sec, false) :: post /\ covers (Sec, false) /\
        Forall (fun sv => ~ covers sv) pre
  | None => Forall (fun sv => ~ covers sv) sections
  end.
Proof.
  cbv zeta. induction sections as [|[Sec v] rest IH]; cbn [getModuleSectionForAddress];
    [constructor|].
  assert (Hskip : ~ (sec_isText Sec = true /\ v = false /\
                     sec_address Sec <= Address < wrap64 (sec_address Sec + sec_size Sec)) ->
            match getModuleSectionForAddress rest Address with
            | Some Sec0 =>
                exists pre post,
                  (Sec, v) :: rest = pre ++ (Sec0, false) :: post /\
                  (sec_isText (Sec0, false).1 = true /\ (Sec0, false).2 = false /\
                   sec_address (Sec0, false).1 <= Address <
                   wrap64 (sec_address (Sec0, false).1 + sec_size (Sec0, false).1)) /\
                  Forall (fun sv : SectionRef * bool =>
                            ~ (sec_isText sv.1 = true /\ sv.2 = false /\
                               sec_address sv.1 <= Address <
                               wrap64 (sec_address sv.1 + sec_size sv.1))) pre
            | None =>
                Forall (fun sv : SectionRef * bool =>
                          ~ (sec_isText sv.1 = true /\ sv.2 = false /\
                             sec_address sv.1 <= Address <
                             wrap64 (sec_address sv.1 + sec_size sv.1))) ((Sec, v) :: rest)
            end).
  { intros Hno. destruct (getModuleSectionForAddress rest Address) as [Sec0|].
    - destruct IH as (pre & post & -> & Hc & Hpre).
      exists ((Sec, v) :: pre), post. split; [reflexivity|]. split; [exact Hc|].
      constructor; [exact Hno|exact Hpre].
    - constructor; [exact Hno|exact IH]. }
  destruct (sec_isText Sec) eqn:Ht; cbn [negb orb].
  - destruct v; [apply Hskip; cbn; intros (_ & ? & _); discriminate|].
    destruct (Z.leb_spec (sec_address Sec) Address); cbn [andb].
    + destruct (Z.ltb_spec Address (wrap64 (sec_address Sec + sec_size Sec))).
      * exists [], rest. repeat split; auto.
      * apply Hskip. cbn. lia.
    + apply Hskip. cbn. lia.
  - apply Hskip. cbn. intros (? & _). congruence.
Qed.

Lemma lower_bound_empty {V} (p : Z) : lower_bound (∅ : gmap Z V) p = None.
Proof. unfold lower_bound. now rewrite map_to_list_empty. Qed.

Lemma is_empty_map_empty {V} : is_empty_map (∅ : gmap Z V) = true.
Proof. unfold is_empty_map. now rewrite map_to_list_empty. Qed.

(** Name and base address from the symbols of the section.  When
    neither the dynamic loader nor libunwind gave a start address or a
    name, and the symbol map of the library is still empty, the map is
    filled from the symbols the section contains, and the symbol with
    the greatest address not above the address looked up (taken back to
    file addresses by the slide) gives the name and, unless that address
    is zero, the base, which is taken forward to loaded addresses again.
    A caller that already has a start address and a name keeps them, and
    the symbol map is not touched. *)
Theorem nearest_symbol_gives_name_and_base (E : LibEnv) (obj : ObjectFile)
    (Sec : SectionRef) (pointer slide : Z) (inimage : bool) (a : Z) (n : string) :
  lib_unw_start_ip E pointer = None ->
  let m := fill_symbolmap (lib_symbols E obj Sec) ∅ in
  m !! a = Some n ->
  a <= wrap64 (pointer + slide) ->
  (forall k v, m !! k = Some v -> k <= wrap64 (pointer + slide) -> k <= a) ->
  a <> 0 -> n <> EmptyString ->
  get_function_name_and_base E (Some (obj, Sec)) ∅ pointer slide inimage
    (Some NULL) (Some None) false =
  (Some (wrap64 (a - slide)), Some (Some n), m) /\
  forall saddr0 name0 m0, saddr0 <> NULL ->
    get_function_name_and_base E (Some (obj, Sec)) m0 pointer slide inimage
      (Some saddr0) (Some (Some name0)) false =
    (Some saddr0, Some (Some name0), m0).
Proof.
  intros Hunw m Hm Hle Hmax Ha Hn. split.
  - unfold get_function_name_and_base. rewrite Hunw.
    change (NULL =? NULL) with true. cbn [orb negb bool_decide andb].
    replace (bool_decide (is_Some (@None string))) with false
      by (symmetry; apply bool_decide_eq_false; intros [x Hx]; discriminate).
    cbn [negb orb]. rewrite is_empty_map_empty. fold m.
    rewrite (lower_bound_greatest m _ a n Hm Hle Hmax).
    replace (a =? 0) with false by (symmetry; now apply Z.eqb_neq).
    replace (String.eqb n EmptyString) with false
      by (symmetry; now apply String.eqb_neq).
    reflexivity.
  - intros saddr0 name0 m0 Hs. unfold get_function_name_and_base.
    replace (saddr0 =? NULL) with false by (symmetry; now apply Z.eqb_neq).
    replace (bool_decide (is_Some (Some name0))) with true
      by (symmetry; apply bool_decide_eq_true; eauto).
    reflexivity.
Qed.

Lemma nearest_symbol_gives_name_and_base_witness :
  get_function_name_and_base sample_lib_env
    (Some ({| obj_data := [127; 69; 76; 70; 1]; obj_symbols := [] |}, text_section))
    ∅ 0x5024 (-0x5000) false (Some NULL) (Some None) false =
  (Some (wrap64 (0x10 - (-0x5000))), Some (Some "foo"%string),
   fill_symbolmap (lib_symbols sample_lib_env
                     {| obj_data := [127; 69; 76; 70; 1]; obj_symbols := [] |}
                     text_section) ∅) /\
  forall saddr0 name0 m0, saddr0 <> NULL ->
    get_function_name_and_base sample_lib_env
      (Some ({| obj_data := [127; 69; 76; 70; 1]; obj_symbols := [] |}, text_section))
      m0 0x5024 (-0x5000) false (Some saddr0) (Some (Some name0)) false =
    (Some saddr0, Some (Some name0), m0).
Proof.
  apply (nearest_symbol_gives_name_and_base sample_lib_env
           {| obj_data := [127; 69; 76; 70; 1]; obj_symbols := [] |} text_section
           0x5024 (-0x5000) false 0x10 "foo").
  - reflexivity.
  - vm_compute. reflexivity.
  - vm_compute. congruence.
  - intros k v Hk Hle.
    change (wrap64 (0x5024 + -0x5000)) with 0x24 in Hle.
    assert (Hm : fill_symbolmap (lib_symbols sample_lib_env
                   {| obj_data := [127; 69; 76; 70; 1]; obj_symbols := [] |}
                   text_section) ∅ =
                 <[0x30 := "bar"%string]> (<[0x10 := "foo"%string]> ∅))
      by (vm_compute; reflexivity).
    rewrite Hm in Hk.
    destruct (decide (k = 0x30)) as [->|H30]; [lia|].
    rewrite lookup_insert_ne in Hk by congruence.
    destruct (decide (k = 0x10)) as [->|H10]; [lia|].
    rewrite lookup_insert_ne, lookup_empty in Hk by congruence. discriminate.
  - lia.
  - discriminate.
Defined.

End SectionSymbolExtras.

(** ** Lookups through the dynamic loader *)

Section DylibExtras.
Import Registry DebugLink Dylib.
Local Open Scope Z_scope.

(** Foreign code is skipped without opening a file.  Asked for images
    only, the lookup of an address that the dynamic loader does not
    attribute to a registered system image fails at once: no object file
    is opened and the cache of object files is left as it was. *)
Theorem jl_dylib_DI_for_fptr_skips_foreign (E : LibEnv) (r : JITDebugInfoRegistry)
    (c : ObjFileCache) (pointer : Z) :
  (forall dlinfo, lib_dladdr1 E pointer = Some dlinfo ->
     get_image_info r (wrap64 (l_addr dlinfo)) = None) ->
  jl_dylib_DI_for_fptr E r c pointer true = Some (None, c).
Proof.
  intros Himg. unfold jl_dylib_DI_for_fptr.
  destruct (lib_dladdr1 E pointer) as [dlinfo|]; [|reflexivity].
  destruct (dli_fname dlinfo) as [fname|]; [|reflexivity].
  rewrite (Himg dlinfo eq_refl).
  replace (bool_decide (is_Some (@None image_info_t))) with false
    by (symmetry; apply bool_decide_eq_false; intros [x Hx]; discriminate).
  reflexivity.
Qed.

Lemma jl_dylib_DI_for_fptr_skips_foreign_witness :
  jl_dylib_DI_for_fptr sample_lib_env empty_registry empty_cache 0x5024 true =
  Some (None, empty_cache).
Proof.
  apply (jl_dylib_DI_for_fptr_skips_foreign sample_lib_env empty_registry empty_cache 0x5024).
  intros dlinfo _. reflexivity.
Defined.

(** Names without debug information.  For an address of a library that
    is not a system image and whose file cannot be opened as an object,
    the lookup still succeeds: it reports the function name, the start
    address and the file name the dynamic loader gave, no section, no
    context and a zero slide, and it records the failure in the cache of
    object files. *)
Theorem jl_dylib_DI_for_fptr_names_only (E : LibEnv) (r : JITDebugInfoRegistry)
    (c : ObjFileCache) (pointer : Z) (dlinfo : Dl_info) (fname : string) :
  lib_dladdr1 E pointer = Some dlinfo ->
  dli_fname dlinfo = Some fname ->
  let fbase := wrap64 (l_addr dlinfo) in
  get_image_info r fbase = None ->
  objfilemap c !! fbase = None ->
  open_object_file (lib_files E) fname = None ->
  jl_dylib_DI_for_fptr E r c pointer false =
  Some (Some {| Symbolication.dl_Section := None;
                Symbolication.dl_slide := 0;
                Symbolication.dl_context := None;
                Symbolication.dl_isImage := false;
                Symbolication.dl_fbase := fbase;
                Symbolication.dl_saddr := dli_saddr dlinfo;
                Symbolication.dl_func_name :=
                  option_map list_ascii_of_string (dli_sname dlinfo);
                Symbolication.dl_file_name := Some (list_ascii_of_string fname) |},
        set_objfile fbase null_entry c).
Proof.
  intros Hdl Hfname fbase Himg Hc Hopen. unfold jl_dylib_DI_for_fptr.
  rewrite Hdl, Hfname. fold fbase. rewrite Himg.
  replace (bool_decide (is_Some (@None image_info_t))) with false
    by (symmetry; apply bool_decide_eq_false; intros [x Hx]; discriminate).
  cbn [andb negb]. unfold find_object_file. rewrite Hc, Hopen.
  cbn [oe_obj oe_slide oe_ctx oe_symbolmap null_entry negb orb].
  unfold get_function_name_and_base. reflexivity.
Qed.

Lemma jl_dylib_DI_for_fptr_names_only_witness :
  jl_dylib_DI_for_fptr removed_lib_env empty_registry empty_cache 0x5024 false =
  Some (Some {| Symbolication.dl_Section := None;
                Symbolication.dl_slide := 0;
                Symbolication.dl_context := None;
                Symbolication.dl_isImage := false;
                Symbolication.dl_fbase := wrap64 0x5000;
                Symbolication.dl_saddr := 0x5010;
                Symbolication.dl_func_name := Some (list_ascii_of_string "foo");
                Symbolication.dl_file_name := Some (list_ascii_of_string "/lib/libfoo.so") |},
        set_objfile (wrap64 0x5000) null_entry empty_cache).
Proof.
  apply (jl_dylib_DI_for_fptr_names_only removed_lib_env empty_registry empty_cache 0x5024
           {| dli_fname := Some "/lib/libfoo.so"%string; dli_sname := Some "foo"%string;
              dli_saddr := 0x5010; l_addr := 0x5000 |} "/lib/libfoo.so").
  - reflexivity.
  - reflexivity.
  - reflexivity.
  - reflexivity.
  - reflexivity.
Defined.

End DylibExtras.

(** ** Invariants of the registry *)

Section InvariantExtras.
Import Registry Symbolication.
Local Open Scope Z_scope.

Lemma fold_cimap_nonnull P gla ptr l : forall st,
  (forall k sz ci, ls_cimap st !! k = Some (sz, ci) -> ci <> NULL) ->
  forall k sz ci,
    ls_cimap (foldl (register_symbol P gla ptr) st l) !! k = Some (sz, ci) -> ci <> NULL.
Proof.
  induction l as [|[s sz0] l IH]; intros st Hst; cbn [foldl]; [exact Hst|].
  apply IH. intros k sz ci. unfold register_symbol. cbn [fst snd].
  destruct (text_function s) as [sec|]; [|apply Hst]. cbn [ls_cimap].
  destruct (Z.eqb_spec (default NULL (ls_in_flight st !! sym_name s)) NULL) as [|Hne];
    cbn [negb]; [apply Hst|].
  destruct (decide (k = final_address gla s sec)) as [->|Hk].
  - rewrite lookup_insert_eq. intros [= <- <-]. exact Hne.
  - rewrite lookup_insert_ne by congruence. apply Hst.
Qed.

Lemma jl_DI_for_fptr_images E r fptr w i :
  is_Some (images r !! i) -> is_Some (images (jl_DI_for_fptr E r fptr w).2 !! i).
Proof.
  intros Hi. unfold jl_DI_for_fptr.
  destruct (negb (lock_registry E)); [exact Hi|].
  destruct (lower_bound (objectmap r) fptr) as [[first si]|]; [|exact Hi].
  destruct (fptr <? wrap64 (first + SectionSize si)); [|exact Hi].
  destruct (images r !! si_object si) as [lazyobject|] eqn:Hl; [|exact Hi].
  destruct (decide (si_object si = i)) as [->|Hne];
    split_lookup; cbn [snd set_image images];
    rewrite ?lookup_insert_eq, ?lookup_insert_ne by exact Hne; eauto.
Qed.

Lemma jl_DI_for_fptr_images_inv E r fptr w i :
  is_Some (images (jl_DI_for_fptr E r fptr w).2 !! i) -> is_Some (images r !! i).
Proof.
  unfold jl_DI_for_fptr.
  destruct (negb (lock_registry E)); [auto|].
  destruct (lower_bound (objectmap r) fptr) as [[first si]|]; [|auto].
  destruct (fptr <? wrap64 (first + SectionSize si)); [|auto].
  destruct (images r !! si_object si) as [lazyobject|] eqn:Hl; [|auto].
  destruct (decide (si_object si = i)) as [<-|Hne];
    [intros _; eauto|].
  split_lookup; cbn [snd set_image images];
    rewrite ?lookup_insert_ne by exact Hne; auto.
Qed.

Lemma step_registry_ok r o : registry_ok r -> registry_ok (step r o).
Proof.
  intros (Hsec & Himg & Hci). destruct o as [E fptr w|E pointer skipC noInline|P obj gla|name h|info];
    cbn [step].
  - pose proof (jl_DI_for_fptr_frame E r fptr w) as (_ & Hc & Ho & _ & Hn & _).
    split; [|split].
    + intros a si Ha. rewrite Ho in Ha. apply jl_DI_for_fptr_images. eauto.
    + intros i Hi. rewrite Hn. apply Himg. eapply jl_DI_for_fptr_images_inv; eauto.
    + intros k sz c. rewrite Hc. apply Hci.
  - assert (Hr : (jl_getFunctionInfo_impl E r pointer skipC noInline).2 =
                 (jl_DI_for_fptr E r pointer true).2).
    { unfold jl_getFunctionInfo_impl.
      destruct (jl_DI_for_fptr E r pointer true) as [di r']. now destruct (di_found di). }
    rewrite Hr.
    pose proof (jl_DI_for_fptr_frame E r pointer true) as (_ & Hc & Ho & _ & Hn & _).
    split; [|split].
    + intros a si Ha. rewrite Ho in Ha. apply jl_DI_for_fptr_images. eauto.
    + intros i Hi. rewrite Hn. apply Himg. eapply jl_DI_for_fptr_images_inv; eauto.
    + intros k sz c. rewrite Hc. apply Hci.
  - unfold registerJITObject.
    destruct (negb _); [repeat split; auto|].
    unfold registry_ok. cbn [objectmap images next_image cimap].
    split; [|split].
    + intros a si Ha.
      apply fold_objectmap_origin in Ha as [Ha|(s & sz & sec & Hin & Ht & _ & ->)].
      * cbn [ls_objectmap] in Ha. specialize (Hsec a si Ha).
        destruct (ls_hassection _); [|exact Hsec].
        destruct (decide (si_object si = next_image r)) as [->|Hne].
        -- rewrite lookup_insert_eq. eauto.
        -- rewrite lookup_insert_ne by congruence. exact Hsec.
      * cbn [si_object section_record].
        rewrite (fold_hassection P gla (next_image r) _ _ s sz sec Hin Ht).
        rewrite lookup_insert_eq. eauto.
    + intros i Hi. destruct (ls_hassection _).
      * destruct (decide (i = next_image r)) as [->|Hne]; [lia|].
        rewrite lookup_insert_ne in Hi by congruence. specialize (Himg i Hi). lia.
      * specialize (Himg i Hi). lia.
    + apply fold_cimap_nonnull. exact Hci.
  - repeat split; auto.
  - repeat split; auto.
Qed.

Lemma run_registry_ok ops : forall r, registry_ok r -> registry_ok (run ops r).
Proof.
  unfold run. induction ops as [|o ops IH]; intros r Hr; cbn [foldl]; [exact Hr|].
  apply IH. now apply step_registry_ok.
Qed.

(** What every reachable registry satisfies.  After any sequence of
    operations on the empty registry (pending handles, registrations of
    images, registrations of system images, lookups, resolutions), every
    section record points to an image that is stored (no record is left
    pointing to an image that was freed), every stored image was
    allocated, and every code-instance range holds a handle that is not
    null, so that a null answer of [lookupCodeInstance] always means
    "not found". *)
Theorem registry_invariants (ops : list operation) :
  let r := run ops empty_registry in
  (forall a si, objectmap r !! a = Some si ->
     is_Some (images r !! si_object si) /\ (si_object si < next_image r)%nat) /\
  (forall k sz ci, cimap r !! k = Some (sz, ci) -> ci <> NULL) /\
  (forall p, lookupCodeInstance r p = NULL ->
     forall k sz ci, cimap r !! k = Some (sz, ci) ->
       ~ (in_range k sz p /\ forall k' v, cimap r !! k' = Some v -> k' <= p -> k' <= k)).
Proof.
  cbv zeta.
  assert (Hok : registry_ok (run ops empty_registry)).
  { apply run_registry_ok. repeat split; cbn; intros *; rewrite lookup_empty;
      try discriminate. intros [x Hx]. discriminate. }
  destruct Hok as (Hsec & Himg & Hci).
  split; [|split; [exact Hci|]].
  - intros a si Ha. split; [now apply Hsec with a|]. apply Himg. now apply Hsec with a.
  - intros p Hnull k sz ci Hk [[Hlo Hhi] Hmax].
    apply (Hci k sz ci Hk). rewrite <- Hnull. symmetry.
    unfold lookupCodeInstance.
    rewrite (lower_bound_greatest _ p k (sz, ci) Hk Hlo Hmax).
    destruct (Z.ltb_spec p (wrap64 (k + sz))); [reflexivity|lia].
Qed.

End InvariantExtras.

(** ** More on FDE encodings and on the flags of the frames *)

Section OmitExtras.
Import CFI.
Local Open Scope Z_scope.

(** The "omitted" encoding.  A CIE that announces [DW_EH_PE_omit]
    ([0xff]) for the fields of its FDEs is handled like one that
    announces absolute pointers: the table builder reads two
    pointer-sized values, the start address and the size, from the FDE. *)
Theorem fde_range_omit_reads_pointers (fuel : nat) (m : memory)
    (Addr Size C Entry enc0 : Z) (c : cie_desc) (rest : list Z) (start size : Z) :
  (cie_fuel c <= fuel)%nat ->
  holds m C (cie_bytes c) ->
  wf_cie c ->
  cie_enc c = DW_EH_PE_omit ->
  C + Z.of_nat (length (cie_bytes c)) <= Addr + Size ->
  C <> NULL ->
  holds m Entry (fde_bytes (Entry + 4 - C) (le_bytes 8 start ++ le_bytes 8 size) rest) ->
  0 <= Entry + 4 - C < 2 ^ 32 ->
  4 + Z.of_nat (16 + length rest) < 2 ^ 32 ->
  0 <= start < 2 ^ 64 -> 0 <= size < 2 ^ 64 ->
  fde_range fuel m Addr Size NULL enc0 Entry = Ok (DW_EH_PE_omit, start, size).
Proof.
  intros Hfuel Hcie Hwf Henc HEnd HC Hfde Hid Hlen Hrs Hrz.
  pose proof (parseCIE_spec fuel m C (Addr + Size) c Hcie Hwf HEnd Hfuel) as Hparse.
  rewrite Henc in Hparse. clear Hcie Hwf Henc HEnd Hfuel.
  unfold fde_bytes in Hfde. rewrite length_app, !length_le_bytes in Hfde.
  pose proof (load32_le_bytes _ _ _ _ Hfde ltac:(lia)) as L0.
  apply holds_app in Hfde as [_ Hfde]. rewrite length_le_bytes in Hfde.
  change (Z.of_nat 4) with 4 in Hfde.
  pose proof (load32_le_bytes _ _ _ _ Hfde ltac:(lia)) as L4.
  apply holds_app in Hfde as [_ Hfde]. rewrite length_le_bytes in Hfde.
  change (Z.of_nat 4) with 4 in Hfde.
  replace (Entry + 4 + 4) with (Entry + 8) in Hfde by lia.
  rewrite <- app_assoc in Hfde.
  unfold fde_range. rewrite L0, L4.
  replace (Entry + 4 - (Entry + 4 - C)) with C by lia.
  replace (negb (C =? NULL)) with true
    by (symmetry; apply negb_true_iff, Z.eqb_neq; exact HC).
  rewrite Hparse. cbn [bind].
  change ((DW_EH_PE_omit =? DW_EH_PE_absptr) || (DW_EH_PE_omit =? DW_EH_PE_omit)) with true.
  cbv iota. unfold sizeof_ptr, load64.
  replace (2 * 8 + 4 <=? 4 + Z.of_nat (8 + 8 + length rest)) with true
    by (symmetry; apply Z.leb_le; lia).
  pose proof Hfde as Hf2. apply holds_app in Hf2 as [_ Hf2].
  rewrite length_le_bytes in Hf2. change (Z.of_nat 8) with 8 in Hf2.
  rewrite (load_le_field _ _ _ _ _ Hfde), (load_le_field _ _ _ _ _ Hf2).
  change (256 ^ Z.of_nat 8) with (2 ^ 64).
  now rewrite !Z.mod_small by lia.
Qed.

Lemma fde_range_omit_reads_pointers_witness :
  let bytes := cie_zR 1 1 0x78 16 DW_EH_PE_omit [12; 7; 8] ++
               fde_bytes 24 (le_bytes 8 0x7000 ++ le_bytes 8 64) [0; 0; 0; 0] in
  fde_range 3 (mem_of 4096 bytes) 4096 48 NULL DW_EH_PE_absptr 4116 =
  Ok (DW_EH_PE_omit, 0x7000, 64).
Proof.
  assert (Hall : holds (mem_of 4096
                   (cie_zR 1 1 0x78 16 DW_EH_PE_omit [12; 7; 8] ++
                    fde_bytes 24 (le_bytes 8 0x7000 ++ le_bytes 8 64) [0; 0; 0; 0])) 4096
                   (cie_zR 1 1 0x78 16 DW_EH_PE_omit [12; 7; 8] ++
                    fde_bytes 24 (le_bytes 8 0x7000 ++ le_bytes 8 64) [0; 0; 0; 0])).
  { apply holds_mem_of. vm_compute. reflexivity. }
  apply holds_app in Hall as [Hc Hf].
  change (4096 + Z.of_nat (length (cie_zR 1 1 0x78 16 DW_EH_PE_omit [12; 7; 8])))
    with 4116 in Hf.
  apply (fde_range_omit_reads_pointers 3 _ 4096 48 4096 4116 DW_EH_PE_absptr
           (zR_cie 1 1 0x78 16 DW_EH_PE_omit [12; 7; 8]) [0; 0; 0; 0] 0x7000 64).
  - change (3 <= 3)%nat. lia.
  - exact Hc.
  - unfold wf_cie. cbn.
    split; [now left|]. split; [repeat constructor; lia|]. split; [constructor|].
    split; [lia|]. split; [reflexivity|lia].
  - reflexivity.
  - change (4096 + 20 <= 4096 + 48). lia.
  - unfold NULL. lia.
  - exact Hf.
  - lia.
  - change (4 + 20 < 2 ^ 32). lia.
  - lia.
  - lia.
Defined.

End OmitExtras.

Section FlagExtras.
Import Registry Symbolication.
Local Open Scope Z_scope.

Lemma fill_frame_fromC noInline ctx sec addr infos fromC0 n i f :
  fromC f = (if Z.of_nat i =? n - 1 then fromC0 else fromC f) ->
  fromC (fill_frame noInline ctx sec addr infos fromC0 n i f) =
  fromC0 || negb (bool_decide (is_Some (func_name
              (fill_frame noInline ctx sec addr infos fromC0 n i f)))).
Proof.
  unfold fill_frame. intros Hf.
  destruct (Z.of_nat i =? n - 1); cbn [negb andb];
    fill_cases; cbn in *; rewrite ?Hf; destruct fromC0; try reflexivity; try discriminate.
Qed.

(** The foreign-code flag after expansion.  When the context lock is
    obtained and the context reports at least one frame, every frame
    returned is marked as foreign exactly when the entry frame was, or
    when it has no function name (the debug information gave
    ["<invalid>"]). *)
Theorem frames_foreign_flag (E : Env) (ctx : DIContext) (sec : Z)
    (frame0 : jl_frame_t) (pointer slide : Z) (demangle noInline : bool) :
  lock_context E = true ->
  (1 <= length (getInliningInfoForAddress ctx sec (wrap64 (pointer + slide))))%nat ->
  let frames :=
    (lookup_pointer E (Some sec) (Some ctx) frame0 pointer slide demangle noInline).2 in
  forall i f, frames !! i = Some f ->
    fromC f = fromC frame0 || negb (bool_decide (is_Some (func_name f))).
Proof.
  intros Hlock Hlen. cbv zeta. unfold lookup_pointer. rewrite Hlock. cbn [negb].
  rewrite frame_count.
  set (infos := getInliningInfoForAddress ctx sec (wrap64 (pointer + slide))) in *.
  replace (Z.of_nat (length infos) =? 0) with false by (symmetry; apply Z.eqb_neq; lia).
  set (n := if noInline then 1 else Z.of_nat (length infos)).
  assert (Hn : 1 <= n) by (subst n; destruct noInline; lia).
  cbn [snd].
  assert (Hframes : (if 1 <? n
                     then replicate (Z.to_nat (n - 1)) zero_frame ++ [frame0]
                     else [frame0]) =
                    replicate (Z.to_nat (n - 1)) zero_frame ++ [frame0]).
  { destruct (Z.ltb_spec 1 n); [reflexivity|].
    replace (n - 1) with 0 by lia. reflexivity. }
  rewrite Hframes. intros i f Hi.
  rewrite list_lookup_imap in Hi.
  destruct (Nat.lt_ge_cases i (Z.to_nat (n - 1))) as [Hlt|Hge].
  - rewrite lookup_app_l, lookup_replicate_2 in Hi by (rewrite ?length_replicate; lia).
    cbn in Hi. injection Hi as <-.
    replace (Z.of_nat i <? n) with true by (symmetry; apply Z.ltb_lt; lia).
    apply fill_frame_fromC.
    replace (Z.of_nat i =? n - 1) with false by (symmetry; apply Z.eqb_neq; lia).
    reflexivity.
  - rewrite lookup_app_r in Hi by (rewrite length_replicate; lia).
    rewrite length_replicate in Hi.
    destruct (i - Z.to_nat (n - 1))%nat as [|k] eqn:Hk; [|discriminate].
    cbn in Hi. injection Hi as <-.
    replace (Z.of_nat i <? n) with true by (symmetry; apply Z.ltb_lt; lia).
    apply fill_frame_fromC.
    replace (Z.of_nat i =? n - 1) with true by (symmetry; apply Z.eqb_eq; lia).
    reflexivity.
Qed.

Lemma frames_foreign_flag_witness :
  let frames :=
    (lookup_pointer (sample_env plain_platform) (Some 1) (Some three_frames)
       (set_line (-1) zero_frame) 0x1000 0 true false).2 in
  lock_context (sample_env plain_platform) = true /\
  forall i f, frames !! i = Some f ->
    fromC f = fromC (set_line (-1) zero_frame) || negb (bool_decide (is_Some (func_name f))).
Proof.
  split; [reflexivity|].
  apply (frames_foreign_flag (sample_env plain_platform) three_frames 1
           (set_line (-1) zero_frame) 0x1000 0 true false).
  - reflexivity.
  - cbn. lia.
Defined.

(** Without inlining.  With [noInline], when the context lock is
    obtained and the context reports at least one frame, the single
    frame returned is filled from the line information of the address
    itself: line, file and the function name, which is not cut at a
    semicolon; it keeps the code instance and the inlined flag of the
    entry frame. *)
Theorem noInline_single_frame (E : Env) (ctx : DIContext) (sec : Z)
    (frame0 : jl_frame_t) (pointer slide : Z) (demangle : bool) :
  lock_context E = true ->
  (1 <= length (getInliningInfoForAddress ctx sec (wrap64 (pointer + slide))))%nat ->
  let info := getLineInfoForAddress ctx sec (wrap64 (pointer + slide)) in
  exists f,
    lookup_pointer E (Some sec) (Some ctx) frame0 pointer slide demangle true = (1, [f]) /\
    line f = to_signed 32 (Line info) /\
    file_name f = shown_file (FileName info) /\
    func_name f = shown_name false (FunctionName info) /\
    inlined f = inlined frame0 /\ ci f = ci frame0.
Proof.
  intros Hlock Hlen info. unfold lookup_pointer. rewrite Hlock. cbn [negb].
  rewrite frame_count.
  replace (Z.of_nat (length (getInliningInfoForAddress ctx sec (wrap64 (pointer + slide)))) =? 0)
    with false by (symmetry; apply Z.eqb_neq; lia).
  cbn [imap]. change (1 <? 1) with false. cbn [imap Z.of_nat].
  change (0 <? 1) with true. cbv iota.
  eexists. split; [reflexivity|].
  unfold fill_frame, shown_file, shown_name. fold info.
  change (Z.of_nat 0 =? 1 - 1) with true. cbn [negb andb].
  repeat split; fill_cases.
Qed.

Lemma noInline_single_frame_witness :
  exists f,
    lookup_pointer (sample_env plain_platform) (Some 1) (Some three_frames)
      (set_line (-1) zero_frame) 0x1000 0 true true = (1, [f]) /\
    line f = to_signed 32 10 /\
    file_name f = shown_file (list_ascii_of_string "/src/a.jl") /\
    func_name f = shown_name false (list_ascii_of_string "inner;3") /\
    inlined f = false /\ ci f = NULL.
Proof.
  apply (noInline_single_frame (sample_env plain_platform) three_frames 1
           (set_line (-1) zero_frame) 0x1000 0 true).
  - reflexivity.
  - cbn. lia.
Defined.

End FlagExtras.
